(** * BorrowBook: users, books and the borrow / return workflow

    A shallow embedding of the service layer of the library API
    (service/user.go, service/book.go, service/book_borrows.go), of the error
    package it reports with (errors), of the PostgreSQL store it talks to
    through pgx, as far as database/database.go declares it, and of the
    handlers in front of it (web/handlers, web/validation).

    Modelling decisions, each stated again where it is used:
    - a table is a finite map from its primary key to the rest of the row, so
      PRIMARY KEY is the map's functionality; row order is not modelled, as
      no statement of the service has an ORDER BY;
    - a string is a text value of the store, taken as its sequence of
      characters;
    - id columns and timestamps are mathematical integers: a SERIAL sequence
      hands out 1, 2, 3, ... and is never exhausted, and every reading of the
      store's clock is later than all earlier ones;
    - [quantity INT] holds 32-bit values only, the VARCHAR columns hold at
      most their declared number of characters, and the CHECK, REFERENCES and
      UNIQUE clauses of the tables are enforced by the statements that write;
    - a method runs its statements one after the other, each on the store the
      one before left, with no transaction around them: when it returns an
      error, what it wrote before stays written;
    - the service runs one request at a time and the store always answers:
      no statement times out or is interleaved with another. *)

From Stdlib Require Import ZArith Lia Ascii.
From stdpp Require Import base option gmap strings pretty list fin_maps.

Local Open Scope string_scope.
Local Open Scope Z_scope.

(** ** Package errors *)

Set Warnings "-register-all".

Module er.

(** The values of Go's [error] interface that reach the service: pgx's
    sentinel and scan errors, the store's own errors (by SQLSTATE), the
    context's deadline error, and the application error of this package. *)
Inductive error : Type :=
| ErrNoRows
| DeadlineExceeded
| ScanArity (fields dests : nat)
| ScanNull
| ScanType
| PgError (sqlstate : string)
| AppError (FuncStack : list string) (Message : string) (Cause : option error).

(** [err.Error()]. A store error is shown by its SQLSTATE only and a
    conversion error of [Scan] in a few words; an application error as
    [AppError.Error] prints it, the stack with [%s]. *)
Fixpoint Error (e : error) : string :=
  match e with
  | ErrNoRows => "no rows in result set"
  | DeadlineExceeded => "context deadline exceeded"
  | ScanArity f d =>
      "number of field descriptions must equal number of destinations, got "
        +:+ pretty f +:+ " and " +:+ pretty d
  | ScanNull => "cannot assign NULL"
  | ScanType => "cannot assign value of this type"
  | PgError code => "ERROR: (SQLSTATE " +:+ code +:+ ")"
  | AppError stack msg cause =>
      let head := "[" +:+ String.concat " " stack +:+ "]: " +:+ msg in
      match cause with
      | Some c => head +:+ ": " +:+ Error c
      | None => head
      end
  end.

Definition New (funcName message : string) (cause : option error) : error :=
  AppError [funcName] message cause.

Definition Wrap (funcName : string) (err : error) : error :=
  match err with
  | AppError stack msg cause => AppError (stack ++ [funcName]) msg cause
  | _ => AppError [funcName] (Error err) (Some err)
  end.

(** Returns a non-nil error exactly for [context.DeadlineExceeded]. *)
Definition HandleDeadlineExceededError (packageName : string) (err : error)
  : option error :=
  let funcName := packageName +:+ "HandleDeadlineExceededError" in
  match err with
  | DeadlineExceeded => Some (New funcName "Operation timed out: " (Some err))
  | _ => None
  end.

End er.
Export er.

(** ** The store: tables of database/database.go and the statements run on them *)

Module database.

(** A timestamp of the store's clock ([TIMESTAMP WITH TIME ZONE]). *)
Definition time := Z.

(** [users (id SERIAL PRIMARY KEY, first_name VARCHAR(100) NOT NULL,
    last_name VARCHAR(100) NOT NULL)]: the row without its key. *)
Record users_row := { first_name : string; last_name : string }.

(** [books (id SERIAL PRIMARY KEY, title VARCHAR(255) NOT NULL,
    quantity INT NOT NULL CHECK (quantity >= 0))]. *)
Record books_row := { title : string; quantity : Z }.

(** [book_borrows (id SERIAL PRIMARY KEY, user_id INT NOT NULL REFERENCES
    users(id), book_id INT NOT NULL REFERENCES books(id), borrow_date
    TIMESTAMP WITH TIME ZONE DEFAULT CURRENT_TIMESTAMP, return_date TIMESTAMP
    WITH TIME ZONE, CONSTRAINT unique_borrow UNIQUE(user_id, book_id,
    return_date))]. Both dates are nullable columns. *)
Record book_borrows_row := {
  user_id : Z;
  book_id : Z;
  borrow_date : option time;
  return_date : option time
}.

(** The database behind the pool: the three tables, the last value each
    SERIAL sequence handed out, and the next reading of the clock. *)
Record DB := {
  users : gmap Z users_row;
  books : gmap Z books_row;
  book_borrows : gmap Z book_borrows_row;
  users_id_seq : Z;
  books_id_seq : Z;
  book_borrows_id_seq : Z;
  clock : time
}.

(** The store right after [CreateTablesIfNotExist] on a new database. *)
Definition CreateTablesIfNotExist : DB :=
  {| users := ∅; books := ∅; book_borrows := ∅;
     users_id_seq := 0; books_id_seq := 0; book_borrows_id_seq := 0;
     clock := 0 |}.

Definition set_users (f : gmap Z users_row → gmap Z users_row) (db : DB) : DB :=
  {| users := f (users db); books := books db; book_borrows := book_borrows db;
     users_id_seq := users_id_seq db; books_id_seq := books_id_seq db;
     book_borrows_id_seq := book_borrows_id_seq db; clock := clock db |}.

Definition set_books (f : gmap Z books_row → gmap Z books_row) (db : DB) : DB :=
  {| users := users db; books := f (books db); book_borrows := book_borrows db;
     users_id_seq := users_id_seq db; books_id_seq := books_id_seq db;
     book_borrows_id_seq := book_borrows_id_seq db; clock := clock db |}.

Definition set_book_borrows
    (f : gmap Z book_borrows_row → gmap Z book_borrows_row) (db : DB) : DB :=
  {| users := users db; books := books db; book_borrows := f (book_borrows db);
     users_id_seq := users_id_seq db; books_id_seq := books_id_seq db;
     book_borrows_id_seq := book_borrows_id_seq db; clock := clock db |}.

(** [nextval] of the three sequences. A value once handed out stays handed
    out, also when the statement that asked for it fails. *)
Definition nextval_users (db : DB) : Z * DB :=
  let id := users_id_seq db + 1 in
  (id, {| users := users db; books := books db; book_borrows := book_borrows db;
          users_id_seq := id; books_id_seq := books_id_seq db;
          book_borrows_id_seq := book_borrows_id_seq db; clock := clock db |}).

Definition nextval_books (db : DB) : Z * DB :=
  let id := books_id_seq db + 1 in
  (id, {| users := users db; books := books db; book_borrows := book_borrows db;
          users_id_seq := users_id_seq db; books_id_seq := id;
          book_borrows_id_seq := book_borrows_id_seq db; clock := clock db |}).

Definition nextval_book_borrows (db : DB) : Z * DB :=
  let id := book_borrows_id_seq db + 1 in
  (id, {| users := users db; books := books db; book_borrows := book_borrows db;
          users_id_seq := users_id_seq db; books_id_seq := books_id_seq db;
          book_borrows_id_seq := id; clock := clock db |}).

(** [NOW()] and [CURRENT_TIMESTAMP]: the reading, and the clock moved on. *)
Definition NOW (db : DB) : time * DB :=
  (clock db,
   {| users := users db; books := books db; book_borrows := book_borrows db;
      users_id_seq := users_id_seq db; books_id_seq := books_id_seq db;
      book_borrows_id_seq := book_borrows_id_seq db; clock := clock db + 1 |}).

(** *** Column types *)

Definition INT_MAX : Z := 2147483647.
Definition INT_MIN : Z := -2147483648.

(** A value an [INT] column can hold. *)
Definition int4 (z : Z) : bool := (INT_MIN <=? z) && (z <=? INT_MAX).

Fixpoint all_spaces (s : string) : bool :=
  match s with
  | EmptyString => true
  | String c s' => bool_decide (c = " "%char) && all_spaces s'
  end.

(** Assignment to a [VARCHAR(n)] column: a longer string is an error unless
    the excess is spaces only, which are cut off. *)
Definition varchar (n : nat) (s : string) : option string :=
  if (String.length s <=? n)%nat then Some s
  else if all_spaces (String.substring n (String.length s - n)%nat s)
       then Some (String.substring 0 n s)
       else None.

(** SQLSTATE codes of the errors the statements below raise. *)
Definition string_data_right_truncation := "22001".
Definition numeric_value_out_of_range := "22003".
Definition foreign_key_violation := "23503".
Definition unique_violation := "23505".
Definition check_violation := "23514".

(** *** Statements and their results

    A call on the pool takes the store to a new store and returns an error
    or a result. A failed statement leaves the tables as they were. *)

Definition Stmt (A : Type) : Type := DB → (error + A) * DB.

(** A value in a result row. *)
Inductive value : Type :=
| Int (z : Z)
| Text (s : string)
| Bool (b : bool)
| Timestamp (t : time)
| NULL.

Definition nullable (t : option time) : value :=
  match t with Some t => Timestamp t | None => NULL end.

(** The columns of a row in the order of the table ([SELECT *]). *)
Definition users_star (id : Z) (r : users_row) : list value :=
  [Int id; Text (first_name r); Text (last_name r)].

Definition books_star (id : Z) (r : books_row) : list value :=
  [Int id; Text (title r); Int (quantity r)].

Definition book_borrows_star (id : Z) (r : book_borrows_row) : list value :=
  [Int id; Int (user_id r); Int (book_id r);
   nullable (borrow_date r); nullable (return_date r)].

(** [SELECT cols FROM table WHERE cond]: the rows that satisfy the condition,
    each projected on the select list. *)
Definition SELECT {R : Type} (cols : Z → R → list value) (table : gmap Z R)
    (WHERE : Z → R → bool) : list (list value) :=
  (λ kr, cols kr.1 kr.2) <$>
    filter (λ kr, WHERE kr.1 kr.2 = true) (map_to_list table).

(** [SELECT EXISTS (subquery)]: one row with one boolean. *)
Definition EXISTS (subquery : list (list value)) : list (list value) :=
  [[Bool (bool_decide (subquery ≠ []))]].

(** [pool.QueryRow(ctx, query, args...)]: the first row, if any. Reading the
    row is left to [Scan]. *)
Definition QueryRow (rows : list (list value)) : option (list value) :=
  head rows.

(** Destinations of [Scan], by the Go type of the variable pointed to. *)
Definition to_int (v : value) : error + Z :=
  match v with Int z => inr z | NULL => inl ScanNull | _ => inl ScanType end.

Definition to_string (v : value) : error + string :=
  match v with Text s => inr s | NULL => inl ScanNull | _ => inl ScanType end.

Definition to_bool (v : value) : error + bool :=
  match v with Bool b => inr b | NULL => inl ScanNull | _ => inl ScanType end.

Definition to_Time (v : value) : error + time :=
  match v with Timestamp t => inr t | NULL => inl ScanNull | _ => inl ScanType end.

Definition to_Time_ptr (v : value) : error + option time :=
  match v with
  | Timestamp t => inr (Some t)
  | NULL => inr None
  | _ => inl ScanType
  end.

(** [rows.Scan(dest...)]: the number of destinations must be the number of
    columns of the row, or pgx returns its error "number of field
    descriptions must equal number of destinations", before any value is
    converted. *)
Definition Scan1 {A : Type} (d : value → error + A) (row : list value)
    : error + A :=
  match row with
  | [v] => d v
  | _ => inl (ScanArity (length row) 1)
  end.

Definition Scan3 {A B C : Type} (d1 : value → error + A)
    (d2 : value → error + B) (d3 : value → error + C) (row : list value)
    : error + (A * B * C) :=
  match row with
  | [v1; v2; v3] =>
      match d1 v1, d2 v2, d3 v3 with
      | inr a, inr b, inr c => inr (a, b, c)
      | inl e, _, _ | _, inl e, _ | _, _, inl e => inl e
      end
  | _ => inl (ScanArity (length row) 3)
  end.

Definition Scan5 {A B C D E : Type} (d1 : value → error + A)
    (d2 : value → error + B) (d3 : value → error + C)
    (d4 : value → error + D) (d5 : value → error + E) (row : list value)
    : error + (A * B * C * D * E) :=
  match row with
  | [v1; v2; v3; v4; v5] =>
      match d1 v1, d2 v2, d3 v3, d4 v4, d5 v5 with
      | inr a, inr b, inr c, inr d, inr e => inr (a, b, c, d, e)
      | inl e, _, _, _, _ | _, inl e, _, _, _ | _, _, inl e, _, _
      | _, _, _, inl e, _ | _, _, _, _, inl e => inl e
      end
  | _ => inl (ScanArity (length row) 5)
  end.

(** [Row.Scan]: [ErrNoRows] when the query gave no row. *)
Definition Row_Scan {A : Type} (scan : list value → error + A)
    (row : option (list value)) : error + A :=
  match row with
  | None => inl ErrNoRows
  | Some r => scan r
  end.

Definition QueryRow_Scan {A : Type} (query : DB → list (list value))
    (scan : list value → error + A) : Stmt A :=
  λ db, (Row_Scan scan (QueryRow (query db)), db).

(** [pool.Query(ctx, query)]: all rows; the store keeps no order. *)
Definition Query (query : DB → list (list value)) : Stmt (list (list value)) :=
  λ db, (inr (query db), db).

(** *** Statements of service/user.go *)

(** [INSERT INTO users (first_name, last_name) VALUES ($1, $2)] *)
Definition INSERT_INTO_users (first last : string) : Stmt unit :=
  λ db,
    let '(id, db) := nextval_users db in
    match varchar 100 first, varchar 100 last with
    | Some first, Some last =>
        match users db !! id with
        | Some _ => (inl (PgError unique_violation), db)
        | None =>
            (inr (), set_users
                       <[id := {| first_name := first; last_name := last |}]> db)
        end
    | _, _ => (inl (PgError string_data_right_truncation), db)
    end.

(** [SELECT id, first_name, last_name FROM users WHERE id = $1] *)
Definition SELECT_FROM_users_WHERE_id (userId : Z) (db : DB) : list (list value) :=
  SELECT users_star (users db) (λ id _, bool_decide (id = userId)).

(** [SELECT id, first_name, last_name FROM users] *)
Definition SELECT_FROM_users (db : DB) : list (list value) :=
  SELECT users_star (users db) (λ _ _, true).

(** [UPDATE users SET first_name = $1, last_name = $2 WHERE id = $3] *)
Definition UPDATE_users (first last : string) (userId : Z) : Stmt unit :=
  λ db,
    match varchar 100 first, varchar 100 last with
    | Some first, Some last =>
        (inr (), set_users
                   (alter (λ _, {| first_name := first; last_name := last |})
                      userId) db)
    | _, _ => (inl (PgError string_data_right_truncation), db)
    end.

(** [DELETE FROM users WHERE id = $1]: refused while a borrow row refers to
    the user ([user_id INT NOT NULL REFERENCES users(id)]). *)
Definition DELETE_FROM_users (userId : Z) : Stmt unit :=
  λ db,
    if bool_decide (is_Some (users db !! userId)) &&
       bool_decide (map_Exists (λ _ r, user_id r = userId) (book_borrows db))
    then (inl (PgError foreign_key_violation), db)
    else (inr (), set_users (delete userId) db).

(** [SELECT EXISTS (SELECT 1 FROM users WHERE id = $1)] *)
Definition SELECT_EXISTS_users_id (userId : Z) (db : DB) : list (list value) :=
  EXISTS (SELECT (λ _ _, [Int 1]) (users db) (λ id _, bool_decide (id = userId))).

(** [SELECT EXISTS (SELECT 1 FROM users WHERE first_name = $1 AND
    last_name = $2)] *)
Definition SELECT_EXISTS_users_name (first last : string) (db : DB)
    : list (list value) :=
  EXISTS (SELECT (λ _ _, [Int 1]) (users db)
            (λ _ r, bool_decide (first_name r = first) &&
                    bool_decide (last_name r = last))).

(** *** Statements of service/book.go *)

(** [INSERT INTO books (title, quantity) VALUES ($1, $2)]. A quantity that
    is no [INT] cannot be bound to [$2]: the statement is not run. *)
Definition INSERT_INTO_books (t : string) (q : Z) : Stmt unit :=
  λ db,
    if negb (int4 q) then (inl (PgError numeric_value_out_of_range), db)
    else
      let '(id, db) := nextval_books db in
      match varchar 255 t with
      | None => (inl (PgError string_data_right_truncation), db)
      | Some t =>
          if negb (0 <=? q) then (inl (PgError check_violation), db)
          else match books db !! id with
               | Some _ => (inl (PgError unique_violation), db)
               | None =>
                   (inr (), set_books
                              <[id := {| title := t; quantity := q |}]> db)
               end
      end.

(** [SELECT id, title, quantity FROM books WHERE id = $1] *)
Definition SELECT_FROM_books_WHERE_id (bookId : Z) (db : DB) : list (list value) :=
  SELECT books_star (books db) (λ id _, bool_decide (id = bookId)).

(** [SELECT id, title, quantity FROM books] *)
Definition SELECT_FROM_books (db : DB) : list (list value) :=
  SELECT books_star (books db) (λ _ _, true).

(** [UPDATE books SET title = $1, quantity = $2 WHERE id = $3]. The check
    of the column is made on the row that is written, if there is one. *)
Definition UPDATE_books (t : string) (q : Z) (bookId : Z) : Stmt unit :=
  λ db,
    if negb (int4 q) then (inl (PgError numeric_value_out_of_range), db)
    else
      match varchar 255 t with
      | None => (inl (PgError string_data_right_truncation), db)
      | Some t =>
          match books db !! bookId with
          | None => (inr (), db)
          | Some _ =>
              if negb (0 <=? q) then (inl (PgError check_violation), db)
              else (inr (), set_books
                              <[bookId := {| title := t; quantity := q |}]> db)
          end
      end.

(** [DELETE FROM books WHERE id = $1]: refused while a borrow row refers to
    the book ([book_id INT NOT NULL REFERENCES books(id)]). *)
Definition DELETE_FROM_books (bookId : Z) : Stmt unit :=
  λ db,
    if bool_decide (is_Some (books db !! bookId)) &&
       bool_decide (map_Exists (λ _ r, book_id r = bookId) (book_borrows db))
    then (inl (PgError foreign_key_violation), db)
    else (inr (), set_books (delete bookId) db).

(** [SELECT EXISTS(SELECT 1 FROM books WHERE id = $1)] *)
Definition SELECT_EXISTS_books_id (bookId : Z) (db : DB) : list (list value) :=
  EXISTS (SELECT (λ _ _, [Int 1]) (books db) (λ id _, bool_decide (id = bookId))).

(** [SELECT EXISTS (SELECT 1 FROM books WHERE title = $1)] *)
Definition SELECT_EXISTS_books_title (t : string) (db : DB) : list (list value) :=
  EXISTS (SELECT (λ _ _, [Int 1]) (books db) (λ _ r, bool_decide (title r = t))).

(** [SELECT EXISTS (SELECT 1 FROM books WHERE id = $1 AND title = $2)] *)
Definition SELECT_EXISTS_books_id_title (bookId : Z) (t : string) (db : DB)
    : list (list value) :=
  EXISTS (SELECT (λ _ _, [Int 1]) (books db)
            (λ id r, bool_decide (id = bookId) && bool_decide (title r = t))).

(** *** Statements of service/book_borrows.go *)

(** [SELECT * FROM books WHERE quantity > 0] *)
Definition SELECT_star_FROM_books_available (db : DB) : list (list value) :=
  SELECT books_star (books db) (λ _ r, 0 <? quantity r).

(** [SELECT id, book_id, user_id, borrow_date, return_date FROM book_borrows
    WHERE return_date IS NULL] *)
Definition SELECT_FROM_book_borrows_not_returned (db : DB) : list (list value) :=
  SELECT (λ id r, [Int id; Int (book_id r); Int (user_id r);
                   nullable (borrow_date r); nullable (return_date r)])
    (book_borrows db) (λ _ r, bool_decide (return_date r = None)).

(** [SELECT quantity FROM books WHERE id = $1] *)
Definition SELECT_quantity_FROM_books (bookId : Z) (db : DB) : list (list value) :=
  SELECT (λ _ r, [Int (quantity r)]) (books db) (λ id _, bool_decide (id = bookId)).

(** The condition [book_id = $1 AND user_id = $2 AND borrow_date IS NOT NULL
    AND return_date IS NULL] of the two queries below. *)
Definition borrowed_by (bookId userId : Z) (r : book_borrows_row) : bool :=
  bool_decide (book_id r = bookId) && bool_decide (user_id r = userId) &&
  bool_decide (borrow_date r ≠ None) && bool_decide (return_date r = None).

(** [SELECT * FROM book_borrows WHERE book_id = $1 AND user_id = $2 AND
    borrow_date IS NOT NULL AND return_date IS NULL] *)
Definition SELECT_star_FROM_book_borrows (bookId userId : Z) (db : DB)
    : list (list value) :=
  SELECT book_borrows_star (book_borrows db) (λ _ r, borrowed_by bookId userId r).

(** [SELECT 1 FROM book_borrows WHERE book_id = $1 AND user_id = $2 AND
    borrow_date IS NOT NULL AND return_date IS NULL] *)
Definition SELECT_1_FROM_book_borrows (bookId userId : Z) (db : DB)
    : list (list value) :=
  SELECT (λ _ _, [Int 1]) (book_borrows db) (λ _ r, borrowed_by bookId userId r).

(** [INSERT INTO book_borrows (book_id, user_id) VALUES ($1, $2)]: the id
    from the sequence, [borrow_date] from its default, [return_date] null. *)
Definition INSERT_INTO_book_borrows (bookId userId : Z) : Stmt unit :=
  λ db,
    let '(id, db) := nextval_book_borrows db in
    let '(now, db) := NOW db in
    if negb (bool_decide (is_Some (users db !! userId)) &&
             bool_decide (is_Some (books db !! bookId)))
    then (inl (PgError foreign_key_violation), db)
    else match book_borrows db !! id with
         | Some _ => (inl (PgError unique_violation), db)
         | None =>
             (inr (), set_book_borrows
                        <[id := {| user_id := userId; book_id := bookId;
                                   borrow_date := Some now;
                                   return_date := None |}]> db)
         end.

(** [UPDATE books SET quantity = quantity + delta WHERE id = $1]: the sum
    must be an [INT] and pass [CHECK (quantity >= 0)]. *)
Definition UPDATE_books_SET_quantity (delta : Z) (bookId : Z) : Stmt unit :=
  λ db,
    match books db !! bookId with
    | None => (inr (), db)
    | Some r =>
        let q := quantity r + delta in
        if negb (int4 q) then (inl (PgError numeric_value_out_of_range), db)
        else if negb (0 <=? q) then (inl (PgError check_violation), db)
        else (inr (), set_books
                        <[bookId := {| title := title r; quantity := q |}]> db)
    end.

(** [UPDATE books SET quantity = quantity - 1 WHERE id = $1] *)
Definition UPDATE_books_SET_quantity_minus_1 : Z → Stmt unit :=
  UPDATE_books_SET_quantity (-1).

(** [UPDATE books SET quantity = quantity + 1 WHERE id = $1] *)
Definition UPDATE_books_SET_quantity_plus_1 : Z → Stmt unit :=
  UPDATE_books_SET_quantity 1.

(** [CONSTRAINT unique_borrow UNIQUE(user_id, book_id, return_date)]: no two
    rows agree on the three columns. Nulls are distinct from each other, so
    rows without a return date never clash. *)
Definition unique_borrow (table : gmap Z book_borrows_row) : Prop :=
  map_Forall (λ i r1,
    map_Forall (λ j r2,
      user_id r1 = user_id r2 → book_id r1 = book_id r2 →
      is_Some (return_date r1) → return_date r1 = return_date r2 → i = j)
      table) table.

(** The condition [book_id = $1 AND user_id = $2 AND return_date IS NULL]. *)
Definition not_returned_by (bookId userId : Z) (r : book_borrows_row) : bool :=
  bool_decide (book_id r = bookId) && bool_decide (user_id r = userId) &&
  bool_decide (return_date r = None).

Definition SET_return_date (t : time) (r : book_borrows_row) : book_borrows_row :=
  {| user_id := user_id r; book_id := book_id r;
     borrow_date := borrow_date r; return_date := Some t |}.

(** [UPDATE book_borrows SET return_date = NOW() WHERE book_id = $1 AND
    user_id = $2 AND return_date IS NULL]: every row the condition selects
    gets the one reading of the clock; [unique_borrow] must hold after. *)
Definition UPDATE_book_borrows_SET_return_date (bookId userId : Z) : Stmt unit :=
  λ db,
    let '(now, db) := NOW db in
    let table :=
      (λ r, if not_returned_by bookId userId r then SET_return_date now r else r)
        <$> book_borrows db in
    if bool_decide (unique_borrow table)
    then (inr (), set_book_borrows (λ _, table) db)
    else (inl (PgError unique_violation), db).

End database.
Export database.

(** ** Packages models/user, models/book, models/book_borrow *)

Module user.
Record User := { ID : Z; FirstName : string; LastName : string }.
End user.

Module book.
Record Book := { ID : Z; Title : string; Quantity : Z }.
End book.

Module book_borrow.
Record BookBorrow := {
  ID : Z;
  BookID : Z;
  UserID : Z;
  Borrow_date : time;
  Return_date : option time
}.
End book_borrow.

(** ** Package service *)

Module service.

(** A method of a service: it runs statements on the store one after the
    other and returns an error or a result. Nothing is rolled back when it
    returns an error: the store is as the statements run so far left it. *)
Definition ret {A : Type} (a : A) : Stmt A := λ db, (inr a, db).

(** [return err] with a non-nil error. *)
Definition throw {A : Type} (err : error) : Stmt A := λ db, (inl err, db).

Definition bind {A B : Type} (m : Stmt A) (k : A → Stmt B) : Stmt B :=
  λ db, match m db with
        | (inr a, db') => k a db'
        | (inl err, db') => (inl err, db')
        end.

(** [err := call; if err != nil { return handler(err) }] *)
Definition or_return {A : Type} (m : Stmt A) (handler : error → error) : Stmt A :=
  λ db, match m db with
        | (inr a, db') => (inr a, db')
        | (inl err, db') => (inl (handler err), db')
        end.

(** [err := call], with the error kept as a value to branch on. *)
Definition try {A : Type} (m : Stmt A) : Stmt (error + A) :=
  λ db, let '(r, db') := m db in (inr r, db').

Notation "'let*' x ':=' m 'in' k" := (bind m (λ x, k))
  (at level 10, x name, m at level 100, k at level 200).
Notation "'let*' ' p ':=' m 'in' k" := (bind m (λ x, match x with p => k end))
  (at level 10, p pattern, m at level 100, k at level 200).
Notation "'do' m ; k" := (bind m (λ _, k))
  (at level 10, m at level 100, k at level 200).
Infix "??" := or_return (at level 60).

(** The loop [for rows.Next() { err := rows.Scan(...); if err != nil { return
    nil, ... }; result = append(result, x) }]. *)
Fixpoint scan_rows {A : Type} (scan : list value → error + A)
    (rows : list (list value)) (result : list A) : error + list A :=
  match rows with
  | [] => inr result
  | row :: rows =>
      match scan row with
      | inl err => inl err
      | inr x => scan_rows scan rows (result ++ [x])
      end
  end.

Definition lift {A : Type} (r : error + A) : Stmt A := λ db, (r, db).

(** *** service/user.go *)

Definition userService := "userService - ".

(** [nameAndLastNameExist]: an error when some user has both names. *)
Definition nameAndLastNameExist (u : user.User) : Stmt unit :=
  let funcName := userService +:+ "NameAndLastNameExist," in
  let* exists' :=
    QueryRow_Scan
      (SELECT_EXISTS_users_name (user.FirstName u) (user.LastName u))
      (Scan1 to_bool)
    ?? (λ err,
          if HandleDeadlineExceededError userService err is Some _
          then Wrap funcName err
          else New funcName "Error checking if user name and last name exists"
                 (Some err)) in
  if exists' : bool
  then throw (New funcName
                ("User with this name: " +:+ user.FirstName u +:+
                 ", and last name: " +:+ user.LastName u +:+ ", already exists")
                None)
  else ret ().

(** [UserExist]: an error when no user has the id. *)
Definition UserExist (userId : Z) : Stmt unit :=
  let funcName := userService +:+ "userExist," in
  let* userExists :=
    QueryRow_Scan (SELECT_EXISTS_users_id userId) (Scan1 to_bool)
    ?? (λ err,
          if HandleDeadlineExceededError userService err is Some _
          then Wrap funcName err
          else New funcName "Error checking if user exists" (Some err)) in
  if negb userExists
  then throw (New funcName
                ("User with id " +:+ pretty userId +:+ " does not exist") None)
  else ret ().

Definition CreateUser (newUser : user.User) : Stmt unit :=
  let funcName := userService +:+ "CreateUser," in
  do nameAndLastNameExist newUser ?? Wrap funcName;
  do INSERT_INTO_users (user.FirstName newUser) (user.LastName newUser)
     ?? (λ err,
           if HandleDeadlineExceededError userService err is Some _
           then Wrap funcName err
           else Wrap funcName err);
  ret ().

(** [Scan(&user.ID, &user.FirstName, &user.LastName)] *)
Definition scan_User (row : list value) : error + user.User :=
  match Scan3 to_int to_string to_string row with
  | inr (id, first, last) =>
      inr {| user.ID := id; user.FirstName := first; user.LastName := last |}
  | inl err => inl err
  end.

Definition GetUser (userId : Z) : Stmt user.User :=
  let funcName := userService +:+ "GetUser," in
  QueryRow_Scan (SELECT_FROM_users_WHERE_id userId) scan_User
  ?? (λ err,
        if HandleDeadlineExceededError userService err is Some _
        then Wrap funcName err
        else Wrap funcName err).

Definition GetAllUsers : Stmt (list user.User) :=
  let funcName := userService +:+ "GetAllUsers," in
  let* rows :=
    Query SELECT_FROM_users
    ?? (λ err,
          if HandleDeadlineExceededError userService err is Some _
          then Wrap funcName err
          else New funcName "Error getting all users" (Some err)) in
  lift (scan_rows scan_User rows [])
  ?? (λ err, New funcName ("Error scanning user: " +:+ Error err) (Some err)).

Definition UpdateUser (updateUser : user.User) (userId : Z) : Stmt unit :=
  let funcName := userService +:+ "UpdateUser," in
  do UserExist userId ?? Wrap funcName;
  do nameAndLastNameExist updateUser ?? Wrap funcName;
  do UPDATE_users (user.FirstName updateUser) (user.LastName updateUser) userId
     ?? (λ err,
           if HandleDeadlineExceededError userService err is Some _
           then Wrap funcName err
           else New funcName "Error updating user" (Some err));
  ret ().

Definition DeleteUser (userId : Z) : Stmt unit :=
  let funcName := userService +:+ "DeleteUser," in
  do UserExist userId ?? Wrap funcName;
  do DELETE_FROM_users userId
     ?? (λ err,
           if HandleDeadlineExceededError userService err is Some _
           then Wrap funcName err
           else New funcName "Error deleting user" (Some err));
  ret ().

(** *** service/book.go *)

Definition bookService := "bookService - ".

(** [bookExists]: an error when no book has the id. *)
Definition bookExists (bookId : Z) : Stmt unit :=
  let funcName := bookService +:+ "bookExists" in
  let* exists' :=
    QueryRow_Scan (SELECT_EXISTS_books_id bookId) (Scan1 to_bool)
    ?? (λ err,
          if HandleDeadlineExceededError bookService err is Some _
          then Wrap funcName err
          else Wrap funcName err) in
  if negb exists'
  then throw (New funcName
                ("Book with id " +:+ pretty bookId +:+ " does not exist") None)
  else ret ().

(** [titleExists]: an error when some book has the title. *)
Definition titleExists (b : book.Book) : Stmt unit :=
  let funcName := bookService +:+ "titleExists" in
  let* exists' :=
    QueryRow_Scan (SELECT_EXISTS_books_title (book.Title b)) (Scan1 to_bool)
    ?? (λ err,
          if HandleDeadlineExceededError bookService err is Some _
          then Wrap funcName err
          else Wrap funcName err) in
  if exists' : bool
  then throw (New funcName
                ("Book with title " +:+ book.Title b +:+ ", already exists") None)
  else ret ().

(** [bookAndTitleMatch]: whether the book with this id has this title. *)
Definition bookAndTitleMatch (bookId : Z) (b : book.Book) : Stmt bool :=
  let funcName := bookService +:+ "bookAndTitleExists" in
  let* exists' :=
    QueryRow_Scan (SELECT_EXISTS_books_id_title bookId (book.Title b))
      (Scan1 to_bool)
    ?? (λ err,
          if HandleDeadlineExceededError bookService err is Some _
          then Wrap funcName err
          else Wrap funcName err) in
  if negb exists' then ret false else ret true.

Definition CreateBook (newBook : book.Book) : Stmt unit :=
  let funcName := bookService +:+ "CreateBook" in
  do titleExists newBook ?? Wrap funcName;
  do INSERT_INTO_books (book.Title newBook) (book.Quantity newBook)
     ?? (λ err,
           if HandleDeadlineExceededError bookService err is Some _
           then Wrap funcName err
           else Wrap funcName err);
  ret ().

(** [Scan(&book.ID, &book.Title, &book.Quantity)] *)
Definition scan_Book (row : list value) : error + book.Book :=
  match Scan3 to_int to_string to_int row with
  | inr (id, t, q) =>
      inr {| book.ID := id; book.Title := t; book.Quantity := q |}
  | inl err => inl err
  end.

Definition GetBook (bookId : Z) : Stmt book.Book :=
  let funcName := bookService +:+ "GetBook" in
  QueryRow_Scan (SELECT_FROM_books_WHERE_id bookId) scan_Book
  ?? (λ err,
        if HandleDeadlineExceededError bookService err is Some _
        then Wrap funcName err
        else Wrap funcName err).

Definition GetAllBooks : Stmt (list book.Book) :=
  let funcName := bookService +:+ "GetAllBooks" in
  let* rows :=
    Query SELECT_FROM_books
    ?? (λ err,
          if HandleDeadlineExceededError bookService err is Some _
          then Wrap funcName err
          else Wrap funcName err) in
  lift (scan_rows scan_Book rows []) ?? Wrap funcName.

(** When the id and the title match, the title is not looked up among the
    other books: the same book is updated, perhaps only in its quantity. *)
Definition UpdateBook (bookId : Z) (updatedBook : book.Book) : Stmt unit :=
  let funcName := bookService +:+ "UpdateBook" in
  do bookExists bookId ?? Wrap funcName;
  let* ok := bookAndTitleMatch bookId updatedBook ?? Wrap funcName in
  do (if negb ok then titleExists updatedBook ?? Wrap funcName else ret ());
  do UPDATE_books (book.Title updatedBook) (book.Quantity updatedBook) bookId
     ?? (λ err,
           if HandleDeadlineExceededError bookService err is Some _
           then Wrap funcName err
           else Wrap funcName err);
  ret ().

Definition DeleteBook (bookId : Z) : Stmt unit :=
  let funcName := bookService +:+ "DeleteBook" in
  do DELETE_FROM_books bookId
     ?? (λ err,
           if HandleDeadlineExceededError bookService err is Some _
           then Wrap funcName err
           else Wrap funcName err);
  ret ().

(** *** service/book_borrows.go *)

Definition bookBorrowService := "bookBorrowService - ".

Definition GetAvailableBooks : Stmt (list book.Book) :=
  let funcName := bookBorrowService +:+ "GetAvailableBooks" in
  let* rows :=
    Query SELECT_star_FROM_books_available
    ?? (λ err,
          if HandleDeadlineExceededError bookBorrowService err is Some _
          then Wrap funcName err
          else Wrap funcName err) in
  lift (scan_rows scan_Book rows []) ?? Wrap funcName.

(** [Scan(&bookBorrowed.ID, &bookBorrowed.BookID, &bookBorrowed.UserID,
    &bookBorrowed.Borrow_date, &bookBorrowed.Return_date)] *)
Definition scan_BookBorrow (row : list value) : error + book_borrow.BookBorrow :=
  match Scan5 to_int to_int to_int to_Time to_Time_ptr row with
  | inr (id, b, u, borrowed, returned) =>
      inr {| book_borrow.ID := id; book_borrow.BookID := b;
             book_borrow.UserID := u; book_borrow.Borrow_date := borrowed;
             book_borrow.Return_date := returned |}
  | inl err => inl err
  end.

Definition AllBorrowedBooks : Stmt (list book_borrow.BookBorrow) :=
  let funcName := bookBorrowService +:+ "AllBorrowedBooks" in
  let* rows :=
    Query SELECT_FROM_book_borrows_not_returned
    ?? (λ err,
          if HandleDeadlineExceededError bookBorrowService err is Some _
          then Wrap funcName err
          else Wrap funcName err) in
  lift (scan_rows scan_BookBorrow rows []) ?? Wrap funcName.

(** [BorrowBook]. The row of the third query has the five columns of
    [book_borrows] and is scanned into the single [bool] [bookBorrowed]. *)
Definition BorrowBook (bookId userId : Z) : Stmt unit :=
  let funcName := bookService +:+ "BorrowBook" in
  let* quantity :=
    QueryRow_Scan (SELECT_quantity_FROM_books bookId) (Scan1 to_int)
    ?? (λ err,
          if HandleDeadlineExceededError bookService err is Some _
          then Wrap funcName err
          else Wrap funcName err) in
  if bool_decide (quantity ≤ 0)
  then throw (New funcName "Book is not available" None)
  else
    do UserExist userId ?? Wrap funcName;
    let* r :=
      try (QueryRow_Scan (SELECT_star_FROM_book_borrows bookId userId)
             (Scan1 to_bool)) in
    let* bookBorrowed :=
      match r with
      | inr b => ret b
      | inl ErrNoRows => ret false
      | inl err =>
          if HandleDeadlineExceededError bookService err is Some _
          then throw (Wrap funcName err)
          else throw (Wrap funcName err)
      end in
    if bookBorrowed : bool
    then throw (New funcName "Book is already borrowed" None)
    else
      do INSERT_INTO_book_borrows bookId userId
         ?? (λ err,
               if HandleDeadlineExceededError bookService err is Some _
               then Wrap funcName err
               else Wrap funcName err);
      do UPDATE_books_SET_quantity_minus_1 bookId
         ?? (λ err,
               if HandleDeadlineExceededError bookService err is Some _
               then Wrap funcName err
               else Wrap funcName err);
      ret ().

Definition ReturnBook (bookId userId : Z) : Stmt unit :=
  let funcName := bookService +:+ "ReturnBook" in
  let* r :=
    try (QueryRow_Scan (SELECT_1_FROM_book_borrows bookId userId)
           (Scan1 to_int)) in
  let* activeBorrowCount :=
    match r with
    | inr n => ret n
    | inl ErrNoRows => throw (New funcName "Book is not borrowed" None)
    | inl err =>
        if HandleDeadlineExceededError bookService err is Some _
        then throw (Wrap funcName err)
        else throw (Wrap funcName err)
    end in
  if bool_decide (activeBorrowCount = 0)
  then throw (New funcName "Book is not currently borrowed by the user" None)
  else
    do UPDATE_book_borrows_SET_return_date bookId userId
       ?? (λ err,
             if HandleDeadlineExceededError bookService err is Some _
             then Wrap funcName err
             else Wrap funcName err);
    do UPDATE_books_SET_quantity_plus_1 bookId
       ?? (λ err,
             if HandleDeadlineExceededError bookService err is Some _
             then Wrap funcName err
             else Wrap funcName err);
    ret ().

(** *** The service as a whole: one request after the other *)

Inductive call : Type :=
| CallCreateUser (newUser : user.User)
| CallGetUser (userId : Z)
| CallGetAllUsers
| CallUpdateUser (updateUser : user.User) (userId : Z)
| CallDeleteUser (userId : Z)
| CallUserExist (userId : Z)
| CallCreateBook (newBook : book.Book)
| CallGetBook (bookId : Z)
| CallGetAllBooks
| CallUpdateBook (bookId : Z) (updatedBook : book.Book)
| CallDeleteBook (bookId : Z)
| CallGetAvailableBooks
| CallAllBorrowedBooks
| CallBorrowBook (bookId userId : Z)
| CallReturnBook (bookId userId : Z).

(** The store after a call, whatever the call returned. *)
Definition after (c : call) (db : DB) : DB :=
  match c with
  | CallCreateUser newUser => (CreateUser newUser db).2
  | CallGetUser userId => (GetUser userId db).2
  | CallGetAllUsers => (GetAllUsers db).2
  | CallUpdateUser updateUser userId => (UpdateUser updateUser userId db).2
  | CallDeleteUser userId => (DeleteUser userId db).2
  | CallUserExist userId => (UserExist userId db).2
  | CallCreateBook newBook => (CreateBook newBook db).2
  | CallGetBook bookId => (GetBook bookId db).2
  | CallGetAllBooks => (GetAllBooks db).2
  | CallUpdateBook bookId updatedBook => (UpdateBook bookId updatedBook db).2
  | CallDeleteBook bookId => (DeleteBook bookId db).2
  | CallGetAvailableBooks => (GetAvailableBooks db).2
  | CallAllBorrowedBooks => (AllBorrowedBooks db).2
  | CallBorrowBook bookId userId => (BorrowBook bookId userId db).2
  | CallReturnBook bookId userId => (ReturnBook bookId userId db).2
  end.

(** The stores the service can bring about, starting from the new database. *)
Inductive reachable : DB → Prop :=
| reachable_new : reachable CreateTablesIfNotExist
| reachable_after c db : reachable db → reachable (after c db).

End service.
Export service.

(** ** Package validate (web/validation)

    The three functions run the validator of go-playground on a struct whose
    only tag is [required]: a field with that tag must not be the zero value
    of its type, the empty string or 0. The result is the list of the fields
    that failed, in the order of the struct; the empty list is [nil]. *)

Module validate.

Record FieldError := { Namespace : string; Field : string }.

(** [FieldError.Error] and [ValidationErrors.Error]: one line for each field. *)
Definition FieldError_Error (fe : FieldError) : string :=
  "Key: '" +:+ Namespace fe +:+ "' Error:Field validation for '" +:+
  Field fe +:+ "' failed on the 'required' tag".

Definition Error (errs : list FieldError) : string :=
  String.concat (String "010"%char EmptyString) (FieldError_Error <$> errs).

Definition required_string (namespace field s : string) : list FieldError :=
  if bool_decide (s = "")
  then [{| Namespace := namespace; Field := field |}] else [].

Definition required_int (namespace field : string) (z : Z) : list FieldError :=
  if bool_decide (z = 0)
  then [{| Namespace := namespace; Field := field |}] else [].

Definition ValidateUser (u : user.User) : list FieldError :=
  (required_string "User.FirstName" "FirstName" (user.FirstName u) ++
   required_string "User.LastName" "LastName" (user.LastName u))%list.

Definition ValidateBook (b : book.Book) : list FieldError :=
  (required_string "Book.Title" "Title" (book.Title b) ++
   required_int "Book.Quantity" "Quantity" (book.Quantity b))%list.

Definition ValidateBookBorrow (b : book_borrow.BookBorrow) : list FieldError :=
  (required_int "BookBorrow.BookID" "BookID" (book_borrow.BookID b) ++
   required_int "BookBorrow.UserID" "UserID" (book_borrow.UserID b))%list.

End validate.

(** ** Package api (web/handlers)

    A handler reads the request, calls one method of a service and writes
    the response. What [strconv.Atoi] made of the [id] of the path and what
    [json.Unmarshal] made of the body are given to the handler: the number
    or the struct, or the text of the error. *)

Module api.

Definition handler := "handler - ".

Definition StatusOK : Z := 200.
Definition StatusCreated : Z := 201.
Definition StatusBadRequest : Z := 400.
Definition StatusInternalServerError : Z := 500.

(** What [SendString] or [JSON] is given. *)
Inductive body : Type :=
| SendString (s : string)
| JSON_User (u : user.User)
| JSON_Users (l : list user.User)
| JSON_Book (b : book.Book)
| JSON_Books (l : list book.Book)
| JSON_BookBorrows (l : list book_borrow.BookBorrow).

Record Response := { Status : Z; Body : body }.

Definition Handler : Type := DB → Response * DB.

(** [er.Wrap(funcName, err)] with its result dropped, as every handler calls
    it: the application error that [err] points to has the name added to its
    stack, and [err] still points to it; for any other error a new
    application error is made and lost. *)
Definition Wrap_dropped (funcName : string) (err : error) : error :=
  match err with
  | AppError _ _ _ => Wrap funcName err
  | _ => err
  end.

(** [er.UnwrapError]: it follows [Unwrap] methods, and an application error
    has none (its cause is a field), nor has another error of this model. *)
Definition UnwrapError (err : error) : error := err.

(** [return c.Status(status).SendString(er.UnwrapError(err).Error())] after
    [er.Wrap(funcName, err)]. *)
Definition service_error (status : Z) (funcName : string) (err : error)
  : Response :=
  {| Status := status;
     Body := SendString (Error (UnwrapError (Wrap_dropped funcName err))) |}.

Definition bad_request (text : string) : Response :=
  {| Status := StatusBadRequest; Body := SendString text |}.

(** *** User handlers *)

Definition CreateUser (unmarshalled : string + user.User) : Handler :=
  λ db,
    let funcName := handler +:+ "CreateUser" in
    match unmarshalled with
    | inl err => (bad_request err, db)
    | inr newUser =>
        match validate.ValidateUser newUser with
        | _ :: _ as validateErr => (bad_request (validate.Error validateErr), db)
        | [] =>
            match service.CreateUser newUser db with
            | (inl err, db) =>
                (service_error StatusInternalServerError funcName err, db)
            | (inr _, db) =>
                ({| Status := StatusCreated;
                    Body := SendString "User was successfully created" |}, db)
            end
        end
    end.

Definition GetUser (atoi : string + Z) : Handler :=
  λ db,
    let funcName := handler +:+ "GetUser" in
    match atoi with
    | inl err => (bad_request err, db)
    | inr userId =>
        match service.GetUser userId db with
        | (inl err, db) => (service_error StatusBadRequest funcName err, db)
        | (inr u, db) => ({| Status := StatusOK; Body := JSON_User u |}, db)
        end
    end.

Definition GetAllUsers : Handler :=
  λ db,
    let funcName := handler +:+ "GetAllUsers" in
    match service.GetAllUsers db with
    | (inl err, db) => (service_error StatusBadRequest funcName err, db)
    | (inr l, db) => ({| Status := StatusOK; Body := JSON_Users l |}, db)
    end.

Definition UpdateUser (atoi : string + Z) (unmarshalled : string + user.User)
  : Handler :=
  λ db,
    let funcName := handler +:+ "UpdateUser" in
    match atoi with
    | inl err => (bad_request err, db)
    | inr userId =>
        match unmarshalled with
        | inl err => (bad_request err, db)
        | inr updateUser =>
            match validate.ValidateUser updateUser with
            | _ :: _ as validateErr =>
                (bad_request (validate.Error validateErr), db)
            | [] =>
                match service.UpdateUser updateUser userId db with
                | (inl err, db) =>
                    (service_error StatusInternalServerError funcName err, db)
                | (inr _, db) =>
                    ({| Status := StatusOK;
                        Body := SendString "User was updated successfully" |},
                     db)
                end
            end
        end
    end.

Definition DeleteUser (atoi : string + Z) : Handler :=
  λ db,
    let funcName := handler +:+ "DeleteUser" in
    match atoi with
    | inl err => (bad_request err, db)
    | inr userId =>
        match service.DeleteUser userId db with
        | (inl err, db) =>
            (service_error StatusInternalServerError funcName err, db)
        | (inr _, db) =>
            ({| Status := StatusOK;
                Body := SendString "User was successfully deleted" |}, db)
        end
    end.

(** *** Book handlers *)

Definition CreateBook (unmarshalled : string + book.Book) : Handler :=
  λ db,
    let funcName := handler +:+ "CreateBook" in
    match unmarshalled with
    | inl err => (bad_request err, db)
    | inr newBook =>
        match validate.ValidateBook newBook with
        | _ :: _ as validateErr => (bad_request (validate.Error validateErr), db)
        | [] =>
            match service.CreateBook newBook db with
            | (inl err, db) =>
                (service_error StatusInternalServerError funcName err, db)
            | (inr _, db) =>
                ({| Status := StatusCreated;
                    Body := SendString "Book was successfully created" |}, db)
            end
        end
    end.

Definition GetBook (atoi : string + Z) : Handler :=
  λ db,
    let funcName := handler +:+ "GetBook" in
    match atoi with
    | inl err => (bad_request err, db)
    | inr bookId =>
        match service.GetBook bookId db with
        | (inl err, db) =>
            (service_error StatusInternalServerError funcName err, db)
        | (inr b, db) => ({| Status := StatusOK; Body := JSON_Book b |}, db)
        end
    end.

Definition GetAllBooks : Handler :=
  λ db,
    let funcName := handler +:+ "GetAllBooks" in
    match service.GetAllBooks db with
    | (inl err, db) => (service_error StatusInternalServerError funcName err, db)
    | (inr l, db) => ({| Status := StatusOK; Body := JSON_Books l |}, db)
    end.

Definition UpdateBook (atoi : string + Z) (unmarshalled : string + book.Book)
  : Handler :=
  λ db,
    let funcName := handler +:+ "UpdateBook" in
    match atoi with
    | inl err => (bad_request err, db)
    | inr bookId =>
        match unmarshalled with
        | inl err => (bad_request err, db)
        | inr updateBook =>
            match validate.ValidateBook updateBook with
            | _ :: _ as validateErr =>
                (bad_request (validate.Error validateErr), db)
            | [] =>
                match service.UpdateBook bookId updateBook db with
                | (inl err, db) =>
                    (service_error StatusInternalServerError funcName err, db)
                | (inr _, db) =>
                    ({| Status := StatusOK;
                        Body := SendString "Book was updated successfully" |},
                     db)
                end
            end
        end
    end.

Definition DeleteBook (atoi : string + Z) : Handler :=
  λ db,
    let funcName := handler +:+ "DeleteBook" in
    match atoi with
    | inl err => (bad_request err, db)
    | inr bookId =>
        match service.DeleteBook bookId db with
        | (inl err, db) =>
            (service_error StatusInternalServerError funcName err, db)
        | (inr _, db) =>
            ({| Status := StatusOK;
                Body := SendString "Book was deleted successfully" |}, db)
        end
    end.

(** *** Borrow handlers *)

Definition GetAvailableBooks : Handler :=
  λ db,
    let funcName := handler +:+ "GetAvailableBooks" in
    match service.GetAvailableBooks db with
    | (inl err, db) => (service_error StatusInternalServerError funcName err, db)
    | (inr l, db) => ({| Status := StatusOK; Body := JSON_Books l |}, db)
    end.

Definition AllBorrowedBooks : Handler :=
  λ db,
    let funcName := handler +:+ "AllBorrowedBooks" in
    match service.AllBorrowedBooks db with
    | (inl err, db) => (service_error StatusInternalServerError funcName err, db)
    | (inr l, db) => ({| Status := StatusOK; Body := JSON_BookBorrows l |}, db)
    end.

Definition BorrowBook (unmarshalled : string + book_borrow.BookBorrow)
  : Handler :=
  λ db,
    let funcName := handler +:+ "BorrowBook" in
    match unmarshalled with
    | inl err => (bad_request err, db)
    | inr bookBorrow =>
        match validate.ValidateBookBorrow bookBorrow with
        | _ :: _ as validateErr => (bad_request (validate.Error validateErr), db)
        | [] =>
            match service.BorrowBook (book_borrow.BookID bookBorrow)
                    (book_borrow.UserID bookBorrow) db with
            | (inl err, db) =>
                (service_error StatusInternalServerError funcName err, db)
            | (inr _, db) =>
                ({| Status := StatusOK;
                    Body := SendString "Book was successfully borrowed" |}, db)
            end
        end
    end.

Definition ReturnBook (unmarshalled : string + book_borrow.BookBorrow)
  : Handler :=
  λ db,
    let funcName := handler +:+ "ReturnBook" in
    match unmarshalled with
    | inl err => (bad_request err, db)
    | inr bookBorrow =>
        match validate.ValidateBookBorrow bookBorrow with
        | _ :: _ as validateErr => (bad_request (validate.Error validateErr), db)
        | [] =>
            match service.ReturnBook (book_borrow.BookID bookBorrow)
                    (book_borrow.UserID bookBorrow) db with
            | (inl err, db) =>
                (service_error StatusInternalServerError funcName err, db)
            | (inr _, db) =>
                ({| Status := StatusOK;
                    Body := SendString "Book was successfully returned" |}, db)
            end
        end
    end.

(** *** The routes (routes.SetupRoutes): a request, once its path and body
    are read, and the handler it goes to *)

Inductive request : Type :=
| POST_user (unmarshalled : string + user.User)
| GET_user (atoi : string + Z)
| GET_users
| PUT_user (atoi : string + Z) (unmarshalled : string + user.User)
| DELETE_user (atoi : string + Z)
| POST_book (unmarshalled : string + book.Book)
| GET_book (atoi : string + Z)
| GET_books
| PUT_book (atoi : string + Z) (unmarshalled : string + book.Book)
| DELETE_book (atoi : string + Z)
| GET_book_borrow
| GET_book_borrowed
| POST_book_borrow (unmarshalled : string + book_borrow.BookBorrow)
| PUT_book_borrow (unmarshalled : string + book_borrow.BookBorrow).

Definition route (r : request) : Handler :=
  match r with
  | POST_user unmarshalled => CreateUser unmarshalled
  | GET_user atoi => GetUser atoi
  | GET_users => GetAllUsers
  | PUT_user atoi unmarshalled => UpdateUser atoi unmarshalled
  | DELETE_user atoi => DeleteUser atoi
  | POST_book unmarshalled => CreateBook unmarshalled
  | GET_book atoi => GetBook atoi
  | GET_books => GetAllBooks
  | PUT_book atoi unmarshalled => UpdateBook atoi unmarshalled
  | DELETE_book atoi => DeleteBook atoi
  | GET_book_borrow => GetAvailableBooks
  | GET_book_borrowed => AllBorrowedBooks
  | POST_book_borrow unmarshalled => BorrowBook unmarshalled
  | PUT_book_borrow unmarshalled => ReturnBook unmarshalled
  end.

(** The [funcName] of the handler of a request. *)
Definition funcName (r : request) : string :=
  match r with
  | POST_user _ => handler +:+ "CreateUser"
  | GET_user _ => handler +:+ "GetUser"
  | GET_users => handler +:+ "GetAllUsers"
  | PUT_user _ _ => handler +:+ "UpdateUser"
  | DELETE_user _ => handler +:+ "DeleteUser"
  | POST_book _ => handler +:+ "CreateBook"
  | GET_book _ => handler +:+ "GetBook"
  | GET_books => handler +:+ "GetAllBooks"
  | PUT_book _ _ => handler +:+ "UpdateBook"
  | DELETE_book _ => handler +:+ "DeleteBook"
  | GET_book_borrow => handler +:+ "GetAvailableBooks"
  | GET_book_borrowed => handler +:+ "AllBorrowedBooks"
  | POST_book_borrow _ => handler +:+ "BorrowBook"
  | PUT_book_borrow _ => handler +:+ "ReturnBook"
  end.

End api.

(** * Specification

    The words of the claims as predicates on the store, and the stores the
    examples run on. *)

(** ** Borrow rows *)

(** The row is a borrow of the pair (book, user) without a return date. *)
Definition active (bookId userId : Z) (r : book_borrows_row) : Prop :=
  book_id r = bookId ∧ user_id r = userId ∧ return_date r = None.

Global Instance active_dec bookId userId r : Decision (active bookId userId r).
Proof. unfold active. apply _. Defined.

(** No borrow row of the pair is without a return date. *)
Definition not_borrowed (db : DB) (bookId userId : Z) : Prop :=
  ∀ i r, book_borrows db !! i = Some r → ¬ active bookId userId r.

Global Instance not_borrowed_dec db bookId userId :
  Decision (not_borrowed db bookId userId).
Proof.
  apply (map_Forall_dec (λ _ r, ¬ active bookId userId r) (book_borrows db)).
Defined.

(** At most one borrow row of a (user, book) pair is without a return date. *)
Definition one_active (db : DB) : Prop :=
  ∀ i j r1 r2,
    book_borrows db !! i = Some r1 → book_borrows db !! j = Some r2 →
    user_id r1 = user_id r2 → book_id r1 = book_id r2 →
    return_date r1 = None → return_date r2 = None → i = j.

(** ** Names and titles *)

(** Some user has both names. *)
Definition name_taken (db : DB) (first last : string) : Prop :=
  ∃ i r, users db !! i = Some r ∧ first_name r = first ∧ last_name r = last.

Global Instance name_taken_dec db first last : Decision (name_taken db first last).
Proof.
  refine (cast_if (decide (map_Exists
    (λ _ r, first_name r = first ∧ last_name r = last) (users db))));
    abstract (unfold name_taken, map_Exists in *; naive_solver).
Defined.

(** Some book has the title. *)
Definition title_taken (db : DB) (t : string) : Prop :=
  ∃ i r, books db !! i = Some r ∧ title r = t.

Global Instance title_taken_dec db t : Decision (title_taken db t).
Proof.
  refine (cast_if (decide (map_Exists (λ _ r, title r = t) (books db))));
    abstract (unfold title_taken, map_Exists in *; naive_solver).
Defined.

(** ** Store states

    A store state is a store in which the following hold. Two of them are
    kept by the service: it never writes a null borrow date
    ([borrow_dates_set]), and [BorrowBook] looks for a row of the pair before
    it inserts one ([one_active]). The others are what the tables of
    database/database.go and the store's sequences and clock enforce. Every
    store the service can bring about is a store state
    ([reachable_store_inv]). *)

(** Every borrow id was handed out by the sequence. *)
Definition ids_from_sequence (db : DB) : Prop :=
  ∀ i r, book_borrows db !! i = Some r → i ≤ book_borrows_id_seq db.

(** [title VARCHAR(255)]. *)
Definition titles_fit (db : DB) : Prop :=
  ∀ i r, books db !! i = Some r → (String.length (title r) ≤ 255)%nat.

(** [CHECK (quantity >= 0)]. *)
Definition quantity_nonneg (db : DB) : Prop :=
  ∀ i r, books db !! i = Some r → 0 ≤ quantity r.

(** [quantity INT]. *)
Definition quantity_int4 (db : DB) : Prop :=
  ∀ i r, books db !! i = Some r → quantity r ≤ INT_MAX.

(** [user_id ... REFERENCES users(id)], [book_id ... REFERENCES books(id)]. *)
Definition references (db : DB) : Prop :=
  ∀ i r, book_borrows db !! i = Some r →
    is_Some (users db !! user_id r) ∧ is_Some (books db !! book_id r).

(** Every date in the table was read from the clock before now. *)
Definition dates_in_past (db : DB) : Prop :=
  ∀ i r t, book_borrows db !! i = Some r →
    borrow_date r = Some t ∨ return_date r = Some t → t < clock db.

(** Every borrow row has its borrow date, from the column's default. *)
Definition borrow_dates_set (db : DB) : Prop :=
  ∀ i r, book_borrows db !! i = Some r → borrow_date r ≠ None.

Record store_inv (db : DB) : Prop := {
  inv_ids : ids_from_sequence db;
  inv_titles : titles_fit db;
  inv_nonneg : quantity_nonneg db;
  inv_int4 : quantity_int4 db;
  inv_references : references db;
  inv_unique : unique_borrow (book_borrows db);
  inv_borrow_dates : borrow_dates_set db;
  inv_dates : dates_in_past db;
  inv_one_active : one_active db
}.

(** The date, if there is one, is before the reading [c] of the clock. *)
Definition before (c : time) (o : option time) : Prop :=
  match o with Some t => t < c | None => True end.

Global Instance before_dec c o : Decision (before c o).
Proof. destruct o; simpl; apply _. Defined.

(** The store invariant can be computed on a given store. *)
Global Instance store_inv_dec db : Decision (store_inv db).
Proof.
  refine (cast_if (decide (
    map_Forall (λ i _, i ≤ book_borrows_id_seq db) (book_borrows db) ∧
    map_Forall (λ _ r, (String.length (title r) ≤ 255)%nat) (books db) ∧
    map_Forall (λ _ r, 0 ≤ quantity r) (books db) ∧
    map_Forall (λ _ r, quantity r ≤ INT_MAX) (books db) ∧
    map_Forall (λ _ r, is_Some (users db !! user_id r) ∧
                       is_Some (books db !! book_id r)) (book_borrows db) ∧
    unique_borrow (book_borrows db) ∧
    map_Forall (λ _ r, borrow_date r ≠ None) (book_borrows db) ∧
    map_Forall (λ _ r, before (clock db) (borrow_date r) ∧
                       before (clock db) (return_date r)) (book_borrows db) ∧
    map_Forall (λ i r1,
      map_Forall (λ j r2,
        user_id r1 = user_id r2 → book_id r1 = book_id r2 →
        return_date r1 = None → return_date r2 = None → i = j)
        (book_borrows db)) (book_borrows db)))).
  - abstract (
      destruct a as (Hids & Ht & Hn & Hi & Hr & Hu & Hb & Hd & Ho);
      split; try done;
      [ intros i r t Hl [Hdate|Hdate]; destruct (Hd i r Hl) as [Hb1 Hb2];
        [rewrite Hdate in Hb1|rewrite Hdate in Hb2]; done
      | intros i j r1 r2 Hl1 Hl2; by apply (Ho i r1 Hl1 j r2 Hl2) ]).
  - abstract (
      intros Hinv; apply n; destruct Hinv as [Hids Ht Hn Hi Hr Hu Hb Hd Ho];
      split_and!; try done;
      [ intros k r Hl; split;
        [ destruct (borrow_date r) as [t|] eqn:Hdate; [|done];
          by apply (Hd k r t Hl); left
        | destruct (return_date r) as [t|] eqn:Hdate; [|done];
          by apply (Hd k r t Hl); right ]
      | intros k1 r1 Hl1 k2 r2 Hl2; by apply (Ho k1 k2 r1 r2) ]).
Defined.

(** A method keeps a predicate on the store, whatever it returns. *)
Definition preserves {A : Type} (P : DB → Prop) (m : Stmt A) : Prop :=
  ∀ db, P db → P (m db).2.

(** ** The writes of the two workflows *)

(** The two writes of [BorrowBook], once its three checks have passed. *)
Definition BorrowBook_writes (bookId userId : Z) : Stmt unit :=
  let funcName := bookService +:+ "BorrowBook" in
  do INSERT_INTO_book_borrows bookId userId ?? Wrap funcName;
  do UPDATE_books_SET_quantity_minus_1 bookId ?? Wrap funcName;
  ret ().

(** The two writes of [ReturnBook], once its check has passed. *)
Definition ReturnBook_writes (bookId userId : Z) : Stmt unit :=
  let funcName := bookService +:+ "ReturnBook" in
  do UPDATE_book_borrows_SET_return_date bookId userId ?? Wrap funcName;
  do UPDATE_books_SET_quantity_plus_1 bookId ?? Wrap funcName;
  ret ().

(** ** Calls and what they return *)

(** The error a method returned, if it returned one. *)
Definition returned {A : Type} (r : (error + A) * DB) : option error :=
  match r.1 with inl err => Some err | inr _ => None end.

(** The error of a call; [after] is its store. *)
Definition outcome (c : call) (db : DB) : option error :=
  match c with
  | CallCreateUser newUser => returned (CreateUser newUser db)
  | CallGetUser userId => returned (GetUser userId db)
  | CallGetAllUsers => returned (GetAllUsers db)
  | CallUpdateUser updateUser userId => returned (UpdateUser updateUser userId db)
  | CallDeleteUser userId => returned (DeleteUser userId db)
  | CallUserExist userId => returned (UserExist userId db)
  | CallCreateBook newBook => returned (CreateBook newBook db)
  | CallGetBook bookId => returned (GetBook bookId db)
  | CallGetAllBooks => returned (GetAllBooks db)
  | CallUpdateBook bookId updatedBook => returned (UpdateBook bookId updatedBook db)
  | CallDeleteBook bookId => returned (DeleteBook bookId db)
  | CallGetAvailableBooks => returned (GetAvailableBooks db)
  | CallAllBorrowedBooks => returned (AllBorrowedBooks db)
  | CallBorrowBook bookId userId => returned (BorrowBook bookId userId db)
  | CallReturnBook bookId userId => returned (ReturnBook bookId userId db)
  end.

(** The [funcName] of the method of a call. *)
Definition funcName (c : call) : string :=
  match c with
  | CallCreateUser _ => userService +:+ "CreateUser,"
  | CallGetUser _ => userService +:+ "GetUser,"
  | CallGetAllUsers => userService +:+ "GetAllUsers,"
  | CallUpdateUser _ _ => userService +:+ "UpdateUser,"
  | CallDeleteUser _ => userService +:+ "DeleteUser,"
  | CallUserExist _ => userService +:+ "userExist,"
  | CallCreateBook _ => bookService +:+ "CreateBook"
  | CallGetBook _ => bookService +:+ "GetBook"
  | CallGetAllBooks => bookService +:+ "GetAllBooks"
  | CallUpdateBook _ _ => bookService +:+ "UpdateBook"
  | CallDeleteBook _ => bookService +:+ "DeleteBook"
  | CallGetAvailableBooks => bookBorrowService +:+ "GetAvailableBooks"
  | CallAllBorrowedBooks => bookBorrowService +:+ "AllBorrowedBooks"
  | CallBorrowBook _ _ => bookService +:+ "BorrowBook"
  | CallReturnBook _ _ => bookService +:+ "ReturnBook"
  end.

(** The calls whose strings the columns hold as they are: names of at most
    100 characters, titles of at most 255. *)
Definition fits (c : call) : Prop :=
  match c with
  | CallCreateUser u | CallUpdateUser u _ =>
      (String.length (user.FirstName u) ≤ 100)%nat ∧
      (String.length (user.LastName u) ≤ 100)%nat
  | CallCreateBook b | CallUpdateBook _ b =>
      (String.length (book.Title b) ≤ 255)%nat
  | _ => True
  end.

Global Instance fits_dec c : Decision (fits c).
Proof. destruct c; simpl; apply _. Defined.

(** Calls one after the other, the first of the list first. *)
Definition run (cs : list call) (db : DB) : DB :=
  foldl (λ db c, after c db) db cs.

(** The three tables of two stores are the same; sequences and the clock
    may differ. *)
Definition same_rows (db db' : DB) : Prop :=
  users db' = users db ∧ books db' = books db ∧
  book_borrows db' = book_borrows db.

(** The call is a return of a book whose quantity is the largest [INT]. *)
Definition return_at_max (c : call) (db : DB) : Prop :=
  match c with
  | CallReturnBook bookId _ => quantity <$> books db !! bookId = Some INT_MAX
  | _ => False
  end.

Global Instance return_at_max_dec c db : Decision (return_at_max c db).
Proof. destruct c; simpl; apply _. Defined.

(** ** Lists *)

(** The rows of a table that satisfy a condition, each read by [g]: what a
    list method returns when every row it scans can be read. *)
Definition selected {R A : Type} (g : Z → R → A) (table : gmap Z R)
    (WHERE : Z → R → bool) : list A :=
  (λ kr, g kr.1 kr.2) <$>
    filter (λ kr, WHERE kr.1 kr.2 = true) (map_to_list table).

(** ** Keys *)

(** Every key of the three tables was handed out by the table's sequence,
    which started at 1. *)
Definition keys_in_sequence (db : DB) : Prop :=
  map_Forall (λ i _, 1 ≤ i ≤ users_id_seq db) (users db) ∧
  map_Forall (λ i _, 1 ≤ i ≤ books_id_seq db) (books db) ∧
  map_Forall (λ i _, 1 ≤ i ≤ book_borrows_id_seq db) (book_borrows db) ∧
  0 ≤ users_id_seq db ∧ 0 ≤ books_id_seq db ∧ 0 ≤ book_borrows_id_seq db.

Global Instance keys_in_sequence_dec db : Decision (keys_in_sequence db).
Proof. unfold keys_in_sequence. apply _. Defined.

(** [first_name VARCHAR(100)], [last_name VARCHAR(100)]. *)
Definition names_fit (db : DB) : Prop :=
  map_Forall (λ _ r, (String.length (first_name r) ≤ 100)%nat ∧
                     (String.length (last_name r) ≤ 100)%nat) (users db).

Global Instance names_fit_dec db : Decision (names_fit db).
Proof. unfold names_fit. apply _. Defined.

(** No two users have the same first and last name. *)
Definition names_unique (db : DB) : Prop :=
  map_Forall (λ i r1,
    map_Forall (λ j r2,
      first_name r1 = first_name r2 → last_name r1 = last_name r2 → i = j)
      (users db)) (users db).

Global Instance names_unique_dec db : Decision (names_unique db).
Proof. unfold names_unique. apply _. Defined.

(** No two books have the same title. *)
Definition titles_unique (db : DB) : Prop :=
  map_Forall (λ i r1,
    map_Forall (λ j r2, title r1 = title r2 → i = j) (books db)) (books db).

Global Instance titles_unique_dec db : Decision (titles_unique db).
Proof. unfold titles_unique. apply _. Defined.

(** ** The borrow table as a history *)

(** The borrow row [r] with id [i] is still in the table, with its user,
    book and borrow date, and unchanged if it had a return date. *)
Definition kept (i : Z) (r : book_borrows_row) (db : DB) : Prop :=
  ∃ r', book_borrows db !! i = Some r' ∧
    user_id r' = user_id r ∧ book_id r' = book_id r ∧
    borrow_date r' = borrow_date r ∧
    (is_Some (return_date r) → r' = r).

(** Every borrow row that has both dates was returned after it was
    borrowed. *)
Definition returned_later (db : DB) : Prop :=
  map_Forall (λ _ r, ∀ b t, borrow_date r = Some b → return_date r = Some t →
                            b < t) (book_borrows db).

(** ** Copies *)

(** The borrow row is of the book and has no return date. *)
Definition out (bookId : Z) (kr : Z * book_borrows_row) : Prop :=
  book_id kr.2 = bookId ∧ return_date kr.2 = None.

Global Instance out_dec bookId kr : Decision (out bookId kr).
Proof. unfold out. apply _. Defined.

(** The number of copies of a book that are lent out. *)
Definition lent (db : DB) (bookId : Z) : Z :=
  Z.of_nat (size (filter (out bookId) (book_borrows db))).

(** The copies of a book the library has: those in stock and those lent
    out. *)
Definition copies (db : DB) (bookId : Z) : option Z :=
  (λ r, quantity r + lent db bookId) <$> books db !! bookId.

(** Every book has a copy in stock. *)
Definition in_stock (db : DB) : Prop :=
  map_Forall (λ _ b, 0 < quantity b) (books db).

Global Instance in_stock_dec db : Decision (in_stock db).
Proof. unfold in_stock. apply _. Defined.

(** ** Example stores *)

(** A small library: one user, one book with five copies. *)
Definition tine : user.User :=
  {| user.ID := 0; user.FirstName := "Tine"; user.LastName := "Kokalj" |}.

Definition fellowship : book.Book :=
  {| book.ID := 0; book.Title := "Fellowship of the Ring"; book.Quantity := 5 |}.

Definition library : DB :=
  after (CallCreateBook fellowship)
    (after (CallCreateUser tine) CreateTablesIfNotExist).

(** The same library after user 1 borrowed book 1. *)
Definition library_borrowed : DB := after (CallBorrowBook 1 1) library.

(** A user, and a book without copies. *)
Definition two_towers : book.Book :=
  {| book.ID := 0; book.Title := "Two Towers"; book.Quantity := 0 |}.

Definition sold_out : DB :=
  after (CallCreateBook two_towers)
    (after (CallCreateUser tine) CreateTablesIfNotExist).

(** The library after the quantity of the borrowed book was set to the
    largest [INT]. *)
Definition library_full : DB :=
  after (CallUpdateBook 1
           {| book.ID := 1; book.Title := "Fellowship of the Ring";
              book.Quantity := 2147483647 |})
    library_borrowed.

(** Two borrow rows of one pair without a return date. The service does not
    bring this store about; an insert past it does. *)
Definition borrowed_twice : DB :=
  set_book_borrows
    <[2 := {| user_id := 1; book_id := 1; borrow_date := Some 0;
              return_date := None |}]>
    library_borrowed.

(** A name of 101 characters. *)
Definition long_name : string :=
  String.string_of_list_ascii (replicate 101 "a"%char).

(** A first name of exactly 100 characters, and a library with a user of
    that name. *)
Definition name_100 : string :=
  String.string_of_list_ascii (replicate 100 "a"%char).

Definition full_name : user.User :=
  {| user.ID := 0; user.FirstName := name_100; user.LastName := "Kokalj" |}.

Definition full_name_library : DB :=
  after (CallCreateUser full_name) CreateTablesIfNotExist.

(** * Properties *)

(** ** Queries *)

Section queries.
Context {R : Type}.
Implicit Types (cols : Z → R → list value) (table : gmap Z R) (WHERE : Z → R → bool).

Lemma elem_of_SELECT cols table WHERE row :
  row ∈ SELECT cols table WHERE ↔
  ∃ i r, table !! i = Some r ∧ WHERE i r = true ∧ row = cols i r.
Proof.
  unfold SELECT. rewrite list_elem_of_fmap. split.
  - intros [[i r] [-> [Hw Hin]%list_elem_of_filter]].
    apply elem_of_map_to_list in Hin. eauto.
  - intros (i & r & Hl & Hw & ->). exists (i, r). split; [done|].
    apply list_elem_of_filter. split; [done|]. by apply elem_of_map_to_list.
Qed.

Lemma SELECT_nil cols table WHERE :
  SELECT cols table WHERE = [] ↔
  ∀ i r, table !! i = Some r → WHERE i r = false.
Proof.
  split.
  - intros Hnil i r Hl. destruct (WHERE i r) eqn:Hw; [|done].
    assert (cols i r ∈ SELECT cols table WHERE) as Hin
      by (apply elem_of_SELECT; eauto).
    rewrite Hnil in Hin. by apply not_elem_of_nil in Hin.
  - intros Hall. destruct (SELECT cols table WHERE) as [|row rows] eqn:Hs; [done|].
    assert (row ∈ SELECT cols table WHERE) as Hin by (rewrite Hs; left).
    apply elem_of_SELECT in Hin as (i & r & Hl & Hw & _).
    rewrite (Hall i r Hl) in Hw. done.
Qed.

Lemma QueryRow_SELECT cols table WHERE row :
  QueryRow (SELECT cols table WHERE) = Some row →
  ∃ i r, table !! i = Some r ∧ WHERE i r = true ∧ row = cols i r.
Proof.
  unfold QueryRow. intros Hhd. apply elem_of_SELECT.
  destruct (SELECT cols table WHERE); simplify_eq/=. left.
Qed.

Lemma QueryRow_SELECT_None cols table WHERE :
  QueryRow (SELECT cols table WHERE) = None ↔
  ∀ i r, table !! i = Some r → WHERE i r = false.
Proof.
  rewrite <- (SELECT_nil cols table WHERE). unfold QueryRow.
  destruct (SELECT cols table WHERE); simpl; split; congruence.
Qed.

(** A query by primary key gives the row of that key, or none. *)
Lemma QueryRow_SELECT_id cols table (k : Z) :
  QueryRow (SELECT cols table (λ id _, bool_decide (id = k))) =
  cols k <$> table !! k.
Proof.
  destruct (QueryRow _) as [row|] eqn:Hq.
  - apply QueryRow_SELECT in Hq as (i & r & Hl & Hw & ->).
    apply bool_decide_eq_true in Hw as ->. by rewrite Hl.
  - destruct (table !! k) as [r|] eqn:Hl; [|done].
    rewrite QueryRow_SELECT_None in Hq. specialize (Hq k r Hl).
    by rewrite bool_decide_eq_false in Hq.
Qed.

Lemma EXISTS_SELECT cols table WHERE :
  QueryRow (EXISTS (SELECT cols table WHERE)) =
  Some [Bool (bool_decide (∃ i r, table !! i = Some r ∧ WHERE i r = true))].
Proof.
  unfold EXISTS, QueryRow. simpl. do 3 f_equal. apply bool_decide_ext.
  rewrite SELECT_nil. split.
  - intros Hne. apply dec_stable. intros Hno. apply Hne. intros i r Hl.
    destruct (WHERE i r) eqn:Hw; [|done]. destruct Hno; eauto.
  - intros (i & r & Hl & Hw) Hall. rewrite (Hall i r Hl) in Hw. done.
Qed.

End queries.

(** ** What the checks and the queries of the services return *)

Lemma SELECT_quantity_Scan bookId db :
  QueryRow_Scan (SELECT_quantity_FROM_books bookId) (Scan1 to_int) db =
  (match books db !! bookId with
   | Some r => inr (quantity r)
   | None => inl ErrNoRows
   end, db).
Proof.
  unfold QueryRow_Scan, SELECT_quantity_FROM_books.
  rewrite QueryRow_SELECT_id. by destruct (books db !! bookId).
Qed.

Lemma exists_by_id {R : Type} (table : gmap Z R) (k : Z) :
  (∃ i r, table !! i = Some r ∧ bool_decide (i = k) = true) ↔
  is_Some (table !! k).
Proof.
  split.
  - intros (i & r & Hl & ->%bool_decide_eq_true). eauto.
  - intros [r Hl]. exists k, r. by rewrite bool_decide_eq_true.
Qed.

Lemma UserExist_eq userId db :
  UserExist userId db =
  (if bool_decide (is_Some (users db !! userId)) then inr ()
   else inl (New "userService - userExist,"
               ("User with id " +:+ pretty userId +:+ " does not exist") None),
   db).
Proof.
  unfold UserExist, bind, or_return, QueryRow_Scan, SELECT_EXISTS_users_id.
  rewrite EXISTS_SELECT. simpl.
  rewrite (bool_decide_ext _ _ (exists_by_id (users db) userId)).
  by destruct (bool_decide (is_Some (users db !! userId))).
Qed.

Lemma bookExists_eq bookId db :
  bookExists bookId db =
  (if bool_decide (is_Some (books db !! bookId)) then inr ()
   else inl (New "bookService - bookExists"
               ("Book with id " +:+ pretty bookId +:+ " does not exist") None),
   db).
Proof.
  unfold bookExists, bind, or_return, QueryRow_Scan, SELECT_EXISTS_books_id.
  rewrite EXISTS_SELECT. simpl.
  rewrite (bool_decide_ext _ _ (exists_by_id (books db) bookId)).
  by destruct (bool_decide (is_Some (books db !! bookId))).
Qed.

Lemma nameAndLastNameExist_eq u db :
  nameAndLastNameExist u db =
  (if bool_decide (name_taken db (user.FirstName u) (user.LastName u))
   then inl (New "userService - NameAndLastNameExist,"
               ("User with this name: " +:+ user.FirstName u +:+
                ", and last name: " +:+ user.LastName u +:+ ", already exists")
               None)
   else inr (), db).
Proof.
  unfold nameAndLastNameExist, bind, or_return, QueryRow_Scan,
    SELECT_EXISTS_users_name.
  rewrite EXISTS_SELECT. simpl.
  rewrite (bool_decide_ext _ (name_taken db (user.FirstName u) (user.LastName u))).
  - by destruct (bool_decide _).
  - unfold name_taken. do 2 (apply exist_proper; intros ?).
    rewrite andb_true_iff, !bool_decide_eq_true. tauto.
Qed.

Lemma titleExists_eq b db :
  titleExists b db =
  (if bool_decide (title_taken db (book.Title b))
   then inl (New "bookService - titleExists"
               ("Book with title " +:+ book.Title b +:+ ", already exists") None)
   else inr (), db).
Proof.
  unfold titleExists, bind, or_return, QueryRow_Scan, SELECT_EXISTS_books_title.
  rewrite EXISTS_SELECT. simpl.
  rewrite (bool_decide_ext _ (title_taken db (book.Title b))).
  - by destruct (bool_decide _).
  - unfold title_taken. do 2 (apply exist_proper; intros ?).
    by rewrite bool_decide_eq_true.
Qed.

Lemma bookAndTitleMatch_eq bookId b db :
  bookAndTitleMatch bookId b db =
  (inr (bool_decide (title <$> books db !! bookId = Some (book.Title b))), db).
Proof.
  unfold bookAndTitleMatch, bind, or_return, QueryRow_Scan,
    SELECT_EXISTS_books_id_title.
  rewrite EXISTS_SELECT. simpl.
  rewrite (bool_decide_ext _ (title <$> books db !! bookId = Some (book.Title b))).
  - by destruct (bool_decide _).
  - split.
    + intros (i & r & Hl & [->%bool_decide_eq_true <-%bool_decide_eq_true]%andb_true_iff).
      by rewrite Hl.
    + intros Hl. destruct (books db !! bookId) as [r|] eqn:Hr; simplify_eq/=.
      exists bookId, r. by rewrite !bool_decide_eq_true_2.
Qed.

Lemma borrowed_by_active bookId userId r :
  borrowed_by bookId userId r = true ↔
  active bookId userId r ∧ borrow_date r ≠ None.
Proof.
  unfold borrowed_by, active.
  rewrite !andb_true_iff, !bool_decide_eq_true. tauto.
Qed.

Lemma not_returned_by_active bookId userId r :
  not_returned_by bookId userId r = true ↔ active bookId userId r.
Proof.
  unfold not_returned_by, active.
  rewrite !andb_true_iff, !bool_decide_eq_true. tauto.
Qed.

(** The third query of [BorrowBook]: no row, or a row that cannot be read
    into the one destination. *)
Lemma SELECT_star_Scan bookId userId db :
  QueryRow_Scan (SELECT_star_FROM_book_borrows bookId userId) (Scan1 to_bool) db =
  (if bool_decide (∃ i r, book_borrows db !! i = Some r ∧
                          borrowed_by bookId userId r = true)
   then inl (ScanArity 5 1) else inl ErrNoRows, db).
Proof.
  unfold QueryRow_Scan, SELECT_star_FROM_book_borrows. f_equal.
  destruct (QueryRow _) as [row|] eqn:Hq.
  - apply QueryRow_SELECT in Hq as (i & r & Hl & Hw & ->).
    rewrite bool_decide_eq_true_2 by eauto. done.
  - rewrite bool_decide_eq_false_2; [done|].
    intros (i & r & Hl & Hw). rewrite QueryRow_SELECT_None in Hq.
    rewrite (Hq i r Hl) in Hw. done.
Qed.

(** The first query of [ReturnBook]. *)
Lemma SELECT_1_Scan bookId userId db :
  QueryRow_Scan (SELECT_1_FROM_book_borrows bookId userId) (Scan1 to_int) db =
  (if bool_decide (∃ i r, book_borrows db !! i = Some r ∧
                          borrowed_by bookId userId r = true)
   then inr 1 else inl ErrNoRows, db).
Proof.
  unfold QueryRow_Scan, SELECT_1_FROM_book_borrows. f_equal.
  destruct (QueryRow _) as [row|] eqn:Hq.
  - apply QueryRow_SELECT in Hq as (i & r & Hl & Hw & ->).
    rewrite bool_decide_eq_true_2 by eauto. done.
  - rewrite bool_decide_eq_false_2; [done|].
    intros (i & r & Hl & Hw). rewrite QueryRow_SELECT_None in Hq.
    rewrite (Hq i r Hl) in Hw. done.
Qed.

(** ** The methods, check by check *)

Lemma BorrowBook_eq bookId userId db :
  BorrowBook bookId userId db =
  let funcName := "bookService - BorrowBook" in
  match books db !! bookId with
  | None => (inl (Wrap funcName ErrNoRows), db)
  | Some r =>
      if bool_decide (quantity r ≤ 0)
      then (inl (New funcName "Book is not available" None), db)
      else if bool_decide (is_Some (users db !! userId))
      then
        if bool_decide (∃ i r, book_borrows db !! i = Some r ∧
                               borrowed_by bookId userId r = true)
        then (inl (Wrap funcName (ScanArity 5 1)), db)
        else BorrowBook_writes bookId userId db
      else (inl (Wrap funcName
                   (New "userService - userExist,"
                      ("User with id " +:+ pretty userId +:+ " does not exist")
                      None)), db)
  end.
Proof.
  unfold BorrowBook, bind at 1, or_return at 1. rewrite SELECT_quantity_Scan.
  destruct (books db !! bookId) as [r|]; [|done].
  cbv zeta. destruct (bool_decide (quantity r ≤ 0)); [done|].
  unfold bind at 1, or_return at 1. rewrite UserExist_eq.
  destruct (bool_decide (is_Some (users db !! userId))); [|done].
  unfold bind at 1, try at 1. rewrite SELECT_star_Scan.
  destruct (bool_decide (∃ i r0, _)); [done|].
  unfold bind at 1. simpl. unfold BorrowBook_writes, bind, or_return.
  destruct (INSERT_INTO_book_borrows bookId userId db) as [[err|[]] db1];
    [by destruct err|].
  destruct (UPDATE_books_SET_quantity_minus_1 bookId db1) as [[err|[]] db2];
    [by destruct err|done].
Qed.

Lemma ReturnBook_eq bookId userId db :
  ReturnBook bookId userId db =
  if bool_decide (∃ i r, book_borrows db !! i = Some r ∧
                         borrowed_by bookId userId r = true)
  then ReturnBook_writes bookId userId db
  else (inl (New "bookService - ReturnBook" "Book is not borrowed" None), db).
Proof.
  unfold ReturnBook, bind at 1, try at 1. rewrite SELECT_1_Scan.
  destruct (bool_decide (∃ i r0, _)); [|done].
  unfold bind at 1. simpl. unfold ReturnBook_writes, bind, or_return.
  destruct (UPDATE_book_borrows_SET_return_date bookId userId db)
    as [[err|[]] db1]; [by destruct err|].
  destruct (UPDATE_books_SET_quantity_plus_1 bookId db1) as [[err|[]] db2];
    [by destruct err|done].
Qed.

Lemma alter_const {R : Type} (table : gmap Z R) (k : Z) (new old : R) :
  table !! k = Some old → alter (λ _, new) k table = <[k := new]> table.
Proof.
  intros Hl. apply map_eq. intros j. destruct (decide (k = j)) as [<-|Hne].
  - by rewrite lookup_alter_eq, lookup_insert_eq, Hl.
  - by rewrite lookup_alter_ne, lookup_insert_ne.
Qed.

Lemma UpdateUser_eq updateUser userId db :
  UpdateUser updateUser userId db =
  let funcName := "userService - UpdateUser," in
  let first := user.FirstName updateUser in
  let last := user.LastName updateUser in
  if bool_decide (is_Some (users db !! userId))
  then
    if bool_decide (name_taken db first last)
    then (inl (AppError ["userService - NameAndLastNameExist,"; funcName]
                 ("User with this name: " +:+ first +:+ ", and last name: " +:+
                  last +:+ ", already exists") None), db)
    else match varchar 100 first, varchar 100 last with
         | Some first', Some last' =>
             (inr (), set_users
                        (alter (λ _, {| first_name := first';
                                        last_name := last' |}) userId) db)
         | _, _ =>
             (inl (New funcName "Error updating user"
                     (Some (PgError string_data_right_truncation))), db)
         end
  else (inl (AppError ["userService - userExist,"; funcName]
               ("User with id " +:+ pretty userId +:+ " does not exist") None),
        db).
Proof.
  unfold UpdateUser, bind at 1, or_return at 1. rewrite UserExist_eq.
  destruct (bool_decide (is_Some (users db !! userId))); [|done].
  unfold bind at 1, or_return at 1. rewrite nameAndLastNameExist_eq.
  cbv zeta. destruct (bool_decide (name_taken db _ _)); [done|].
  unfold bind, or_return, UPDATE_users.
  by destruct (varchar 100 (user.FirstName updateUser)),
    (varchar 100 (user.LastName updateUser)).
Qed.

Lemma UpdateBook_eq bookId updatedBook db :
  UpdateBook bookId updatedBook db =
  let funcName := "bookService - UpdateBook" in
  if bool_decide (is_Some (books db !! bookId))
  then
    if negb (bool_decide (title <$> books db !! bookId =
                          Some (book.Title updatedBook))) &&
       bool_decide (title_taken db (book.Title updatedBook))
    then (inl (AppError ["bookService - titleExists"; funcName]
                 ("Book with title " +:+ book.Title updatedBook +:+
                  ", already exists") None), db)
    else (UPDATE_books (book.Title updatedBook) (book.Quantity updatedBook)
            bookId ?? Wrap funcName) db
  else (inl (AppError ["bookService - bookExists"; funcName]
               ("Book with id " +:+ pretty bookId +:+ " does not exist") None),
        db).
Proof.
  unfold UpdateBook, bind at 1, or_return at 1. rewrite bookExists_eq.
  destruct (bool_decide (is_Some (books db !! bookId))); [|done].
  unfold bind at 1, or_return at 1. rewrite bookAndTitleMatch_eq.
  cbv zeta. destruct (bool_decide (_ <$> _ = _)); simpl.
  - unfold bind, or_return, ret.
    by destruct (UPDATE_books _ _ _ db) as [[err|[]] db1]; [destruct err|].
  - unfold bind at 1, or_return at 1. rewrite titleExists_eq.
    destruct (bool_decide (title_taken db _)); [done|].
    unfold bind, or_return, ret.
    by destruct (UPDATE_books _ _ _ db) as [[err|[]] db1]; [destruct err|].
Qed.

(** ** Predicates that a method keeps *)

Section preserves.
Context (P : DB → Prop).

Lemma preserves_ret {A} (a : A) : preserves P (ret a).
Proof. by intros db. Qed.

Lemma preserves_throw {A} err : preserves P (@throw A err).
Proof. by intros db. Qed.

Lemma preserves_lift {A} (r : error + A) : preserves P (lift r).
Proof. by intros db. Qed.

Lemma preserves_QueryRow_Scan {A} query (scan : list value → error + A) :
  preserves P (QueryRow_Scan query scan).
Proof. by intros db. Qed.

Lemma preserves_Query query : preserves P (Query query).
Proof. by intros db. Qed.

Lemma preserves_bind {A B} (m : Stmt A) (k : A → Stmt B) :
  preserves P m → (∀ a, preserves P (k a)) → preserves P (bind m k).
Proof.
  intros Hm Hk db HP. unfold bind. specialize (Hm db HP).
  destruct (m db) as [[err|a] db']; [done|]. by apply Hk.
Qed.

Lemma preserves_or_return {A} (m : Stmt A) handler :
  preserves P m → preserves P (m ?? handler).
Proof.
  intros Hm db HP. unfold or_return. specialize (Hm db HP).
  by destruct (m db) as [[err|a] db'].
Qed.

Lemma preserves_try {A} (m : Stmt A) : preserves P m → preserves P (try m).
Proof.
  intros Hm db HP. unfold try. specialize (Hm db HP).
  by destruct (m db) as [r db'].
Qed.

End preserves.

(** The checks of the services only read. *)
Lemma preserves_UserExist P userId : preserves P (UserExist userId).
Proof. intros db HP. by rewrite UserExist_eq. Qed.

Lemma preserves_nameAndLastNameExist P u : preserves P (nameAndLastNameExist u).
Proof. intros db HP. by rewrite nameAndLastNameExist_eq. Qed.

Lemma preserves_bookExists P bookId : preserves P (bookExists bookId).
Proof. intros db HP. by rewrite bookExists_eq. Qed.

Lemma preserves_titleExists P b : preserves P (titleExists b).
Proof. intros db HP. by rewrite titleExists_eq. Qed.

Lemma preserves_bookAndTitleMatch P bookId b :
  preserves P (bookAndTitleMatch bookId b).
Proof. intros db HP. by rewrite bookAndTitleMatch_eq. Qed.

(** Splits a method into its statements. *)
Ltac preserves_step :=
  lazymatch goal with
  | |- preserves _ (ret _) => apply preserves_ret
  | |- preserves _ (throw _) => apply preserves_throw
  | |- preserves _ (lift _) => apply preserves_lift
  | |- preserves _ (QueryRow_Scan _ _) => apply preserves_QueryRow_Scan
  | |- preserves _ (Query _) => apply preserves_Query
  | |- preserves _ (UserExist _) => apply preserves_UserExist
  | |- preserves _ (nameAndLastNameExist _) =>
      apply preserves_nameAndLastNameExist
  | |- preserves _ (bookExists _) => apply preserves_bookExists
  | |- preserves _ (titleExists _) => apply preserves_titleExists
  | |- preserves _ (bookAndTitleMatch _ _) => apply preserves_bookAndTitleMatch
  | |- preserves _ (bind _ _) => apply preserves_bind; [|intros ?]
  | |- preserves _ (_ ?? _) => apply preserves_or_return
  | |- preserves _ (try _) => apply preserves_try
  | |- preserves _ (if ?b then _ else _) => destruct b
  | |- preserves _ (match ?x with _ => _ end) => destruct x
  end.

(** ** The statements keep the store invariant *)

(** Opens the predicates of the store invariant. *)
Ltac unfold_inv :=
  unfold ids_from_sequence, titles_fit, quantity_nonneg, quantity_int4,
    references, borrow_dates_set, dates_in_past, one_active, unique_borrow,
    map_Forall in *;
  simpl in *.

Lemma varchar_length n s s' :
  varchar n s = Some s' → (String.length s' ≤ n)%nat.
Proof.
  unfold varchar. destruct (String.length s <=? n)%nat eqn:Hlen.
  - intros [= <-]. by apply Nat.leb_le.
  - apply Nat.leb_gt in Hlen. destruct (all_spaces _); [|done]. intros [= <-].
    clear. revert s. induction n as [|n IH]; intros [|c s]; simpl; try lia.
    + specialize (IH s). simpl in IH. lia.
Qed.

Lemma varchar_fits n s : (String.length s ≤ n)%nat → varchar n s = Some s.
Proof. intros Hlen. unfold varchar. by apply Nat.leb_le in Hlen as ->. Qed.

Lemma int4_le z : int4 z = true ↔ INT_MIN ≤ z ≤ INT_MAX.
Proof. unfold int4. rewrite andb_true_iff, !Z.leb_le. done. Qed.

Lemma store_inv_set_users db f :
  store_inv db →
  (∀ i r, book_borrows db !! i = Some r → is_Some (f (users db) !! user_id r)) →
  store_inv (set_users f db).
Proof.
  intros [] Hf. split; try done.
  intros i r Hl. split; [by eapply Hf|]. by eapply inv_references0.
Qed.

Lemma store_inv_nextval_users db : store_inv db → store_inv (nextval_users db).2.
Proof. by intros []. Qed.

Lemma store_inv_set_books db f :
  store_inv db →
  (∀ i r, f (books db) !! i = Some r →
     (String.length (title r) ≤ 255)%nat ∧ 0 ≤ quantity r ≤ INT_MAX) →
  (∀ i r, book_borrows db !! i = Some r → is_Some (f (books db) !! book_id r)) →
  store_inv (set_books f db).
Proof.
  intros [] Hrows Hf. split; try done.
  - intros i r Hl. by apply (Hrows i r).
  - intros i r Hl. by apply (Hrows i r).
  - intros i r Hl. by apply (Hrows i r).
  - intros i r Hl. split; [by eapply inv_references0|]. by eapply Hf.
Qed.

Lemma store_inv_nextval_books db : store_inv db → store_inv (nextval_books db).2.
Proof. by intros []. Qed.

Lemma INSERT_INTO_users_inv first last :
  preserves store_inv (INSERT_INTO_users first last).
Proof.
  intros db Hinv. unfold INSERT_INTO_users.
  pose proof (store_inv_nextval_users db Hinv) as Hinv'.
  destruct (nextval_users db) as [id db'] eqn:Hnext. simpl in Hinv'.
  destruct (varchar 100 first), (varchar 100 last); try done.
  destruct (users db' !! id) eqn:Hid; [done|]. simpl.
  apply store_inv_set_users; [done|]. intros i r Hl.
  destruct (decide (id = user_id r)) as [->|Hne].
  - rewrite lookup_insert_eq. eauto.
  - rewrite lookup_insert_ne by done. by eapply inv_references.
Qed.

Lemma UPDATE_users_inv first last userId :
  preserves store_inv (UPDATE_users first last userId).
Proof.
  intros db Hinv. unfold UPDATE_users.
  destruct (varchar 100 first), (varchar 100 last); try done. simpl.
  apply store_inv_set_users; [done|]. intros i r Hl.
  rewrite lookup_alter_is_Some. by eapply inv_references.
Qed.

Lemma DELETE_FROM_users_inv userId : preserves store_inv (DELETE_FROM_users userId).
Proof.
  intros db Hinv. unfold DELETE_FROM_users.
  destruct (bool_decide (is_Some _)) eqn:Hsome; simpl.
  - destruct (bool_decide (map_Exists _ _)) eqn:Hex; simpl; [done|].
    apply bool_decide_eq_false in Hex.
    apply store_inv_set_users; [done|]. intros i r Hl.
    rewrite lookup_delete_ne; [by eapply inv_references|].
    intros ->. apply Hex. by exists i, r.
  - apply bool_decide_eq_false in Hsome.
    apply store_inv_set_users; [done|]. intros i r Hl.
    rewrite lookup_delete_ne; [by eapply inv_references|].
    intros ->. apply Hsome. by eapply inv_references.
Qed.

Lemma INSERT_INTO_books_inv t q : preserves store_inv (INSERT_INTO_books t q).
Proof.
  intros db Hinv. unfold INSERT_INTO_books.
  destruct (int4 q) eqn:Hq; [|done]. cbn [negb].
  pose proof (store_inv_nextval_books db Hinv) as Hinv'.
  destruct (nextval_books db) as [id db'] eqn:Hnext. simpl in Hinv'.
  destruct (varchar 255 t) as [t'|] eqn:Ht; [|done].
  destruct (0 <=? q) eqn:H0; [|done]. simpl.
  destruct (books db' !! id) eqn:Hid; [done|]. simpl.
  apply int4_le in Hq. apply Z.leb_le in H0. apply varchar_length in Ht.
  apply store_inv_set_books; [done| |].
  - intros i r. destruct (decide (id = i)) as [->|Hne].
    + rewrite lookup_insert_eq. intros [= <-]. simpl. lia.
    + rewrite lookup_insert_ne by done. intros Hl. split.
      * by eapply inv_titles.
      * split; [by eapply inv_nonneg|by eapply inv_int4].
  - intros i r Hl. destruct (decide (id = book_id r)) as [->|Hne].
    + rewrite lookup_insert_eq. eauto.
    + rewrite lookup_insert_ne by done. by eapply inv_references.
Qed.

Lemma store_inv_insert_book db bookId t q :
  store_inv db → is_Some (books db !! bookId) →
  (String.length t ≤ 255)%nat → 0 ≤ q ≤ INT_MAX →
  store_inv (set_books <[bookId := {| title := t; quantity := q |}]> db).
Proof.
  intros Hinv Hsome Ht Hq. apply store_inv_set_books; [done| |].
  - intros i r. destruct (decide (bookId = i)) as [->|Hne].
    + rewrite lookup_insert_eq. by intros [= <-].
    + rewrite lookup_insert_ne by done. intros Hl. split.
      * by eapply inv_titles.
      * split; [by eapply inv_nonneg|by eapply inv_int4].
  - intros i r Hl. destruct (decide (bookId = book_id r)) as [->|Hne].
    + rewrite lookup_insert_eq. eauto.
    + rewrite lookup_insert_ne by done. by eapply inv_references.
Qed.

Lemma UPDATE_books_inv t q bookId : preserves store_inv (UPDATE_books t q bookId).
Proof.
  intros db Hinv. unfold UPDATE_books.
  destruct (int4 q) eqn:Hq; [|done]. simpl.
  destruct (varchar 255 t) as [t'|] eqn:Ht; [|done].
  destruct (books db !! bookId) eqn:Hid; [|done].
  destruct (0 <=? q) eqn:H0; [|done]. simpl.
  apply int4_le in Hq. apply Z.leb_le in H0. apply varchar_length in Ht.
  apply store_inv_insert_book; [done|by eauto|done|lia].
Qed.

Lemma DELETE_FROM_books_inv bookId : preserves store_inv (DELETE_FROM_books bookId).
Proof.
  intros db Hinv. unfold DELETE_FROM_books.
  assert (∀ i r, delete bookId (books db) !! i = Some r →
            (String.length (title r) ≤ 255)%nat ∧ 0 ≤ quantity r ≤ INT_MAX) as Hrows.
  { intros i r [_ Hl]%lookup_delete_Some. split.
    - by eapply inv_titles.
    - split; [by eapply inv_nonneg|by eapply inv_int4]. }
  destruct (bool_decide (is_Some _)) eqn:Hsome; simpl.
  - destruct (bool_decide (map_Exists _ _)) eqn:Hex; simpl; [done|].
    apply bool_decide_eq_false in Hex.
    apply store_inv_set_books; [done|done|]. intros i r Hl.
    rewrite lookup_delete_ne; [by eapply inv_references|].
    intros ->. apply Hex. by exists i, r.
  - apply bool_decide_eq_false in Hsome.
    apply store_inv_set_books; [done|done|]. intros i r Hl.
    rewrite lookup_delete_ne; [by eapply inv_references|].
    intros ->. apply Hsome. by eapply inv_references.
Qed.

Lemma UPDATE_books_SET_quantity_inv delta bookId :
  preserves store_inv (UPDATE_books_SET_quantity delta bookId).
Proof.
  intros db Hinv. unfold UPDATE_books_SET_quantity.
  destruct (books db !! bookId) as [r|] eqn:Hid; [|done]. simpl.
  destruct (int4 _) eqn:Hq; [|done]. simpl.
  destruct (0 <=? _) eqn:H0; [|done]. simpl.
  apply int4_le in Hq. apply Z.leb_le in H0.
  apply store_inv_insert_book; [done|by eauto| |lia].
  by eapply inv_titles.
Qed.

Lemma store_inv_NOW db : store_inv db → store_inv (NOW db).2.
Proof.
  intros []. split; try done.
  intros i r t Hl Ht. specialize (inv_dates0 i r t Hl Ht). simpl. lia.
Qed.

Lemma UPDATE_book_borrows_SET_return_date_inv bookId userId :
  preserves store_inv (UPDATE_book_borrows_SET_return_date bookId userId).
Proof.
  intros db Hinv. unfold UPDATE_book_borrows_SET_return_date.
  pose proof (store_inv_NOW db Hinv) as Hnow. simpl in *.
  destruct (bool_decide (unique_borrow _)) eqn:Huniq; [|done].
  apply bool_decide_eq_true in Huniq. destruct Hinv. simpl.
  split; try done; unfold_inv.
  - intros i r. rewrite lookup_fmap.
    destruct (book_borrows db !! i) as [r0|] eqn:Hl; [|done].
    intros _. by eapply inv_ids0.
  - intros i r. rewrite lookup_fmap.
    destruct (book_borrows db !! i) as [r0|] eqn:Hl; [|done].
    intros [= <-]. specialize (inv_references0 i r0 Hl).
    by destruct (not_returned_by _ _ _).
  - intros i r. rewrite lookup_fmap.
    destruct (book_borrows db !! i) as [r0|] eqn:Hl; [|done].
    intros [= <-]. specialize (inv_borrow_dates0 i r0 Hl).
    by destruct (not_returned_by _ _ _).
  - intros i r t. rewrite lookup_fmap.
    destruct (book_borrows db !! i) as [r0|] eqn:Hl; [|done].
    intros [= <-] Ht. pose proof (inv_dates0 i r0) as Hpast.
    destruct (not_returned_by _ _ _); simpl in Ht.
    + destruct Ht as [Ht|[= <-]]; [|lia].
      specialize (Hpast t Hl (or_introl Ht)). lia.
    + specialize (Hpast t Hl Ht). lia.
  - intros i j r1 r2. rewrite !lookup_fmap.
    destruct (book_borrows db !! i) as [r1'|] eqn:Hi; [|done].
    destruct (book_borrows db !! j) as [r2'|] eqn:Hj; [|done].
    intros [= <-] [= <-].
    destruct (not_returned_by _ _ r1'), (not_returned_by _ _ r2'); try done.
    by apply inv_one_active0.
Qed.

(** The insert of [BorrowBook] keeps the invariant when the pair has no
    borrow row without a return date. *)
Lemma INSERT_INTO_book_borrows_inv bookId userId db :
  store_inv db →
  (∀ i r, book_borrows db !! i = Some r → ¬ active bookId userId r) →
  store_inv (INSERT_INTO_book_borrows bookId userId db).2.
Proof.
  intros Hinv Hnone. unfold INSERT_INTO_book_borrows. simpl.
  assert (store_inv
    {| users := users db; books := books db; book_borrows := book_borrows db;
       users_id_seq := users_id_seq db; books_id_seq := books_id_seq db;
       book_borrows_id_seq := book_borrows_id_seq db + 1;
       clock := clock db + 1 |}) as Hinv'.
  { destruct Hinv. split; try done.
    - intros i r Hl. specialize (inv_ids0 i r Hl). simpl. lia.
    - intros i r t Hl Ht. specialize (inv_dates0 i r t Hl Ht). simpl. lia. }
  destruct (bool_decide (is_Some (users db !! userId))) eqn:Hu; [|done].
  destruct (bool_decide (is_Some (books db !! bookId))) eqn:Hb; [|done].
  simpl. apply bool_decide_eq_true in Hu, Hb.
  destruct (book_borrows db !! (book_borrows_id_seq db + 1)) eqn:Hid; [done|].
  simpl. clear Hinv'. destruct Hinv. split; try done; unfold_inv.
  - intros i r [[<- <-]|[_ Hl]]%lookup_insert_Some; [done|].
    specialize (inv_ids0 i r Hl). lia.
  - intros i r [[<- <-]|[_ Hl]]%lookup_insert_Some; [done|].
    by eapply inv_references0.
  - intros i r1 [[<- <-]|[Hi Hl1]]%lookup_insert_Some
      j r2 [[<- <-]|[Hj Hl2]]%lookup_insert_Some; simpl; try done.
    + intros _ _ [t Ht]. by rewrite Ht.
    + by apply (inv_unique0 i r1 Hl1 j r2 Hl2).
  - intros i r [[<- <-]|[_ Hl]]%lookup_insert_Some; [done|].
    by eapply inv_borrow_dates0.
  - intros i r t [[<- <-]|[_ Hl]]%lookup_insert_Some; simpl.
    + intros [[= <-]|[=]]. lia.
    + intros Ht. specialize (inv_dates0 i r t Hl Ht). lia.
  - intros i j r1 r2 [[<- <-]|[Hi Hl1]]%lookup_insert_Some
      [[<- <-]|[Hj Hl2]]%lookup_insert_Some; simpl; try done.
    + intros Hu' Hb' _ Hr. by destruct (Hnone j r2 Hl2).
    + intros Hu' Hb' Hr _. by destruct (Hnone i r1 Hl1).
    + by apply inv_one_active0.
Qed.

(** ** Every store the service brings about is a store state *)

(** With the borrow dates set, the check of the two workflows sees exactly
    the rows without a return date. *)
Lemma no_row_borrowed_by db bookId userId :
  borrow_dates_set db →
  ¬ (∃ i r, book_borrows db !! i = Some r ∧ borrowed_by bookId userId r = true) →
  not_borrowed db bookId userId.
Proof.
  intros Hset Hno i r Hl Hact. apply Hno. exists i, r. split; [done|].
  apply borrowed_by_active. split; [done|]. by eapply Hset.
Qed.

Lemma BorrowBook_inv bookId userId : preserves store_inv (BorrowBook bookId userId).
Proof.
  intros db Hinv. rewrite BorrowBook_eq. cbv zeta.
  destruct (books db !! bookId) as [r|]; [|done].
  destruct (bool_decide (quantity r ≤ 0)); [done|].
  destruct (bool_decide (is_Some _)); [|done].
  destruct (bool_decide (∃ i r0, _)) eqn:Hrow; [done|].
  apply bool_decide_eq_false in Hrow.
  apply no_row_borrowed_by in Hrow; [|by apply inv_borrow_dates].
  pose proof (INSERT_INTO_book_borrows_inv bookId userId db Hinv Hrow) as Hins.
  unfold BorrowBook_writes, bind, or_return.
  destruct (INSERT_INTO_book_borrows bookId userId db) as [[err|[]] db1];
    [done|]. simpl in Hins.
  pose proof (UPDATE_books_SET_quantity_inv (-1) bookId db1 Hins) as Hupd.
  unfold UPDATE_books_SET_quantity_minus_1.
  by destruct (UPDATE_books_SET_quantity (-1) bookId db1) as [[err|[]] db2].
Qed.

Lemma after_store_inv c db : store_inv db → store_inv (after c db).
Proof.
  revert db. change (preserves store_inv (λ db, (inr (), after c db))).
  destruct c; simpl; intros db Hinv; simpl.
  - revert db Hinv. change (preserves store_inv (CreateUser newUser)).
    unfold CreateUser. repeat preserves_step. apply INSERT_INTO_users_inv.
  - revert db Hinv. change (preserves store_inv (GetUser userId)).
    unfold GetUser. repeat preserves_step.
  - revert db Hinv. change (preserves store_inv GetAllUsers).
    unfold GetAllUsers. repeat preserves_step.
  - revert db Hinv. change (preserves store_inv (UpdateUser updateUser userId)).
    unfold UpdateUser.
    repeat preserves_step. apply UPDATE_users_inv.
  - revert db Hinv. change (preserves store_inv (DeleteUser userId)).
    unfold DeleteUser. repeat preserves_step.
    apply DELETE_FROM_users_inv.
  - revert db Hinv. change (preserves store_inv (UserExist userId)).
    repeat preserves_step.
  - revert db Hinv. change (preserves store_inv (CreateBook newBook)).
    unfold CreateBook. repeat preserves_step.
    apply INSERT_INTO_books_inv.
  - revert db Hinv. change (preserves store_inv (GetBook bookId)).
    unfold GetBook. repeat preserves_step.
  - revert db Hinv. change (preserves store_inv GetAllBooks).
    unfold GetAllBooks. repeat preserves_step.
  - revert db Hinv. change (preserves store_inv (UpdateBook bookId updatedBook)).
    unfold UpdateBook.
    repeat preserves_step. apply UPDATE_books_inv.
  - revert db Hinv. change (preserves store_inv (DeleteBook bookId)).
    unfold DeleteBook. repeat preserves_step. apply DELETE_FROM_books_inv.
  - revert db Hinv. change (preserves store_inv GetAvailableBooks).
    unfold GetAvailableBooks. repeat preserves_step.
  - revert db Hinv. change (preserves store_inv AllBorrowedBooks).
    unfold AllBorrowedBooks. repeat preserves_step.
  - by apply BorrowBook_inv.
  - revert db Hinv. change (preserves store_inv (ReturnBook bookId userId)).
    unfold ReturnBook. repeat preserves_step.
    + apply UPDATE_book_borrows_SET_return_date_inv.
    + apply UPDATE_books_SET_quantity_inv.
Qed.

Lemma new_store_inv : store_inv CreateTablesIfNotExist.
Proof. split; by unfold_inv. Qed.

Lemma reachable_store_inv db : reachable db → store_inv db.
Proof.
  induction 1 as [|c db _ IH]; [apply new_store_inv|by apply after_store_inv].
Qed.

Lemma library_reachable : reachable library.
Proof. unfold library. repeat apply reachable_after. apply reachable_new. Qed.

Lemma library_borrowed_reachable : reachable library_borrowed.
Proof. apply reachable_after, library_reachable. Qed.

(** ** The statements keep the quantities at 0 or more *)

Lemma INSERT_INTO_users_quantity first last :
  preserves quantity_nonneg (INSERT_INTO_users first last).
Proof.
  intros db Hq. unfold INSERT_INTO_users. simpl.
  destruct (varchar 100 first), (varchar 100 last); try done.
  by destruct (users db !! _).
Qed.

Lemma UPDATE_users_quantity first last userId :
  preserves quantity_nonneg (UPDATE_users first last userId).
Proof.
  intros db Hq. unfold UPDATE_users.
  by destruct (varchar 100 first), (varchar 100 last).
Qed.

Lemma DELETE_FROM_users_quantity userId :
  preserves quantity_nonneg (DELETE_FROM_users userId).
Proof. intros db Hq. unfold DELETE_FROM_users. by destruct (_ && _). Qed.

Lemma INSERT_INTO_books_quantity t q :
  preserves quantity_nonneg (INSERT_INTO_books t q).
Proof.
  intros db Hq. unfold INSERT_INTO_books.
  destruct (int4 q); [|done]. simpl. destruct (varchar 255 t); [|done].
  destruct (0 <=? q) eqn:H0; [|done]. simpl. apply Z.leb_le in H0.
  destruct (books db !! _) eqn:Hid; [done|]. unfold_inv.
  intros i r [[<- <-]|[_ Hl]]%lookup_insert_Some; [done|]. by eapply Hq.
Qed.

Lemma UPDATE_books_quantity t q bookId :
  preserves quantity_nonneg (UPDATE_books t q bookId).
Proof.
  intros db Hq. unfold UPDATE_books.
  destruct (int4 q); [|done]. simpl. destruct (varchar 255 t); [|done].
  destruct (books db !! bookId); [|done].
  destruct (0 <=? q) eqn:H0; [|done]. simpl. apply Z.leb_le in H0. unfold_inv.
  intros i r [[<- <-]|[_ Hl]]%lookup_insert_Some; [done|]. by eapply Hq.
Qed.

Lemma DELETE_FROM_books_quantity bookId :
  preserves quantity_nonneg (DELETE_FROM_books bookId).
Proof.
  intros db Hq. unfold DELETE_FROM_books.
  destruct (_ && _); [done|]. unfold_inv.
  intros i r [_ Hl]%lookup_delete_Some. by eapply Hq.
Qed.

Lemma UPDATE_books_SET_quantity_quantity delta bookId :
  preserves quantity_nonneg (UPDATE_books_SET_quantity delta bookId).
Proof.
  intros db Hq. unfold UPDATE_books_SET_quantity.
  destruct (books db !! bookId) as [r0|]; [|done]. simpl.
  destruct (int4 _); [|done]. simpl.
  destruct (0 <=? _) eqn:H0; [|done]. simpl. apply Z.leb_le in H0. unfold_inv.
  intros i r [[<- <-]|[_ Hl]]%lookup_insert_Some; [done|]. by eapply Hq.
Qed.

Lemma INSERT_INTO_book_borrows_quantity bookId userId :
  preserves quantity_nonneg (INSERT_INTO_book_borrows bookId userId).
Proof.
  intros db Hq. unfold INSERT_INTO_book_borrows. simpl.
  destruct (negb _); [done|]. by destruct (book_borrows db !! _).
Qed.

Lemma UPDATE_book_borrows_SET_return_date_quantity bookId userId :
  preserves quantity_nonneg (UPDATE_book_borrows_SET_return_date bookId userId).
Proof.
  intros db Hq. unfold UPDATE_book_borrows_SET_return_date. simpl.
  by destruct (bool_decide _).
Qed.

(** Splits a method into its statements, which keep the quantities. *)
Ltac quantity_step :=
  first
    [ preserves_step
    | apply INSERT_INTO_users_quantity | apply UPDATE_users_quantity
    | apply DELETE_FROM_users_quantity | apply INSERT_INTO_books_quantity
    | apply UPDATE_books_quantity | apply DELETE_FROM_books_quantity
    | apply UPDATE_books_SET_quantity_quantity
    | apply INSERT_INTO_book_borrows_quantity
    | apply UPDATE_book_borrows_SET_return_date_quantity ].

Lemma after_quantity_nonneg c db :
  quantity_nonneg db → quantity_nonneg (after c db).
Proof.
  revert db. destruct c; simpl; intros db Hq;
    match goal with
    | |- quantity_nonneg (?m db).2 =>
        revert db Hq; change (preserves quantity_nonneg m)
    end;
    unfold CreateUser, GetUser, GetAllUsers, UpdateUser, DeleteUser,
      CreateBook, GetBook, GetAllBooks, UpdateBook, DeleteBook,
      GetAvailableBooks, AllBorrowedBooks, BorrowBook, ReturnBook,
      UPDATE_books_SET_quantity_minus_1, UPDATE_books_SET_quantity_plus_1;
    repeat quantity_step.
Qed.

(** ** The update of a return *)

(** With one row of the pair not returned, the update of [ReturnBook] changes
    that row and no other. *)
Lemma one_active_update db bookId userId i r now :
  one_active db →
  book_borrows db !! i = Some r → active bookId userId r →
  (λ r, if not_returned_by bookId userId r then SET_return_date now r else r)
    <$> book_borrows db =
  <[i := SET_return_date now r]> (book_borrows db).
Proof.
  intros Hone Hl Hact. apply map_eq. intros j. rewrite lookup_fmap.
  destruct (decide (i = j)) as [<-|Hne].
  - rewrite lookup_insert_eq, Hl. simpl.
    by apply not_returned_by_active in Hact as ->.
  - rewrite lookup_insert_ne by done.
    destruct (book_borrows db !! j) as [r'|] eqn:Hj; [|done]. simpl.
    destruct (not_returned_by bookId userId r') eqn:Hact'; [|done].
    apply not_returned_by_active in Hact'.
    destruct Hact as (? & ? & ?), Hact' as (? & ? & ?).
    destruct Hne. apply (Hone i j r r'); congruence.
Qed.

(** The row gets a date no other row has, so [unique_borrow] still holds. *)
Lemma unique_borrow_return db i r :
  unique_borrow (book_borrows db) → dates_in_past db →
  book_borrows db !! i = Some r →
  unique_borrow (<[i := SET_return_date (clock db) r]> (book_borrows db)).
Proof.
  intros Huniq Hpast Hl.
  intros j1 r1 [[<- <-]|[Hne1 Hl1]]%lookup_insert_Some
    j2 r2 [[<- <-]|[Hne2 Hl2]]%lookup_insert_Some; simpl; try done.
  - intros _ _ _ Hdate.
    specialize (Hpast j2 r2 (clock db) Hl2 (or_intror (eq_sym Hdate))). lia.
  - intros _ _ _ Hdate.
    specialize (Hpast j1 r1 (clock db) Hl1 (or_intror Hdate)). lia.
  - by apply (Huniq j1 r1 Hl1 j2 r2 Hl2).
Qed.

(** ** The service on the example stores *)

(** A book of five copies is created, borrowed and returned: [GetBook] shows
    5, then 4, then 5 again. *)
Example GetBook_borrowed_and_returned :
  (GetBook 1 library).1 =
    inr {| book.ID := 1; book.Title := "Fellowship of the Ring";
           book.Quantity := 5 |} ∧
  (GetBook 1 library_borrowed).1 =
    inr {| book.ID := 1; book.Title := "Fellowship of the Ring";
           book.Quantity := 4 |} ∧
  (GetBook 1 (after (CallReturnBook 1 1) library_borrowed)).1 =
    inr {| book.ID := 1; book.Title := "Fellowship of the Ring";
           book.Quantity := 5 |}.
Proof. by vm_compute. Qed.

(** The borrowed book is listed by [AllBorrowedBooks] and is still
    available, with the four copies left. *)
Example lists_of_library_borrowed :
  (AllBorrowedBooks library_borrowed).1 =
    inr [{| book_borrow.ID := 1; book_borrow.BookID := 1;
            book_borrow.UserID := 1; book_borrow.Borrow_date := 0;
            book_borrow.Return_date := None |}] ∧
  (GetAvailableBooks library_borrowed).1 =
    inr [{| book.ID := 1; book.Title := "Fellowship of the Ring";
            book.Quantity := 4 |}] ∧
  (GetAvailableBooks sold_out).1 = inr [].
Proof. by vm_compute. Qed.

(** A user or a book that a borrow row refers to cannot be deleted. *)
Example delete_refused :
  DeleteUser 1 library_borrowed =
    (inl (AppError ["userService - DeleteUser,"] "Error deleting user"
            (Some (PgError "23503"))), library_borrowed) ∧
  DeleteBook 1 library_borrowed =
    (inl (AppError ["bookService - DeleteBook"] "ERROR: (SQLSTATE 23503)"
            (Some (PgError "23503"))), library_borrowed).
Proof. by vm_compute. Qed.

(** * The claims of the specification *)

(** C1. In a store state (a store that satisfies [store_inv], as every
    store the service brings about does) where book [bookId] has quantity
    [q > 0], user [userId] exists and the pair has no borrow row without a
    return date, [BorrowBook] returns no error; the store after it has one
    new borrow row, for this pair and without a return date, and quantity
    [q - 1] for the book; every other row of the three tables is as before. *)
Theorem BorrowBook_borrows db bookId userId t q :
  store_inv db →
  books db !! bookId = Some {| title := t; quantity := q |} →
  0 < q →
  is_Some (users db !! userId) →
  not_borrowed db bookId userId →
  let id := book_borrows_id_seq db + 1 in
  book_borrows db !! id = None ∧
  BorrowBook bookId userId db =
  (inr (),
   {| users := users db;
      books := <[bookId := {| title := t; quantity := q - 1 |}]> (books db);
      book_borrows :=
        <[id := {| user_id := userId; book_id := bookId;
                   borrow_date := Some (clock db); return_date := None |}]>
          (book_borrows db);
      users_id_seq := users_id_seq db;
      books_id_seq := books_id_seq db;
      book_borrows_id_seq := id;
      clock := clock db + 1 |}).
Proof.
  intros Hinv Hbook Hq Huser Hnone id.
  assert (book_borrows db !! id = None) as Hfresh.
  { destruct (book_borrows db !! id) as [r|] eqn:Hl; [|done].
    apply (inv_ids db Hinv) in Hl. unfold id in Hl. lia. }
  split; [done|].
  rewrite BorrowBook_eq. cbv zeta. rewrite Hbook. simpl.
  rewrite bool_decide_eq_false_2 by lia.
  rewrite bool_decide_eq_true_2 by done.
  rewrite bool_decide_eq_false_2.
  2:{ intros (i & r & Hl & [Hact _]%borrowed_by_active). by apply (Hnone i r). }
  unfold BorrowBook_writes, bind, or_return, INSERT_INTO_book_borrows. simpl.
  rewrite !bool_decide_eq_true_2 by eauto. simpl.
  fold id. rewrite Hfresh.
  unfold UPDATE_books_SET_quantity_minus_1, UPDATE_books_SET_quantity. simpl.
  rewrite Hbook. simpl.
  pose proof (inv_int4 db Hinv bookId _ Hbook) as Hmax. simpl in Hmax.
  assert (int4 (q + -1) = true) as -> by (apply int4_le; unfold INT_MIN; lia).
  assert ((0 <=? q + -1) = true) as -> by (apply Z.leb_le; lia).
  done.
Qed.

Lemma BorrowBook_borrows_witness :
  book_borrows library !! 1 = None ∧
  BorrowBook 1 1 library =
  (inr (),
   {| users := users library;
      books := <[1 := {| title := "Fellowship of the Ring"; quantity := 4 |}]>
                 (books library);
      book_borrows :=
        <[1 := {| user_id := 1; book_id := 1; borrow_date := Some 0;
                  return_date := None |}]> (book_borrows library);
      users_id_seq := 1; books_id_seq := 1; book_borrows_id_seq := 1;
      clock := 1 |}).
Proof.
  apply (BorrowBook_borrows library 1 1 "Fellowship of the Ring" 5).
  - apply (bool_decide_unpack _). by vm_compute.
  - reflexivity.
  - lia.
  - eexists. reflexivity.
  - apply (bool_decide_unpack _). by vm_compute.
Defined.

(** C2, as the code has it. In a store state where the pair has a borrow row
    without a return date, the book has copies left and the user exists,
    [BorrowBook] returns an error and the store is as before, with no second
    row. The error is not "Book is already borrowed": it is the error of
    scanning the row of five columns into the one variable. *)
Theorem BorrowBook_already_borrowed db bookId userId i r b :
  store_inv db →
  book_borrows db !! i = Some r →
  active bookId userId r →
  books db !! bookId = Some b →
  0 < quantity b →
  is_Some (users db !! userId) →
  BorrowBook bookId userId db =
  (inl (AppError ["bookService - BorrowBook"]
          "number of field descriptions must equal number of destinations, got 5 and 1"
          (Some (ScanArity 5 1))), db).
Proof.
  intros Hinv Hl Hact Hbook Hq Huser. rewrite BorrowBook_eq. cbv zeta.
  rewrite Hbook. rewrite bool_decide_eq_false_2 by lia.
  rewrite bool_decide_eq_true_2 by done.
  rewrite bool_decide_eq_true_2; [done|].
  exists i, r. split; [done|]. apply borrowed_by_active. split; [done|].
  by eapply inv_borrow_dates.
Qed.

Lemma BorrowBook_already_borrowed_witness :
  BorrowBook 1 1 library_borrowed =
  (inl (AppError ["bookService - BorrowBook"]
          "number of field descriptions must equal number of destinations, got 5 and 1"
          (Some (ScanArity 5 1))), library_borrowed).
Proof.
  apply (BorrowBook_already_borrowed library_borrowed 1 1 1
           {| user_id := 1; book_id := 1; borrow_date := Some 0;
              return_date := None |}
           {| title := "Fellowship of the Ring"; quantity := 4 |}).
  - apply (bool_decide_unpack _). by vm_compute.
  - reflexivity.
  - by vm_compute.
  - reflexivity.
  - by vm_compute.
  - eexists. reflexivity.
Defined.

(** C3. In a store state where book [bookId] has quantity 0 or less,
    [BorrowBook] returns the error "Book is not available" for every user,
    and the store is as before. *)
Theorem BorrowBook_not_available db bookId userId r :
  books db !! bookId = Some r →
  quantity r ≤ 0 →
  BorrowBook bookId userId db =
  (inl (New "bookService - BorrowBook" "Book is not available" None), db).
Proof.
  intros Hbook Hq. rewrite BorrowBook_eq. cbv zeta. rewrite Hbook.
  by rewrite bool_decide_eq_true_2.
Qed.

Lemma BorrowBook_not_available_witness :
  BorrowBook 1 1 sold_out =
  (inl (New "bookService - BorrowBook" "Book is not available" None), sold_out).
Proof.
  apply (BorrowBook_not_available sold_out 1 1
           {| title := "Two Towers"; quantity := 0 |}).
  - reflexivity.
  - simpl. lia.
Defined.

(** C4, as the code has it. In a store state where the pair has a borrow row
    without a return date and book [bookId] has quantity [q] below the
    largest [INT], [ReturnBook] returns no error; the row has its return
    date, the book has quantity [q + 1], and every other row is as before. *)
Theorem ReturnBook_returns db bookId userId i r t q :
  store_inv db →
  book_borrows db !! i = Some r →
  active bookId userId r →
  books db !! bookId = Some {| title := t; quantity := q |} →
  q < INT_MAX →
  ReturnBook bookId userId db =
  (inr (),
   {| users := users db;
      books := <[bookId := {| title := t; quantity := q + 1 |}]> (books db);
      book_borrows := <[i := SET_return_date (clock db) r]> (book_borrows db);
      users_id_seq := users_id_seq db;
      books_id_seq := books_id_seq db;
      book_borrows_id_seq := book_borrows_id_seq db;
      clock := clock db + 1 |}).
Proof.
  intros Hinv Hl Hact Hbook Hq. rewrite ReturnBook_eq.
  rewrite bool_decide_eq_true_2.
  2:{ exists i, r. split; [done|]. apply borrowed_by_active. split; [done|].
      by eapply inv_borrow_dates. }
  unfold ReturnBook_writes, bind, or_return,
    UPDATE_book_borrows_SET_return_date. simpl.
  rewrite (one_active_update db bookId userId i r (clock db))
    by (done || by apply inv_one_active).
  rewrite bool_decide_eq_true_2
    by (apply unique_borrow_return;
        [by apply inv_unique|by apply inv_dates|done]).
  unfold UPDATE_books_SET_quantity_plus_1, UPDATE_books_SET_quantity. simpl.
  rewrite Hbook. simpl.
  pose proof (inv_nonneg db Hinv bookId _ Hbook) as Hmin. simpl in Hmin.
  assert (int4 (q + 1) = true) as -> by (apply int4_le; unfold INT_MIN; lia).
  assert ((0 <=? q + 1) = true) as -> by (apply Z.leb_le; lia).
  done.
Qed.

Lemma ReturnBook_returns_witness :
  ReturnBook 1 1 library_borrowed =
  (inr (),
   {| users := users library_borrowed;
      books := <[1 := {| title := "Fellowship of the Ring"; quantity := 5 |}]>
                 (books library_borrowed);
      book_borrows :=
        <[1 := {| user_id := 1; book_id := 1; borrow_date := Some 0;
                  return_date := Some 1 |}]> (book_borrows library_borrowed);
      users_id_seq := 1; books_id_seq := 1; book_borrows_id_seq := 1;
      clock := 2 |}).
Proof.
  apply (ReturnBook_returns library_borrowed 1 1 1
           {| user_id := 1; book_id := 1; borrow_date := Some 0;
              return_date := None |}
           "Fellowship of the Ring" 4).
  - apply (bool_decide_unpack _). by vm_compute.
  - reflexivity.
  - by vm_compute.
  - reflexivity.
  - by vm_compute.
Defined.

(** C4 as the specification states it fails: at quantity 2147483647 the
    borrow row is marked returned, the increment is refused, and [ReturnBook]
    returns that error. *)
Lemma ReturnBook_quantity_out_of_range :
  reachable library_full ∧
  book_borrows library_full !! 1 =
    Some {| user_id := 1; book_id := 1; borrow_date := Some 0;
            return_date := None |} ∧
  books library_full !! 1 =
    Some {| title := "Fellowship of the Ring"; quantity := 2147483647 |} ∧
  ReturnBook 1 1 library_full =
  (inl (AppError ["bookService - ReturnBook"] "ERROR: (SQLSTATE 22003)"
          (Some (PgError "22003"))),
   {| users := users library_full;
      books := books library_full;
      book_borrows :=
        <[1 := {| user_id := 1; book_id := 1; borrow_date := Some 0;
                  return_date := Some 1 |}]> (book_borrows library_full);
      users_id_seq := 1; books_id_seq := 1; book_borrows_id_seq := 1;
      clock := 2 |}).
Proof.
  split; [|by vm_compute].
  unfold library_full. apply reachable_after, library_borrowed_reachable.
Qed.

(** C5. In a store state where the pair has no borrow row without a return
    date, [ReturnBook] returns the error "Book is not borrowed", and the
    store is as before. *)
Theorem ReturnBook_not_borrowed db bookId userId :
  not_borrowed db bookId userId →
  ReturnBook bookId userId db =
  (inl (New "bookService - ReturnBook" "Book is not borrowed" None), db).
Proof.
  intros Hnone. rewrite ReturnBook_eq. rewrite bool_decide_eq_false_2; [done|].
  intros (i & r & Hl & [Hact _]%borrowed_by_active). by apply (Hnone i r).
Qed.

Lemma ReturnBook_not_borrowed_witness :
  ReturnBook 1 1 library =
  (inl (New "bookService - ReturnBook" "Book is not borrowed" None), library).
Proof.
  apply (ReturnBook_not_borrowed library 1 1).
  apply (bool_decide_unpack _). by vm_compute.
Defined.

(** C6. In every store reachable from the new database by calls of the
    service, one after the other, a (user, book) pair has at most one borrow
    row without a return date. *)
Theorem at_most_one_active_borrow db : reachable db → one_active db.
Proof. intros Hreach. by apply inv_one_active, reachable_store_inv. Qed.

Lemma at_most_one_active_borrow_witness : one_active library_borrowed.
Proof.
  apply (at_most_one_active_borrow library_borrowed).
  unfold library_borrowed, library. repeat apply reachable_after.
  apply reachable_new.
Defined.

(** C7. In every store reachable from the new database the quantity of every
    book is at least 0, and every call of the service keeps it so. *)
Theorem quantity_never_negative :
  (∀ db, reachable db → quantity_nonneg db) ∧
  (∀ c db, quantity_nonneg db → quantity_nonneg (after c db)).
Proof.
  split.
  - induction 1 as [|c db _ IH]; [done|by apply after_quantity_nonneg].
  - apply after_quantity_nonneg.
Qed.

Lemma quantity_never_negative_witness :
  quantity_nonneg library_borrowed ∧
  quantity_nonneg (after (CallReturnBook 1 1) library_borrowed).
Proof.
  destruct quantity_never_negative as [Hreach Hstep].
  assert (quantity_nonneg library_borrowed) as Hq.
  { apply Hreach. unfold library_borrowed, library.
    repeat apply reachable_after. apply reachable_new. }
  split; [exact Hq|]. apply Hstep, Hq.
Defined.

(** C8, as the code has it. [UpdateUser] returns an error exactly when no
    user has the id, or some user has the new pair of names, the user with
    the id included, or a new name does not fit its column. When the id
    exists, no user has the pair and both names fit, it returns no error and
    the user with the id has the two names; nothing else changes. *)
Theorem UpdateUser_fails_exactly_when db updateUser userId :
  let first := user.FirstName updateUser in
  let last := user.LastName updateUser in
  ((∃ err, (UpdateUser updateUser userId db).1 = inl err) ↔
     users db !! userId = None ∨ name_taken db first last ∨
     varchar 100 first = None ∨ varchar 100 last = None) ∧
  (∀ old, users db !! userId = Some old → ¬ name_taken db first last →
     (String.length first ≤ 100)%nat → (String.length last ≤ 100)%nat →
     UpdateUser updateUser userId db =
     (inr (), set_users
                <[userId := {| first_name := first; last_name := last |}]> db)).
Proof.
  intros first last. rewrite UpdateUser_eq. cbv zeta. fold first last. split.
  - destruct (users db !! userId) as [old|] eqn:Hid.
    + rewrite bool_decide_eq_true_2 by eauto.
      destruct (decide (name_taken db first last)) as [Htaken|Hfree].
      * rewrite bool_decide_eq_true_2 by done. simpl. split; eauto.
      * rewrite bool_decide_eq_false_2 by done.
        destruct (varchar 100 first), (varchar 100 last); simpl;
          (split; [intros [err Herr]; by eauto|]);
          try (intros _; by eexists).
        intros [|[|[|]]]; done.
    + rewrite bool_decide_eq_false_2 by (by intros [? ?]). simpl.
      split; eauto.
  - intros old Hid Hfree Hfirst Hlast.
    rewrite bool_decide_eq_true_2 by eauto.
    rewrite bool_decide_eq_false_2 by done.
    rewrite !varchar_fits by done. unfold set_users.
    by erewrite alter_const.
Qed.

Lemma UpdateUser_fails_exactly_when_witness :
  UpdateUser {| user.ID := 0; user.FirstName := "Janez";
                user.LastName := "Novak" |} 1 library =
  (inr (), set_users
             <[1 := {| first_name := "Janez"; last_name := "Novak" |}]> library).
Proof.
  apply (proj2 (UpdateUser_fails_exactly_when library
                  {| user.ID := 0; user.FirstName := "Janez";
                     user.LastName := "Novak" |} 1)
           {| first_name := "Tine"; last_name := "Kokalj" |}).
  - reflexivity.
  - apply (bool_decide_unpack _). by vm_compute.
  - simpl. lia.
  - simpl. lia.
Defined.

(** C8 as the specification states it fails: the only user of the library
    cannot be updated to the names it has, and not to a name of 101
    characters that no user has. *)
Lemma UpdateUser_own_names :
  users library = {[ 1 := {| first_name := "Tine"; last_name := "Kokalj" |} ]} ∧
  UpdateUser tine 1 library =
  (inl (AppError ["userService - NameAndLastNameExist,";
                  "userService - UpdateUser,"]
          "User with this name: Tine, and last name: Kokalj, already exists"
          None), library) ∧
  UpdateUser {| user.ID := 1; user.FirstName := long_name;
                user.LastName := "Kokalj" |} 1 library =
  (inl (AppError ["userService - UpdateUser,"] "Error updating user"
          (Some (PgError "22001"))), library).
Proof. by vm_compute. Qed.

(** C9, as the code has it. In a store state where the book with id [bookId]
    has title [t], [UpdateBook] with the title [t] and a quantity [q'] that
    an [INT] with [CHECK (quantity >= 0)] can hold returns no error and sets
    the quantity to [q']; that some book has the title, this one, does not
    make it fail. *)
Theorem UpdateBook_own_title db bookId id t q q' :
  store_inv db →
  books db !! bookId = Some {| title := t; quantity := q |} →
  0 ≤ q' ≤ INT_MAX →
  title_taken db t ∧
  UpdateBook bookId {| book.ID := id; book.Title := t; book.Quantity := q' |} db =
  (inr (), set_books <[bookId := {| title := t; quantity := q' |}]> db).
Proof.
  intros Hinv Hbook Hq. split; [by exists bookId, {| title := t; quantity := q |}|].
  rewrite UpdateBook_eq. cbv zeta. simpl.
  rewrite bool_decide_eq_true_2 by eauto. rewrite Hbook. simpl.
  rewrite bool_decide_eq_true_2 by done. simpl.
  unfold or_return, UPDATE_books.
  pose proof (inv_titles db Hinv bookId _ Hbook) as Hfit. simpl in Hfit.
  assert (int4 q' = true) as -> by (apply int4_le; unfold INT_MIN; lia).
  simpl. rewrite varchar_fits by done. rewrite Hbook.
  by assert ((0 <=? q') = true) as -> by (apply Z.leb_le; lia).
Qed.

Lemma UpdateBook_own_title_witness :
  title_taken library "Fellowship of the Ring" ∧
  UpdateBook 1 {| book.ID := 1; book.Title := "Fellowship of the Ring";
                  book.Quantity := 10 |} library =
  (inr (), set_books
             <[1 := {| title := "Fellowship of the Ring"; quantity := 10 |}]>
             library).
Proof.
  apply (UpdateBook_own_title library 1 1 "Fellowship of the Ring" 5 10).
  - apply (bool_decide_unpack _). by vm_compute.
  - reflexivity.
  - by vm_compute.
Defined.

(** C9 as the specification states it fails: with its own title, the book of
    the library cannot be given the quantity -1, which the check of the
    column refuses, nor 2147483648, which is no [INT]. *)
Lemma UpdateBook_own_title_quantity_refused :
  books library !! 1 =
    Some {| title := "Fellowship of the Ring"; quantity := 5 |} ∧
  UpdateBook 1 {| book.ID := 1; book.Title := "Fellowship of the Ring";
                  book.Quantity := -1 |} library =
  (inl (AppError ["bookService - UpdateBook"] "ERROR: (SQLSTATE 23514)"
          (Some (PgError "23514"))), library) ∧
  UpdateBook 1 {| book.ID := 1; book.Title := "Fellowship of the Ring";
                  book.Quantity := 2147483648 |} library =
  (inl (AppError ["bookService - UpdateBook"] "ERROR: (SQLSTATE 22003)"
          (Some (PgError "22003"))), library).
Proof. by vm_compute. Qed.

(** C10. Whatever the store, when [ReturnBook] returns no error, every
    borrow row of the pair that had no return date has the date of the
    return, however many there were, none is left without one, every other
    borrow row is as before, and the quantity of the book is one more than
    before. The book is there when the borrow rows refer to books. *)
Theorem ReturnBook_marks_every_row db bookId userId db' :
  ReturnBook bookId userId db = (inr (), db') →
  (∀ i r, book_borrows db !! i = Some r → active bookId userId r →
     book_borrows db' !! i = Some (SET_return_date (clock db) r)) ∧
  (∀ i r, book_borrows db !! i = Some r → ¬ active bookId userId r →
     book_borrows db' !! i = Some r) ∧
  not_borrowed db' bookId userId ∧
  (∀ t q, books db !! bookId = Some {| title := t; quantity := q |} →
     books db' !! bookId = Some {| title := t; quantity := q + 1 |}) ∧
  (references db → is_Some (books db !! bookId)).
Proof.
  rewrite ReturnBook_eq. destruct (bool_decide (∃ i r, _)) eqn:Hrow; [|done].
  apply bool_decide_eq_true in Hrow as (i0 & r0 & Hl0 & Hact0).
  apply borrowed_by_active in Hact0 as [(Hbook0 & _ & _) _].
  unfold ReturnBook_writes, bind, or_return,
    UPDATE_book_borrows_SET_return_date. simpl.
  destruct (bool_decide (unique_borrow _)); [|done].
  unfold UPDATE_books_SET_quantity_plus_1, UPDATE_books_SET_quantity. simpl.
  set (table := _ <$> book_borrows db).
  intros Hret.
  assert (book_borrows db' = table ∧
          ∀ t q, books db !! bookId = Some {| title := t; quantity := q |} →
                 books db' !! bookId = Some {| title := t; quantity := q + 1 |})
    as [Htable Hbooks].
  { destruct (books db !! bookId) as [[t q]|]; simpl in Hret.
    - destruct (int4 (q + 1)); [|done]. destruct (0 <=? q + 1); [|done].
      simpl in Hret. injection Hret as <-. simpl. split; [done|].
      intros t' q' [= <- <-]. by rewrite lookup_insert_eq.
    - injection Hret as <-. by split. }
  rewrite Htable. unfold table. repeat split; try done.
  - intros i r Hl Hact. rewrite lookup_fmap, Hl. simpl.
    by apply not_returned_by_active in Hact as ->.
  - intros i r Hl Hact. rewrite lookup_fmap, Hl. simpl.
    destruct (not_returned_by bookId userId r) eqn:Hnot; [|done].
    by apply not_returned_by_active in Hnot.
  - intros i r. rewrite Htable. unfold table. rewrite lookup_fmap.
    destruct (book_borrows db !! i) as [r1|]; [|done]. simpl.
    intros [= <-] Hact.
    destruct (not_returned_by bookId userId r1) eqn:Hnot.
    + by destruct Hact as (_ & _ & ?).
    + apply not_returned_by_active in Hact. congruence.
  - intros Href. rewrite <- Hbook0. by eapply Href.
Qed.

Lemma ReturnBook_marks_every_row_witness :
  book_borrows (after (CallReturnBook 1 1) library_borrowed) !! 1 =
    Some {| user_id := 1; book_id := 1; borrow_date := Some 0;
            return_date := Some 1 |} ∧
  not_borrowed (after (CallReturnBook 1 1) library_borrowed) 1 1 ∧
  books (after (CallReturnBook 1 1) library_borrowed) !! 1 =
    Some {| title := "Fellowship of the Ring"; quantity := 5 |}.
Proof.
  destruct (ReturnBook_marks_every_row library_borrowed 1 1
              (after (CallReturnBook 1 1) library_borrowed))
    as (Hmarked & _ & Hnone & Hquantity & _); [by vm_compute|].
  split; [|split].
  - apply (Hmarked 1 {| user_id := 1; book_id := 1; borrow_date := Some 0;
                        return_date := None |});
      [reflexivity|by vm_compute].
  - exact Hnone.
  - apply (Hquantity "Fellowship of the Ring" 4). reflexivity.
Defined.

(** * Besides the claims *)

(** X1. No call of [BorrowBook], on any store, returns the error "Book is
    already borrowed": when the pair has a borrow row, reading that row
    fails first. *)
Lemma BorrowBook_never_already_borrowed db bookId userId :
  (BorrowBook bookId userId db).1 ≠
  inl (New "bookService - BorrowBook" "Book is already borrowed" None).
Proof.
  rewrite BorrowBook_eq. cbv zeta.
  destruct (books db !! bookId) as [b|]; [|done].
  destruct (bool_decide (quantity b ≤ 0)); [done|].
  destruct (bool_decide (is_Some _)); [|done].
  destruct (bool_decide (∃ i r, _)); [done|].
  unfold BorrowBook_writes, bind, or_return, INSERT_INTO_book_borrows. simpl.
  destruct (negb _); [done|].
  destruct (book_borrows db !! _); [done|].
  unfold UPDATE_books_SET_quantity_minus_1, UPDATE_books_SET_quantity. simpl.
  destruct (books db !! bookId) as [b'|]; [|done]. simpl.
  destruct (int4 _); [|done]. simpl. by destruct (0 <=? _).
Qed.

(** X2. When two borrow rows of one pair are without a return date,
    [ReturnBook] returns the error of the [unique_borrow] constraint and
    changes no row: the update would give both rows the same return date.
    So a return that succeeds has found exactly one such row. *)
Lemma ReturnBook_two_active db bookId userId i j r1 r2 :
  i ≠ j →
  book_borrows db !! i = Some r1 → active bookId userId r1 →
  book_borrows db !! j = Some r2 → active bookId userId r2 →
  borrow_date r1 ≠ None →
  ReturnBook bookId userId db =
  (inl (AppError ["bookService - ReturnBook"] "ERROR: (SQLSTATE 23505)"
          (Some (PgError "23505"))),
   (NOW db).2).
Proof.
  intros Hne Hi Hact1 Hj Hact2 Hdate. rewrite ReturnBook_eq.
  rewrite bool_decide_eq_true_2.
  2:{ exists i, r1. split; [done|]. by apply borrowed_by_active. }
  unfold ReturnBook_writes, bind, or_return,
    UPDATE_book_borrows_SET_return_date. simpl.
  rewrite bool_decide_eq_false_2; [done|].
  intros Huniq. apply Hne.
  apply (Huniq i (SET_return_date (clock db) r1)
           ltac:(rewrite lookup_fmap, Hi; simpl;
                 by apply not_returned_by_active in Hact1 as ->)
           j (SET_return_date (clock db) r2)
           ltac:(rewrite lookup_fmap, Hj; simpl;
                 by apply not_returned_by_active in Hact2 as ->));
    simpl; try done.
  - destruct Hact1 as (_ & -> & _), Hact2 as (_ & -> & _). done.
  - destruct Hact1 as (-> & _), Hact2 as (-> & _). done.
Qed.

Lemma ReturnBook_two_active_witness :
  ReturnBook 1 1 borrowed_twice =
  (inl (AppError ["bookService - ReturnBook"] "ERROR: (SQLSTATE 23505)"
          (Some (PgError "23505"))),
   (NOW borrowed_twice).2).
Proof.
  apply (ReturnBook_two_active borrowed_twice 1 1 1 2
           {| user_id := 1; book_id := 1; borrow_date := Some 0;
              return_date := None |}
           {| user_id := 1; book_id := 1; borrow_date := Some 0;
              return_date := None |}).
  - lia.
  - reflexivity.
  - by vm_compute.
  - reflexivity.
  - by vm_compute.
  - by vm_compute.
Defined.

(** ** Reading by id *)

Lemma GetUser_eq userId db :
  GetUser userId db =
  (match users db !! userId with
   | Some r => inr {| user.ID := userId; user.FirstName := first_name r;
                      user.LastName := last_name r |}
   | None => inl (AppError ["userService - GetUser,"] "no rows in result set"
                    (Some ErrNoRows))
   end, db).
Proof.
  unfold GetUser, or_return, QueryRow_Scan, SELECT_FROM_users_WHERE_id.
  rewrite QueryRow_SELECT_id. by destruct (users db !! userId).
Qed.

Lemma GetBook_eq bookId db :
  GetBook bookId db =
  (match books db !! bookId with
   | Some r => inr {| book.ID := bookId; book.Title := title r;
                      book.Quantity := quantity r |}
   | None => inl (AppError ["bookService - GetBook"] "no rows in result set"
                    (Some ErrNoRows))
   end, db).
Proof.
  unfold GetBook, or_return, QueryRow_Scan, SELECT_FROM_books_WHERE_id.
  rewrite QueryRow_SELECT_id. by destruct (books db !! bookId).
Qed.

(** X3. [GetUser] and [GetBook] return the row of the id with the id as
    its [ID], and the wrapped "no rows in result set" of pgx when the table
    has no row of the id; the store is as before. *)
Theorem Get_by_id db id :
  GetUser id db =
  (match users db !! id with
   | Some r => inr {| user.ID := id; user.FirstName := first_name r;
                      user.LastName := last_name r |}
   | None => inl (Wrap "userService - GetUser," ErrNoRows)
   end, db) ∧
  GetBook id db =
  (match books db !! id with
   | Some r => inr {| book.ID := id; book.Title := title r;
                      book.Quantity := quantity r |}
   | None => inl (Wrap "bookService - GetBook" ErrNoRows)
   end, db).
Proof. by rewrite GetUser_eq, GetBook_eq. Qed.

(** ** Lists *)

Lemma scan_rows_inr {A B : Type} (scan : list value → error + A)
    (f : B → list value) (g : B → A) (l : list B) (result : list A) :
  Forall (λ x, scan (f x) = inr (g x)) l →
  scan_rows scan (f <$> l) result = inr (result ++ (g <$> l))%list.
Proof.
  revert result. induction l as [|x l IH]; intros result Hall; simpl.
  - by rewrite app_nil_r.
  - inversion Hall as [|? ? Hx Hl]; subst. rewrite Hx, IH by done.
    by rewrite <- app_assoc.
Qed.

Section lists.
Context {R A : Type}.
Implicit Types (cols : Z → R → list value) (g : Z → R → A)
  (table : gmap Z R) (WHERE : Z → R → bool).

Lemma scan_rows_SELECT scan cols g table WHERE :
  (∀ i r, table !! i = Some r → WHERE i r = true →
     scan (cols i r) = inr (g i r)) →
  scan_rows scan (SELECT cols table WHERE) [] = inr (selected g table WHERE).
Proof.
  intros Hscan. unfold SELECT, selected.
  rewrite (scan_rows_inr scan (λ kr, cols kr.1 kr.2) (λ kr, g kr.1 kr.2));
    [done|].
  apply Forall_forall. intros [i r] [Hw Hin]%list_elem_of_filter.
  apply elem_of_map_to_list in Hin. by apply Hscan.
Qed.

Lemma elem_of_selected g table WHERE x :
  x ∈ selected g table WHERE ↔
  ∃ i r, table !! i = Some r ∧ WHERE i r = true ∧ x = g i r.
Proof.
  unfold selected. rewrite list_elem_of_fmap. split.
  - intros [[i r] [-> [Hw Hin]%list_elem_of_filter]].
    apply elem_of_map_to_list in Hin. eauto.
  - intros (i & r & Hl & Hw & ->). exists (i, r). split; [done|].
    apply list_elem_of_filter. split; [done|]. by apply elem_of_map_to_list.
Qed.

Lemma NoDup_selected g table WHERE :
  (∀ i r i' r', g i r = g i' r' → i = i') → NoDup (selected g table WHERE).
Proof.
  intros Hinj. unfold selected. apply NoDup_fmap_2_strong.
  - intros [i r] [i' r'] [_ Hin]%list_elem_of_filter
      [_ Hin']%list_elem_of_filter Heq. simpl in Heq.
    apply elem_of_map_to_list in Hin, Hin'.
    pose proof (Hinj _ _ _ _ Heq) as <-. congruence.
  - apply NoDup_filter, NoDup_map_to_list.
Qed.

Lemma length_selected_all g table :
  length (selected g table (λ _ _, true)) = size table.
Proof.
  unfold selected. rewrite length_fmap, <- length_map_to_list. f_equal.
  induction (map_to_list table) as [|kr l IH]; [done|].
  rewrite filter_cons_True by done. by rewrite IH.
Qed.

End lists.

Lemma scan_User_star i r :
  scan_User (users_star i r) =
  inr {| user.ID := i; user.FirstName := first_name r;
         user.LastName := last_name r |}.
Proof. done. Qed.

Lemma scan_Book_star i r :
  scan_Book (books_star i r) =
  inr {| book.ID := i; book.Title := title r; book.Quantity := quantity r |}.
Proof. done. Qed.

Lemma GetAllUsers_eq db :
  GetAllUsers db =
  (inr (selected (λ i r, {| user.ID := i; user.FirstName := first_name r;
                            user.LastName := last_name r |})
          (users db) (λ _ _, true)), db).
Proof.
  unfold GetAllUsers, bind, or_return, Query, lift, SELECT_FROM_users.
  by erewrite scan_rows_SELECT.
Qed.

Lemma GetAllBooks_eq db :
  GetAllBooks db =
  (inr (selected (λ i r, {| book.ID := i; book.Title := title r;
                            book.Quantity := quantity r |})
          (books db) (λ _ _, true)), db).
Proof.
  unfold GetAllBooks, bind, or_return, Query, lift, SELECT_FROM_books.
  by erewrite scan_rows_SELECT.
Qed.

Lemma GetAvailableBooks_eq db :
  GetAvailableBooks db =
  (inr (selected (λ i r, {| book.ID := i; book.Title := title r;
                            book.Quantity := quantity r |})
          (books db) (λ _ r, 0 <? quantity r)), db).
Proof.
  unfold GetAvailableBooks, bind, or_return, Query, lift,
    SELECT_star_FROM_books_available.
  by erewrite scan_rows_SELECT.
Qed.

(** X4. [GetAllUsers] never returns an error: it returns the users of the
    table, each once and with its id, and nothing else; the store is as
    before. *)
Theorem GetAllUsers_lists db :
  ∃ l, GetAllUsers db = (inr l, db) ∧ NoDup l ∧ length l = size (users db) ∧
    ∀ u, u ∈ l ↔
      users db !! user.ID u =
        Some {| first_name := user.FirstName u; last_name := user.LastName u |}.
Proof.
  eexists. split; [apply GetAllUsers_eq|]. split; [|split].
  - apply NoDup_selected. by intros i r i' r' [= ->].
  - apply length_selected_all.
  - intros [id first last]. rewrite elem_of_selected. simpl. split.
    + intros (i & [f l] & Hl & _ & [= -> -> ->]). done.
    + intros Hl. by eexists _, _.
Qed.

(** X5. [GetAllBooks] never returns an error: it returns the books of the
    table, each once and with its id, and nothing else; the store is as
    before. *)
Theorem GetAllBooks_lists db :
  ∃ l, GetAllBooks db = (inr l, db) ∧ NoDup l ∧ length l = size (books db) ∧
    ∀ b, b ∈ l ↔
      books db !! book.ID b =
        Some {| title := book.Title b; quantity := book.Quantity b |}.
Proof.
  eexists. split; [apply GetAllBooks_eq|]. split; [|split].
  - apply NoDup_selected. by intros i r i' r' [= ->].
  - apply length_selected_all.
  - intros [id t q]. rewrite elem_of_selected. simpl. split.
    + intros (i & [t' q'] & Hl & _ & [= -> -> ->]). done.
    + intros Hl. by eexists _, _.
Qed.

(** X6. [GetAvailableBooks] never returns an error: it returns the books
    with a quantity above 0, each once, and no other book; the store is as
    before. *)
Theorem GetAvailableBooks_lists db :
  ∃ l, GetAvailableBooks db = (inr l, db) ∧ NoDup l ∧
    ∀ b, b ∈ l ↔
      books db !! book.ID b =
        Some {| title := book.Title b; quantity := book.Quantity b |} ∧
      0 < book.Quantity b.
Proof.
  eexists. split; [apply GetAvailableBooks_eq|]. split.
  - apply NoDup_selected. by intros i r i' r' [= ->].
  - intros [id t q]. rewrite elem_of_selected. simpl. split.
    + intros (i & [t' q'] & Hl & Hq%Z.ltb_lt & [= -> -> ->]). done.
    + intros [Hl Hq]. eexists _, _. split; [done|]. split; [|done].
      by apply Z.ltb_lt.
Qed.

Lemma scan_rows_inl {A B : Type} (scan : list value → error + A)
    (f : B → list value) (err : error) (l : list B) (result : list A) :
  Forall (λ x, scan (f x) = inl err ∨ ∃ a, scan (f x) = inr a) l →
  Exists (λ x, scan (f x) = inl err) l →
  scan_rows scan (f <$> l) result = inl err.
Proof.
  revert result. induction l as [|x l IH]; intros result Hall Hex; simpl.
  - by apply Exists_nil in Hex.
  - inversion Hall as [|? ? Hx Hl]; subst.
    destruct Hx as [->|[a Ha]]; [done|]. rewrite Ha. apply IH; [done|].
    apply Exists_cons in Hex as [Hex|Hex]; [congruence|done].
Qed.

(** The row of [AllBorrowedBooks] is read unless its borrow date is null. *)
Lemma scan_BookBorrow_row i r :
  scan_BookBorrow [Int i; Int (book_id r); Int (user_id r);
                   nullable (borrow_date r); nullable (return_date r)] =
  match borrow_date r with
  | Some t => inr {| book_borrow.ID := i; book_borrow.BookID := book_id r;
                     book_borrow.UserID := user_id r;
                     book_borrow.Borrow_date := t;
                     book_borrow.Return_date := return_date r |}
  | None => inl ScanNull
  end.
Proof. unfold scan_BookBorrow. by destruct (borrow_date r), (return_date r). Qed.

(** X7. When every borrow row has its borrow date, as in every store the
    service brings about, [AllBorrowedBooks] returns the borrow rows
    without a return date, each once, and no other row; the store is as
    before. When a row without a return date has no borrow date either, it
    returns the error of reading a null into [Borrow_date]. *)
Theorem AllBorrowedBooks_lists db :
  (borrow_dates_set db →
   ∃ l, AllBorrowedBooks db = (inr l, db) ∧ NoDup l ∧
     ∀ bb, bb ∈ l ↔
       book_borrows db !! book_borrow.ID bb =
         Some {| user_id := book_borrow.UserID bb;
                 book_id := book_borrow.BookID bb;
                 borrow_date := Some (book_borrow.Borrow_date bb);
                 return_date := None |} ∧
       book_borrow.Return_date bb = None) ∧
  ((∃ i r, book_borrows db !! i = Some r ∧ return_date r = None ∧
           borrow_date r = None) →
   AllBorrowedBooks db =
   (inl (Wrap "bookBorrowService - AllBorrowedBooks" ScanNull), db)).
Proof.
  split.
  - intros Hset.
    set (g := λ i r, {| book_borrow.ID := i; book_borrow.BookID := book_id r;
                        book_borrow.UserID := user_id r;
                        book_borrow.Borrow_date := default 0 (borrow_date r);
                        book_borrow.Return_date := return_date r |}).
    exists (selected g (book_borrows db) (λ _ r, bool_decide (return_date r = None))).
    split; [|split].
    + unfold AllBorrowedBooks, bind, or_return, Query, lift,
        SELECT_FROM_book_borrows_not_returned.
      erewrite (scan_rows_SELECT _ _ g); [done|].
      intros i r Hl _. rewrite scan_BookBorrow_row. unfold g.
      specialize (Hset i r Hl). by destruct (borrow_date r).
    + apply NoDup_selected. by intros i r i' r' [= ->].
    + intros [id b u borrowed returned]. rewrite elem_of_selected. simpl.
      split.
      * intros (i & [u' b' bd rd] & Hl & Hw%bool_decide_eq_true & Heq).
        specialize (Hset i _ Hl). unfold g in Heq. simpl in *.
        destruct bd as [t|]; [|done]. by simplify_eq/=.
      * intros [Hl ->]. eexists _, _. split; [done|].
        by rewrite bool_decide_eq_true_2.
  - intros (i & r & Hl & Hret & Hnull).
    unfold AllBorrowedBooks, bind, or_return, Query, lift,
      SELECT_FROM_book_borrows_not_returned, SELECT.
    rewrite (scan_rows_inl _ _ ScanNull); [done| |].
    + apply Forall_forall. intros [j r'] _. simpl.
      rewrite scan_BookBorrow_row. destruct (borrow_date r'); eauto.
    + apply Exists_exists. exists (i, r). split.
      * apply list_elem_of_filter. simpl. rewrite bool_decide_eq_true_2 by done.
        split; [done|]. by apply elem_of_map_to_list.
      * simpl. by rewrite scan_BookBorrow_row, Hnull.
Qed.

(** ** Creating, updating and deleting *)

Lemma users_fresh db :
  keys_in_sequence db → users db !! (users_id_seq db + 1) = None.
Proof.
  intros (Hu & _). destruct (users db !! _) as [r|] eqn:Hl; [|done].
  apply Hu in Hl. lia.
Qed.

Lemma books_fresh db :
  keys_in_sequence db → books db !! (books_id_seq db + 1) = None.
Proof.
  intros (_ & Hb & _). destruct (books db !! _) as [r|] eqn:Hl; [|done].
  apply Hb in Hl. lia.
Qed.

Lemma book_borrows_fresh db :
  keys_in_sequence db → book_borrows db !! (book_borrows_id_seq db + 1) = None.
Proof.
  intros (_ & _ & Hb & _). destruct (book_borrows db !! _) as [r|] eqn:Hl; [|done].
  apply Hb in Hl. lia.
Qed.

Lemma CreateUser_eq newUser db :
  CreateUser newUser db =
  let first := user.FirstName newUser in
  let last := user.LastName newUser in
  if bool_decide (name_taken db first last)
  then (inl (AppError ["userService - NameAndLastNameExist,";
                       "userService - CreateUser,"]
               ("User with this name: " +:+ first +:+ ", and last name: " +:+
                last +:+ ", already exists") None), db)
  else (INSERT_INTO_users first last ?? Wrap "userService - CreateUser,") db.
Proof.
  unfold CreateUser, bind at 1, or_return at 1. rewrite nameAndLastNameExist_eq.
  cbv zeta. destruct (bool_decide (name_taken db _ _)); [done|].
  unfold bind, or_return, ret.
  by destruct (INSERT_INTO_users _ _ db) as [[err|[]] db1]; [destruct err|].
Qed.

Lemma CreateBook_eq newBook db :
  CreateBook newBook db =
  if bool_decide (title_taken db (book.Title newBook))
  then (inl (AppError ["bookService - titleExists"; "bookService - CreateBook"]
               ("Book with title " +:+ book.Title newBook +:+
                ", already exists") None), db)
  else (INSERT_INTO_books (book.Title newBook) (book.Quantity newBook)
          ?? Wrap "bookService - CreateBook") db.
Proof.
  unfold CreateBook, bind at 1, or_return at 1. rewrite titleExists_eq.
  destruct (bool_decide (title_taken db _)); [done|].
  unfold bind, or_return, ret.
  by destruct (INSERT_INTO_books _ _ db) as [[err|[]] db1]; [destruct err|].
Qed.

Lemma DeleteUser_eq userId db :
  DeleteUser userId db =
  if bool_decide (is_Some (users db !! userId))
  then
    if bool_decide (map_Exists (λ _ r, user_id r = userId) (book_borrows db))
    then (inl (AppError ["userService - DeleteUser,"] "Error deleting user"
                 (Some (PgError foreign_key_violation))), db)
    else (inr (), set_users (delete userId) db)
  else (inl (AppError ["userService - userExist,"; "userService - DeleteUser,"]
               ("User with id " +:+ pretty userId +:+ " does not exist") None),
        db).
Proof.
  unfold DeleteUser, bind at 1, or_return at 1. rewrite UserExist_eq.
  destruct (bool_decide (is_Some (users db !! userId))) eqn:Hsome; [|done].
  unfold bind, or_return, ret, DELETE_FROM_users. rewrite Hsome. simpl.
  by destruct (bool_decide (map_Exists _ _)).
Qed.

Lemma DeleteBook_eq bookId db :
  DeleteBook bookId db =
  if bool_decide (is_Some (books db !! bookId)) &&
     bool_decide (map_Exists (λ _ r, book_id r = bookId) (book_borrows db))
  then (inl (Wrap "bookService - DeleteBook" (PgError foreign_key_violation)), db)
  else (inr (), set_books (delete bookId) db).
Proof.
  unfold DeleteBook, bind, or_return, ret, DELETE_FROM_books.
  by destruct (_ && _).
Qed.

(** X8. In a store whose user ids come from the sequence, [CreateUser]
    returns an error exactly when some user has the pair of names or a name
    does not fit its column. When no user has the pair and both names fit,
    it returns no error and the table has one more row, with the two names
    and the next id of the sequence, whatever [ID] the request carried;
    [GetUser] of that id then returns the user. *)
Theorem CreateUser_fails_exactly_when db newUser :
  keys_in_sequence db →
  let first := user.FirstName newUser in
  let last := user.LastName newUser in
  let id := users_id_seq db + 1 in
  ((∃ err, (CreateUser newUser db).1 = inl err) ↔
     name_taken db first last ∨
     varchar 100 first = None ∨ varchar 100 last = None) ∧
  (¬ name_taken db first last →
   (String.length first ≤ 100)%nat → (String.length last ≤ 100)%nat →
   users db !! id = None ∧
   CreateUser newUser db =
     (inr (), set_users <[id := {| first_name := first; last_name := last |}]>
                (nextval_users db).2) ∧
   (GetUser id (CreateUser newUser db).2).1 =
     inr {| user.ID := id; user.FirstName := first; user.LastName := last |}).
Proof.
  intros Hkeys first last id. pose proof (users_fresh db Hkeys) as Hfresh.
  rewrite CreateUser_eq. cbv zeta. fold first last.
  unfold or_return, INSERT_INTO_users. simpl. fold id in Hfresh |- *. split.
  - destruct (decide (name_taken db first last)) as [Htaken|Hfree].
    + rewrite bool_decide_eq_true_2 by done. simpl. split; eauto.
    + rewrite bool_decide_eq_false_2 by done.
      destruct (varchar 100 first), (varchar 100 last); simpl;
        rewrite ?Hfresh; simpl;
        (split; [intros [err Herr]; by eauto|]);
        try (intros _; by eexists).
      intros [|[|]]; done.
  - intros Hfree Hfirst Hlast. split; [done|].
    rewrite bool_decide_eq_false_2 by done.
    rewrite !varchar_fits by done. rewrite Hfresh. simpl. split; [done|].
    rewrite GetUser_eq. simpl. by rewrite lookup_insert_eq.
Qed.

Lemma CreateUser_fails_exactly_when_witness :
  users library !! 2 = None ∧
  CreateUser {| user.ID := 7; user.FirstName := "Janez";
                user.LastName := "Novak" |} library =
    (inr (), set_users <[2 := {| first_name := "Janez"; last_name := "Novak" |}]>
               (nextval_users library).2) ∧
  (GetUser 2 (CreateUser {| user.ID := 7; user.FirstName := "Janez";
                            user.LastName := "Novak" |} library).2).1 =
    inr {| user.ID := 2; user.FirstName := "Janez"; user.LastName := "Novak" |}.
Proof.
  apply (CreateUser_fails_exactly_when library
           {| user.ID := 7; user.FirstName := "Janez"; user.LastName := "Novak" |}).
  - apply (bool_decide_unpack _). by vm_compute.
  - apply (bool_decide_unpack _). by vm_compute.
  - simpl. lia.
  - simpl. lia.
Defined.

(** X9. In a store whose book ids come from the sequence, [CreateBook]
    returns an error exactly when some book has the title, the title does
    not fit its column, or the quantity is below 0 or above the largest
    [INT]. When no book has the title, the title fits and the quantity is in
    that range, 0 included, it returns no error and the table has one more
    row, with the title, the quantity and the next id of the sequence;
    [GetBook] of that id then returns the book. *)
Theorem CreateBook_fails_exactly_when db newBook :
  keys_in_sequence db →
  let t := book.Title newBook in
  let q := book.Quantity newBook in
  let id := books_id_seq db + 1 in
  ((∃ err, (CreateBook newBook db).1 = inl err) ↔
     title_taken db t ∨ varchar 255 t = None ∨ q < 0 ∨ INT_MAX < q) ∧
  (¬ title_taken db t → (String.length t ≤ 255)%nat → 0 ≤ q ≤ INT_MAX →
   books db !! id = None ∧
   CreateBook newBook db =
     (inr (), set_books <[id := {| title := t; quantity := q |}]>
                (nextval_books db).2) ∧
   (GetBook id (CreateBook newBook db).2).1 =
     inr {| book.ID := id; book.Title := t; book.Quantity := q |}).
Proof.
  intros Hkeys t q id. pose proof (books_fresh db Hkeys) as Hfresh.
  rewrite CreateBook_eq. fold t q.
  unfold or_return, INSERT_INTO_books. fold id in Hfresh. split.
  - destruct (decide (title_taken db t)) as [Htaken|Hfree].
    + rewrite bool_decide_eq_true_2 by done. simpl. split; eauto.
    + rewrite bool_decide_eq_false_2 by done.
      destruct (int4 q) eqn:Hint; simpl.
      * apply int4_le in Hint. fold id.
        destruct (varchar 255 t); simpl; [|split; eauto].
        destruct (0 <=? q) eqn:H0; simpl.
        -- apply Z.leb_le in H0. rewrite Hfresh. simpl.
           split; [by intros [err Herr]|]. intros [|[|[|]]]; try done; lia.
        -- apply Z.leb_gt in H0. split; eauto.
      * split; [intros _|by eauto].
        assert (¬ (INT_MIN ≤ q ≤ INT_MAX)) as Hout
          by (rewrite <- int4_le; congruence).
        unfold INT_MIN, INT_MAX in *. lia.
  - intros Hfree Ht Hq. split; [done|].
    rewrite bool_decide_eq_false_2 by done.
    assert (int4 q = true) as -> by (apply int4_le; unfold INT_MIN; lia).
    simpl. fold id. rewrite varchar_fits by done.
    assert ((0 <=? q) = true) as -> by (apply Z.leb_le; lia).
    simpl. rewrite Hfresh. simpl. split; [done|].
    rewrite GetBook_eq. simpl. by rewrite lookup_insert_eq.
Qed.

Lemma CreateBook_fails_exactly_when_witness :
  books library !! 2 = None ∧
  CreateBook two_towers library =
    (inr (), set_books <[2 := {| title := "Two Towers"; quantity := 0 |}]>
               (nextval_books library).2) ∧
  (GetBook 2 (CreateBook two_towers library).2).1 =
    inr {| book.ID := 2; book.Title := "Two Towers"; book.Quantity := 0 |}.
Proof.
  apply (CreateBook_fails_exactly_when library two_towers).
  - apply (bool_decide_unpack _). by vm_compute.
  - apply (bool_decide_unpack _). by vm_compute.
  - simpl. lia.
  - by vm_compute.
Defined.

(** X10. [UpdateBook] returns an error exactly when no book has the id, or
    the title is not the one the book has and some book has it, or the title
    does not fit its column, or the quantity is below 0 or above the largest
    [INT]; the store is then as before. Otherwise the book has the new title
    and quantity, and nothing else changes. *)
Theorem UpdateBook_fails_exactly_when db bookId updatedBook :
  let t := book.Title updatedBook in
  let q := book.Quantity updatedBook in
  ((∃ err, (UpdateBook bookId updatedBook db).1 = inl err) ↔
     books db !! bookId = None ∨
     (title <$> books db !! bookId ≠ Some t ∧ title_taken db t) ∨
     varchar 255 t = None ∨ q < 0 ∨ INT_MAX < q) ∧
  (∀ err, (UpdateBook bookId updatedBook db).1 = inl err →
     (UpdateBook bookId updatedBook db).2 = db) ∧
  (∀ old, books db !! bookId = Some old →
     title old = t ∨ ¬ title_taken db t →
     (String.length t ≤ 255)%nat → 0 ≤ q ≤ INT_MAX →
     UpdateBook bookId updatedBook db =
     (inr (), set_books <[bookId := {| title := t; quantity := q |}]> db)).
Proof.
  intros t q. rewrite UpdateBook_eq. cbv zeta. fold t q.
  unfold or_return, UPDATE_books.
  destruct (books db !! bookId) as [old|] eqn:Hid.
  2:{ rewrite bool_decide_eq_false_2 by (by intros [? ?]). simpl.
      split; [split; eauto|]. split; [done|]. by intros old [=]. }
  rewrite bool_decide_eq_true_2 by eauto. simpl.
  destruct (decide (title old = t)) as [Hown|Hother].
  - rewrite (bool_decide_eq_true_2 (Some (title old) = Some t)) by congruence.
    simpl. destruct (int4 q) eqn:Hint; simpl.
    + apply int4_le in Hint. destruct (varchar 255 t) as [t'|] eqn:Ht; simpl.
      * destruct (0 <=? q) eqn:H0; simpl.
        -- apply Z.leb_le in H0. split; [|split; [done|]].
           ++ split; [by intros [err Herr]|].
              intros [|[[]|[|[|]]]]; try done; try lia. congruence.
           ++ intros ? [= <-] _ Hfit _. rewrite varchar_fits in Ht by done.
              by injection Ht as <-.
        -- apply Z.leb_gt in H0. split; [split; eauto 6|]. split; [done|].
           intros; lia.
      * split; [split; eauto|]. split; [done|].
        intros ? _ _ Hfit _. by rewrite varchar_fits in Ht.
    + assert (¬ (INT_MIN ≤ q ≤ INT_MAX)) as Hout
        by (rewrite <- int4_le; congruence).
      split; [split; [intros _|by eauto]|].
      * unfold INT_MIN, INT_MAX in *. lia.
      * split; [done|]. intros ? _ _ _ ?. unfold INT_MIN in *. lia.
  - rewrite (bool_decide_eq_false_2 (Some (title old) = Some t)) by congruence.
    simpl. destruct (decide (title_taken db t)) as [Htaken|Hfree].
    + rewrite bool_decide_eq_true_2 by done. simpl.
      split; [split; [intros _|by eauto]|].
      * right. left. split; [congruence|done].
      * split; [done|]. intros ? [= <-] [|]; done.
    + rewrite bool_decide_eq_false_2 by done.
      destruct (int4 q) eqn:Hint; simpl.
      * apply int4_le in Hint. destruct (varchar 255 t) as [t'|] eqn:Ht; simpl.
        -- destruct (0 <=? q) eqn:H0; simpl.
           ++ apply Z.leb_le in H0. split; [|split; [done|]].
              ** split; [by intros [err Herr]|].
                 intros [|[[]|[|[|]]]]; try done; lia.
              ** intros ? [= <-] _ Hfit _. rewrite varchar_fits in Ht by done.
                 by injection Ht as <-.
           ++ apply Z.leb_gt in H0. split; [split; eauto 6|]. split; [done|].
              intros; lia.
        -- split; [split; eauto|]. split; [done|].
           intros ? _ _ Hfit _. by rewrite varchar_fits in Ht.
      * assert (¬ (INT_MIN ≤ q ≤ INT_MAX)) as Hout
          by (rewrite <- int4_le; congruence).
        split; [split; [intros _|by eauto]|].
        -- unfold INT_MIN, INT_MAX in *. lia.
        -- split; [done|]. intros ? _ _ _ ?. unfold INT_MIN in *. lia.
Qed.

Lemma referenced_user db userId :
  map_Exists (λ _ r, user_id r = userId) (book_borrows db) ↔
  ∃ i r, book_borrows db !! i = Some r ∧ user_id r = userId.
Proof. done. Qed.

Lemma referenced_book db bookId :
  map_Exists (λ _ r, book_id r = bookId) (book_borrows db) ↔
  ∃ i r, book_borrows db !! i = Some r ∧ book_id r = bookId.
Proof. done. Qed.

(** X11. [DeleteUser] on an id no user has returns the error of
    [UserExist]; on a user that a borrow row refers to, returned or not, it
    returns "Error deleting user" with the store's foreign-key error; in
    both cases the store is as before. On any other user it returns no error
    and removes the row, so that [UserExist] then returns an error. *)
Theorem DeleteUser_deletes db userId :
  (users db !! userId = None →
   DeleteUser userId db =
   (inl (AppError ["userService - userExist,"; "userService - DeleteUser,"]
           ("User with id " +:+ pretty userId +:+ " does not exist") None),
    db)) ∧
  (is_Some (users db !! userId) →
   (∃ i r, book_borrows db !! i = Some r ∧ user_id r = userId) →
   DeleteUser userId db =
   (inl (AppError ["userService - DeleteUser,"] "Error deleting user"
           (Some (PgError "23503"))), db)) ∧
  (is_Some (users db !! userId) →
   (∀ i r, book_borrows db !! i = Some r → user_id r ≠ userId) →
   DeleteUser userId db = (inr (), set_users (delete userId) db) ∧
   ∃ err, (UserExist userId (DeleteUser userId db).2).1 = inl err).
Proof.
  rewrite DeleteUser_eq. split; [|split].
  - intros Hnone. rewrite bool_decide_eq_false_2; [done|].
    rewrite Hnone. by intros [? ?].
  - intros Hsome Href. rewrite bool_decide_eq_true_2 by done.
    by rewrite bool_decide_eq_true_2 by by apply referenced_user.
  - intros Hsome Href. rewrite bool_decide_eq_true_2 by done.
    rewrite bool_decide_eq_false_2.
    2:{ intros (i & r & Hl & Hu)%referenced_user. by apply (Href i r). }
    split; [done|]. rewrite UserExist_eq. simpl.
    rewrite bool_decide_eq_false_2; [by eexists|].
    rewrite lookup_delete_eq. by intros [? ?].
Qed.

(** X12. [DeleteBook] does not look the id up first: on an id no book has
    it returns no error and the store is as before. On a book that a borrow
    row refers to, returned or not, it returns the store's foreign-key
    error, wrapped, and the store is as before. On any other book it
    returns no error and removes the row. *)
Theorem DeleteBook_deletes db bookId :
  (books db !! bookId = None → DeleteBook bookId db = (inr (), db)) ∧
  (is_Some (books db !! bookId) →
   (∃ i r, book_borrows db !! i = Some r ∧ book_id r = bookId) →
   DeleteBook bookId db =
   (inl (AppError ["bookService - DeleteBook"] "ERROR: (SQLSTATE 23503)"
           (Some (PgError "23503"))), db)) ∧
  (is_Some (books db !! bookId) →
   (∀ i r, book_borrows db !! i = Some r → book_id r ≠ bookId) →
   DeleteBook bookId db = (inr (), set_books (delete bookId) db) ∧
   books (DeleteBook bookId db).2 !! bookId = None).
Proof.
  rewrite DeleteBook_eq. split; [|split].
  - intros Hnone. rewrite bool_decide_eq_false_2 by (rewrite Hnone; by intros [? ?]).
    simpl. f_equal. destruct db. unfold set_books. simpl in *. f_equal.
    by apply delete_id.
  - intros Hsome Href. rewrite bool_decide_eq_true_2 by done.
    by rewrite bool_decide_eq_true_2 by by apply referenced_book.
  - intros Hsome Href. rewrite bool_decide_eq_true_2 by done.
    rewrite bool_decide_eq_false_2.
    2:{ intros (i & r & Hl & Hu)%referenced_book. by apply (Href i r). }
    simpl. split; [done|]. apply lookup_delete_eq.
Qed.

(** ** Borrowing and returning *)

Lemma BorrowBook_ok db bookId userId t q :
  store_inv db →
  books db !! bookId = Some {| title := t; quantity := q |} →
  0 < q →
  is_Some (users db !! userId) →
  not_borrowed db bookId userId →
  BorrowBook bookId userId db =
  (inr (),
   {| users := users db;
      books := <[bookId := {| title := t; quantity := q - 1 |}]> (books db);
      book_borrows :=
        <[book_borrows_id_seq db + 1 :=
            {| user_id := userId; book_id := bookId;
               borrow_date := Some (clock db); return_date := None |}]>
          (book_borrows db);
      users_id_seq := users_id_seq db;
      books_id_seq := books_id_seq db;
      book_borrows_id_seq := book_borrows_id_seq db + 1;
      clock := clock db + 1 |}).
Proof.
  intros Hinv Hbook Hq Huser Hnone.
  assert (book_borrows db !! (book_borrows_id_seq db + 1) = None) as Hfresh.
  { destruct (book_borrows db !! _) as [r|] eqn:Hl; [|done].
    apply (inv_ids db Hinv) in Hl. lia. }
  rewrite BorrowBook_eq. cbv zeta. rewrite Hbook. simpl.
  rewrite bool_decide_eq_false_2 by lia.
  rewrite bool_decide_eq_true_2 by done.
  rewrite bool_decide_eq_false_2.
  2:{ intros (i & r & Hl & [Hact _]%borrowed_by_active). by apply (Hnone i r). }
  unfold BorrowBook_writes, bind, or_return, INSERT_INTO_book_borrows. simpl.
  rewrite !bool_decide_eq_true_2 by eauto. simpl. rewrite Hfresh.
  unfold UPDATE_books_SET_quantity_minus_1, UPDATE_books_SET_quantity. simpl.
  rewrite Hbook. simpl.
  pose proof (inv_int4 db Hinv bookId _ Hbook) as Hmax. simpl in Hmax.
  assert (int4 (q + -1) = true) as -> by (apply int4_le; unfold INT_MIN; lia).
  assert ((0 <=? q + -1) = true) as -> by (apply Z.leb_le; lia).
  done.
Qed.

Lemma ReturnBook_ok db bookId userId i r t q :
  store_inv db →
  book_borrows db !! i = Some r →
  active bookId userId r →
  books db !! bookId = Some {| title := t; quantity := q |} →
  q < INT_MAX →
  ReturnBook bookId userId db =
  (inr (),
   {| users := users db;
      books := <[bookId := {| title := t; quantity := q + 1 |}]> (books db);
      book_borrows := <[i := SET_return_date (clock db) r]> (book_borrows db);
      users_id_seq := users_id_seq db;
      books_id_seq := books_id_seq db;
      book_borrows_id_seq := book_borrows_id_seq db;
      clock := clock db + 1 |}).
Proof.
  intros Hinv Hl Hact Hbook Hq. rewrite ReturnBook_eq.
  rewrite bool_decide_eq_true_2.
  2:{ exists i, r. split; [done|]. apply borrowed_by_active. split; [done|].
      by eapply inv_borrow_dates. }
  unfold ReturnBook_writes, bind, or_return,
    UPDATE_book_borrows_SET_return_date. simpl.
  rewrite (one_active_update db bookId userId i r (clock db))
    by (done || by apply inv_one_active).
  rewrite bool_decide_eq_true_2
    by (apply unique_borrow_return;
        [by apply inv_unique|by apply inv_dates|done]).
  unfold UPDATE_books_SET_quantity_plus_1, UPDATE_books_SET_quantity. simpl.
  rewrite Hbook. simpl.
  pose proof (inv_nonneg db Hinv bookId _ Hbook) as Hmin. simpl in Hmin.
  assert (int4 (q + 1) = true) as -> by (apply int4_le; unfold INT_MIN; lia).
  assert ((0 <=? q + 1) = true) as -> by (apply Z.leb_le; lia).
  done.
Qed.

(** At the largest [INT] the return marks the row and fails on the
    quantity. *)
Lemma ReturnBook_full db bookId userId i r t :
  store_inv db →
  book_borrows db !! i = Some r →
  active bookId userId r →
  books db !! bookId = Some {| title := t; quantity := INT_MAX |} →
  ReturnBook bookId userId db =
  (inl (Wrap "bookService - ReturnBook" (PgError numeric_value_out_of_range)),
   set_book_borrows <[i := SET_return_date (clock db) r]> (NOW db).2).
Proof.
  intros Hinv Hl Hact Hbook. rewrite ReturnBook_eq.
  rewrite bool_decide_eq_true_2.
  2:{ exists i, r. split; [done|]. apply borrowed_by_active. split; [done|].
      by eapply inv_borrow_dates. }
  unfold ReturnBook_writes, bind, or_return,
    UPDATE_book_borrows_SET_return_date. simpl.
  rewrite (one_active_update db bookId userId i r (clock db))
    by (done || by apply inv_one_active).
  rewrite bool_decide_eq_true_2
    by (apply unique_borrow_return;
        [by apply inv_unique|by apply inv_dates|done]).
  unfold UPDATE_books_SET_quantity_plus_1, UPDATE_books_SET_quantity. simpl.
  by rewrite Hbook.
Qed.

(** X13. In a store state, [BorrowBook] returns no error exactly when the
    book exists with a quantity above 0, the user exists, and the pair has
    no borrow row without a return date. *)
Theorem BorrowBook_succeeds_exactly_when db bookId userId :
  store_inv db →
  (BorrowBook bookId userId db).1 = inr () ↔
  (∃ r, books db !! bookId = Some r ∧ 0 < quantity r) ∧
  is_Some (users db !! userId) ∧
  not_borrowed db bookId userId.
Proof.
  intros Hinv. split.
  - rewrite BorrowBook_eq. cbv zeta.
    destruct (books db !! bookId) as [r|]; [|done].
    destruct (bool_decide (quantity r ≤ 0)) eqn:Hq; [done|].
    apply bool_decide_eq_false in Hq.
    destruct (bool_decide (is_Some _)) eqn:Hu; [|done].
    apply bool_decide_eq_true in Hu.
    destruct (bool_decide (∃ i r0, _)) eqn:Hrow; [done|].
    apply bool_decide_eq_false in Hrow. intros _.
    split; [exists r; split; [done|lia]|]. split; [done|].
    apply no_row_borrowed_by; [by apply inv_borrow_dates|done].
  - intros ([[t q] [Hbook Hq]] & Huser & Hnone).
    by erewrite BorrowBook_ok.
Qed.

Lemma BorrowBook_succeeds_exactly_when_witness :
  (BorrowBook 1 1 library).1 = inr () ↔
  (∃ r, books library !! 1 = Some r ∧ 0 < quantity r) ∧
  is_Some (users library !! 1) ∧
  not_borrowed library 1 1.
Proof.
  apply (BorrowBook_succeeds_exactly_when library 1 1).
  apply (bool_decide_unpack _). by vm_compute.
Defined.

(** X14. The first two checks of [BorrowBook], on any store. When no book
    has the id, it returns the wrapped "no rows in result set" of pgx, also
    when no user has the user id. When the book has copies and no user has
    the id, it returns the error of [UserExist] with its own name added to
    the stack. The store is as before. *)
Theorem BorrowBook_missing db bookId userId :
  (books db !! bookId = None →
   BorrowBook bookId userId db =
   (inl (AppError ["bookService - BorrowBook"] "no rows in result set"
           (Some ErrNoRows)), db)) ∧
  (∀ r, books db !! bookId = Some r → 0 < quantity r →
   users db !! userId = None →
   BorrowBook bookId userId db =
   (inl (AppError ["userService - userExist,"; "bookService - BorrowBook"]
           ("User with id " +:+ pretty userId +:+ " does not exist") None),
    db)).
Proof.
  rewrite BorrowBook_eq. cbv zeta. split.
  - by intros ->.
  - intros r -> Hq Hnone. rewrite bool_decide_eq_false_2 by lia.
    rewrite bool_decide_eq_false_2; [done|]. rewrite Hnone. by intros [? ?].
Qed.

(** X15. In a store state, [ReturnBook] returns no error exactly when the
    pair has a borrow row without a return date and the quantity of the
    book is below the largest [INT]. *)
Theorem ReturnBook_succeeds_exactly_when db bookId userId :
  store_inv db →
  (ReturnBook bookId userId db).1 = inr () ↔
  (∃ i r, book_borrows db !! i = Some r ∧ active bookId userId r) ∧
  (∃ b, books db !! bookId = Some b ∧ quantity b < INT_MAX).
Proof.
  intros Hinv. split.
  - intros Hok.
    assert (∃ i r, book_borrows db !! i = Some r ∧
                   borrowed_by bookId userId r = true)
      as (i & r & Hl & [Hact _]%borrowed_by_active).
    { rewrite ReturnBook_eq in Hok.
      destruct (bool_decide (∃ i r, _)) eqn:Hrow; [|done].
      by apply bool_decide_eq_true in Hrow. }
    destruct (inv_references db Hinv i r Hl) as [_ [[t q] Hbook]].
    pose proof Hact as (Hb & Hu & Hret). rewrite Hb in Hbook.
    destruct (decide (q < INT_MAX)) as [Hq|Hq].
    + split; [by exists i, r|]. by eexists.
    + pose proof (inv_int4 db Hinv bookId _ Hbook) as Hmax. simpl in Hmax.
      assert (q = INT_MAX) as -> by lia.
      by erewrite (ReturnBook_full db bookId userId i r) in Hok.
  - intros [(i & r & Hl & Hact) [[t q] [Hbook Hq]]].
    by erewrite ReturnBook_ok.
Qed.

Lemma ReturnBook_succeeds_exactly_when_witness :
  (ReturnBook 1 1 library_borrowed).1 = inr () ↔
  (∃ i r, book_borrows library_borrowed !! i = Some r ∧ active 1 1 r) ∧
  (∃ b, books library_borrowed !! 1 = Some b ∧ quantity b < INT_MAX).
Proof.
  apply (ReturnBook_succeeds_exactly_when library_borrowed 1 1).
  apply (bool_decide_unpack _). by vm_compute.
Defined.

(** X16. In a store state where the book has copies, the user exists and
    the pair has no open borrow, a borrow followed by the return of the same
    pair returns no error twice and leaves the users and the books as they
    were, the quantity included; the borrow table has one more row, with the
    date of the borrow and the date of the return, and the pair can borrow
    again. *)
Theorem BorrowBook_then_ReturnBook db bookId userId t q :
  store_inv db →
  books db !! bookId = Some {| title := t; quantity := q |} →
  0 < q →
  is_Some (users db !! userId) →
  not_borrowed db bookId userId →
  let id := book_borrows_id_seq db + 1 in
  let db' := (ReturnBook bookId userId (BorrowBook bookId userId db).2).2 in
  (BorrowBook bookId userId db).1 = inr () ∧
  (ReturnBook bookId userId (BorrowBook bookId userId db).2).1 = inr () ∧
  users db' = users db ∧
  books db' = books db ∧
  book_borrows db' =
    <[id := {| user_id := userId; book_id := bookId;
               borrow_date := Some (clock db);
               return_date := Some (clock db + 1) |}]> (book_borrows db) ∧
  book_borrows db !! id = None ∧
  not_borrowed db' bookId userId.
Proof.
  intros Hinv Hbook Hq Huser Hnone id db'.
  pose proof (BorrowBook_inv bookId userId db Hinv) as Hinv1.
  assert (book_borrows db !! id = None) as Hfresh.
  { destruct (book_borrows db !! id) as [r|] eqn:Hl; [|done].
    apply (inv_ids db Hinv) in Hl. unfold id in Hl. lia. }
  pose proof (inv_int4 db Hinv bookId _ Hbook) as Hmax. simpl in Hmax.
  subst db'. revert Hinv1.
  rewrite (BorrowBook_ok db bookId userId t q) by done. simpl. intros Hinv1.
  erewrite (ReturnBook_ok _ bookId userId id _ t (q - 1));
    [|done|simpl; apply lookup_insert_eq|done|simpl; apply lookup_insert_eq|lia].
  simpl. fold id. rewrite !insert_insert_eq.
  replace (q - 1 + 1) with q by lia.
  split; [done|]. split; [done|]. split; [done|].
  split; [by apply insert_id|]. split; [done|]. split; [done|].
  intros i r. simpl. intros [[<- <-]|[Hne Hl]]%lookup_insert_Some.
  - by intros (_ & _ & ?).
  - by apply (Hnone i r).
Qed.

Lemma BorrowBook_then_ReturnBook_witness :
  (BorrowBook 1 1 library).1 = inr () ∧
  (ReturnBook 1 1 (BorrowBook 1 1 library).2).1 = inr () ∧
  users (ReturnBook 1 1 (BorrowBook 1 1 library).2).2 = users library ∧
  books (ReturnBook 1 1 (BorrowBook 1 1 library).2).2 = books library ∧
  book_borrows (ReturnBook 1 1 (BorrowBook 1 1 library).2).2 =
    <[1 := {| user_id := 1; book_id := 1; borrow_date := Some 0;
              return_date := Some 1 |}]> (book_borrows library) ∧
  book_borrows library !! 1 = None ∧
  not_borrowed (ReturnBook 1 1 (BorrowBook 1 1 library).2).2 1 1.
Proof.
  apply (BorrowBook_then_ReturnBook library 1 1 "Fellowship of the Ring" 5).
  - apply (bool_decide_unpack _). by vm_compute.
  - reflexivity.
  - lia.
  - eexists. reflexivity.
  - apply (bool_decide_unpack _). by vm_compute.
Defined.

(** ** Calls that return an error *)

(** A statement that returned an error left the rows as they were. *)
Lemma INSERT_INTO_users_rows first last db :
  returned (INSERT_INTO_users first last db) ≠ None →
  same_rows db (INSERT_INTO_users first last db).2.
Proof.
  unfold INSERT_INTO_users, returned. simpl.
  destruct (varchar 100 first), (varchar 100 last); try done.
  by destruct (users db !! _).
Qed.

Lemma INSERT_INTO_books_rows t q db :
  returned (INSERT_INTO_books t q db) ≠ None →
  same_rows db (INSERT_INTO_books t q db).2.
Proof.
  unfold INSERT_INTO_books, returned.
  destruct (int4 q); [|done]. simpl. destruct (varchar 255 t); [|done].
  destruct (0 <=? q); [|done]. simpl. by destruct (books db !! _).
Qed.

Lemma UPDATE_books_rows t q bookId db :
  returned (UPDATE_books t q bookId db) ≠ None →
  (UPDATE_books t q bookId db).2 = db.
Proof.
  unfold UPDATE_books, returned.
  destruct (int4 q); [|done]. simpl. destruct (varchar 255 t); [|done].
  destruct (books db !! bookId); [|done]. by destruct (0 <=? q).
Qed.

Lemma returned_or_return {A : Type} (m : Stmt A) handler db :
  returned ((m ?? handler) db) = handler <$> returned (m db).
Proof. unfold returned, or_return. by destruct (m db) as [[err|a] db']. Qed.

Lemma after_or_return {A : Type} (m : Stmt A) handler db :
  ((m ?? handler) db).2 = (m db).2.
Proof. unfold or_return. by destruct (m db) as [[err|a] db']. Qed.

(** The methods that only read return the store they were given. *)
Lemma AllBorrowedBooks_store db : (AllBorrowedBooks db).2 = db.
Proof.
  unfold AllBorrowedBooks, bind, or_return, Query, lift.
  by destruct (scan_rows _ _ _).
Qed.

Lemma same_rows_refl db : same_rows db db.
Proof. by split. Qed.

(** X17. In a store state, a call that returns an error leaves every row of
    the three tables as it was, whichever of the fifteen methods it is,
    unless it is a [ReturnBook] of a book whose quantity is the largest
    [INT]. So no method needs a transaction to be all-or-nothing but
    [ReturnBook]. *)
Theorem failed_call_keeps_rows c db err :
  store_inv db →
  outcome c db = Some err →
  ¬ return_at_max c db →
  same_rows db (after c db).
Proof.
  intros Hinv Hout Hmax. destruct c; simpl in *.
  - revert Hout. rewrite CreateUser_eq. cbv zeta.
    destruct (bool_decide (name_taken db _ _)); [by intros _|].
    rewrite returned_or_return, after_or_return. intros Hret.
    apply INSERT_INTO_users_rows. by destruct (returned _).
  - rewrite GetUser_eq. apply same_rows_refl.
  - rewrite GetAllUsers_eq. apply same_rows_refl.
  - revert Hout. rewrite UpdateUser_eq. cbv zeta.
    destruct (bool_decide (is_Some _)); [|by intros _].
    destruct (bool_decide (name_taken db _ _)); [by intros _|].
    by destruct (varchar 100 (user.FirstName updateUser)),
      (varchar 100 (user.LastName updateUser)).
  - revert Hout. rewrite DeleteUser_eq.
    destruct (bool_decide (is_Some _)); [|by intros _].
    by destruct (bool_decide (map_Exists _ _)).
  - rewrite UserExist_eq. apply same_rows_refl.
  - revert Hout. rewrite CreateBook_eq.
    destruct (bool_decide (title_taken db _)); [by intros _|].
    rewrite returned_or_return, after_or_return. intros Hret.
    apply INSERT_INTO_books_rows. by destruct (returned _).
  - rewrite GetBook_eq. apply same_rows_refl.
  - rewrite GetAllBooks_eq. apply same_rows_refl.
  - revert Hout. rewrite UpdateBook_eq. cbv zeta.
    destruct (bool_decide (is_Some _)); [|by intros _].
    destruct (_ && _); [by intros _|].
    rewrite returned_or_return, after_or_return. intros Hret.
    rewrite UPDATE_books_rows; [apply same_rows_refl|].
    by destruct (returned _).
  - revert Hout. rewrite DeleteBook_eq. by destruct (_ && _).
  - rewrite GetAvailableBooks_eq. apply same_rows_refl.
  - rewrite AllBorrowedBooks_store. apply same_rows_refl.
  - destruct (books db !! bookId) as [[t q]|] eqn:Hbook.
    2:{ rewrite BorrowBook_eq. cbv zeta. rewrite Hbook. apply same_rows_refl. }
    destruct (decide (q ≤ 0)) as [Hq|Hq].
    { rewrite BorrowBook_eq. cbv zeta. rewrite Hbook.
      rewrite bool_decide_eq_true_2 by done. apply same_rows_refl. }
    destruct (decide (is_Some (users db !! userId))) as [Hu|Hu].
    2:{ rewrite BorrowBook_eq. cbv zeta. rewrite Hbook.
        rewrite bool_decide_eq_false_2 by done.
        rewrite bool_decide_eq_false_2 by done. apply same_rows_refl. }
    destruct (decide (∃ i r, book_borrows db !! i = Some r ∧
                             borrowed_by bookId userId r = true)) as [Hrow|Hrow].
    { rewrite BorrowBook_eq. cbv zeta. rewrite Hbook.
      rewrite bool_decide_eq_false_2 by done.
      rewrite bool_decide_eq_true_2 by done.
      rewrite bool_decide_eq_true_2 by done. apply same_rows_refl. }
    apply no_row_borrowed_by in Hrow; [|by apply inv_borrow_dates].
    rewrite (BorrowBook_ok db bookId userId t q) in Hout by (done || lia).
    done.
  - destruct (decide (∃ i r, book_borrows db !! i = Some r ∧
                             borrowed_by bookId userId r = true))
      as [(i & r & Hl & [Hact _]%borrowed_by_active)|Hrow].
    2:{ rewrite ReturnBook_eq. rewrite bool_decide_eq_false_2 by done.
        apply same_rows_refl. }
    destruct (inv_references db Hinv i r Hl) as [_ [[t q] Hbook]].
    pose proof Hact as (Hb & _). rewrite Hb in Hbook.
    pose proof (inv_int4 db Hinv bookId _ Hbook) as Hle. simpl in Hle.
    rewrite Hbook in Hmax. simpl in Hmax.
    rewrite (ReturnBook_ok db bookId userId i r t q) in Hout; [done..|].
    destruct (decide (q = INT_MAX)) as [->|]; [done|lia].
Qed.

Lemma failed_call_keeps_rows_witness :
  same_rows library_borrowed (after (CallDeleteUser 1) library_borrowed).
Proof.
  apply (failed_call_keeps_rows (CallDeleteUser 1) library_borrowed
           (AppError ["userService - DeleteUser,"] "Error deleting user"
              (Some (PgError "23503")))).
  - apply (bool_decide_unpack _). by vm_compute.
  - reflexivity.
  - apply (bool_decide_unpack _). by vm_compute.
Defined.

Lemma Wrap_last f err :
  ∃ stack msg cause, Wrap f err = AppError (stack ++ [f])%list msg cause.
Proof.
  destruct err as [| |fields dests| | |code|stack msg cause]; simpl;
    [by eexists [], _, _..|].
  by exists stack, msg, cause.
Qed.

Lemma New_last f msg cause :
  ∃ stack msg' cause', New f msg cause = AppError (stack ++ [f])%list msg' cause'.
Proof. by exists [], msg, cause. Qed.

Lemma returned_Wrap_last {A : Type} (m : Stmt A) f db err :
  returned ((m ?? Wrap f) db) = Some err →
  ∃ stack msg cause, err = AppError (stack ++ [f])%list msg cause.
Proof.
  rewrite returned_or_return. destruct (returned (m db)) as [e|]; [|done].
  intros [= <-]. apply Wrap_last.
Qed.

(** The error of a call, method by method. *)
Lemma outcome_AppError c db err :
  outcome c db = Some err →
  ∃ stack msg cause, err = AppError (stack ++ [funcName c])%list msg cause.
Proof.
  destruct c; simpl.
  - rewrite CreateUser_eq. cbv zeta.
    destruct (bool_decide (name_taken db _ _)).
    + intros [= <-]. by eexists [_], _, _.
    + apply returned_Wrap_last.
  - rewrite GetUser_eq. destruct (users db !! userId); [done|].
    intros [= <-]. by eexists [], _, _.
  - by rewrite GetAllUsers_eq.
  - rewrite UpdateUser_eq. cbv zeta.
    destruct (bool_decide (is_Some _)).
    + destruct (bool_decide (name_taken db _ _)).
      * intros [= <-]. by eexists [_], _, _.
      * destruct (varchar 100 (user.FirstName updateUser)),
          (varchar 100 (user.LastName updateUser)); try done;
          intros [= <-]; by eexists [], _, _.
    + intros [= <-]. by eexists [_], _, _.
  - rewrite DeleteUser_eq. destruct (bool_decide (is_Some _)).
    + destruct (bool_decide (map_Exists _ _)); [|done].
      intros [= <-]. by eexists [], _, _.
    + intros [= <-]. by eexists [_], _, _.
  - rewrite UserExist_eq. destruct (bool_decide (is_Some _)); [done|].
    intros [= <-]. by eexists [], _, _.
  - rewrite CreateBook_eq. destruct (bool_decide (title_taken db _)).
    + intros [= <-]. by eexists [_], _, _.
    + apply returned_Wrap_last.
  - rewrite GetBook_eq. destruct (books db !! bookId); [done|].
    intros [= <-]. by eexists [], _, _.
  - by rewrite GetAllBooks_eq.
  - rewrite UpdateBook_eq. cbv zeta. destruct (bool_decide (is_Some _)).
    + destruct (_ && _).
      * intros [= <-]. by eexists [_], _, _.
      * apply returned_Wrap_last.
    + intros [= <-]. by eexists [_], _, _.
  - rewrite DeleteBook_eq. destruct (_ && _); [|done].
    intros [= <-]. by eexists [], _, _.
  - by rewrite GetAvailableBooks_eq.
  - unfold AllBorrowedBooks, bind, or_return, Query, lift, returned. simpl.
    destruct (scan_rows _ _ _) as [e|l]; [|done]. simpl.
    intros [= <-]. apply Wrap_last.
  - rewrite BorrowBook_eq. cbv zeta. destruct (books db !! bookId) as [r|].
    2:{ intros [= <-]. by eexists [], _, _. }
    destruct (bool_decide (quantity r ≤ 0)).
    { intros [= <-]. by eexists [], _, _. }
    destruct (bool_decide (is_Some _)).
    2:{ intros [= <-]. by eexists [_], _, _. }
    destruct (bool_decide (∃ i r0, _)).
    { intros [= <-]. by eexists [], _, _. }
    unfold BorrowBook_writes, bind, returned.
    destruct ((INSERT_INTO_book_borrows bookId userId ?? _) db)
      as [[e|[]] db1] eqn:Hins.
    + intros [= <-].
      apply (returned_Wrap_last (INSERT_INTO_book_borrows bookId userId) _ db).
      unfold returned. by rewrite Hins.
    + destruct ((UPDATE_books_SET_quantity_minus_1 bookId ?? _) db1)
        as [[e|[]] db2] eqn:Hupd; [|done].
      intros [= <-].
      apply (returned_Wrap_last (UPDATE_books_SET_quantity_minus_1 bookId) _ db1).
      unfold returned. by rewrite Hupd.
  - rewrite ReturnBook_eq. destruct (bool_decide (∃ i r, _)).
    2:{ intros [= <-]. by eexists [], _, _. }
    unfold ReturnBook_writes, bind, returned.
    destruct ((UPDATE_book_borrows_SET_return_date bookId userId ?? _) db)
      as [[e|[]] db1] eqn:Hupd1.
    + intros [= <-].
      apply (returned_Wrap_last
               (UPDATE_book_borrows_SET_return_date bookId userId) _ db).
      unfold returned. by rewrite Hupd1.
    + destruct ((UPDATE_books_SET_quantity_plus_1 bookId ?? _) db1)
        as [[e|[]] db2] eqn:Hupd2; [|done].
      intros [= <-].
      apply (returned_Wrap_last (UPDATE_books_SET_quantity_plus_1 bookId) _ db1).
      unfold returned. by rewrite Hupd2.
Qed.

(** X18. Every error a method of the three services returns is an
    application error whose stack of function names ends with the name of
    the method, whatever the store: an error of a check it called has the
    name added, and an error of pgx or of the store is wrapped or given as
    the cause of a new one. *)
Theorem errors_end_with_funcName c db err :
  outcome c db = Some err →
  ∃ stack msg cause, err = AppError (stack ++ [funcName c])%list msg cause.
Proof. apply outcome_AppError. Qed.

Lemma errors_end_with_funcName_witness :
  ∃ stack msg cause,
    AppError ["userService - userExist,"; "bookService - BorrowBook"]
      "User with id 7 does not exist" None =
    AppError (stack ++ ["bookService - BorrowBook"])%list msg cause.
Proof.
  apply (errors_end_with_funcName (CallBorrowBook 1 7) library).
  reflexivity.
Defined.

(** ** What every store the service brings about satisfies *)

Ltac stmt_unfold :=
  unfold INSERT_INTO_users, UPDATE_users, DELETE_FROM_users,
    INSERT_INTO_books, UPDATE_books, DELETE_FROM_books,
    UPDATE_books_SET_quantity_minus_1, UPDATE_books_SET_quantity_plus_1,
    UPDATE_books_SET_quantity, INSERT_INTO_book_borrows,
    UPDATE_book_borrows_SET_return_date; simpl.

Ltac keys_stmt :=
  let db := fresh "db" in
  let Hu := fresh "Hu" in
  let Hb := fresh "Hb" in
  let Hbb := fresh "Hbb" in
  let Hl := fresh "Hl" in
  let i := fresh "i" in
  let r := fresh "r" in
  intros db (Hu & Hb & Hbb & ? & ? & ?); stmt_unfold;
  repeat (case_match; simpl); try done;
  (split_and!; simpl; try lia; try done);
  intros i r Hl;
  try (apply mk_is_Some in Hl; rewrite lookup_alter_is_Some in Hl;
       destruct Hl as [? Hl]);
  repeat first
    [ apply lookup_insert_Some in Hl as [[<- <-]|[_ Hl]]
    | apply lookup_delete_Some in Hl as [_ Hl]
    | rewrite lookup_fmap in Hl; apply fmap_Some in Hl as (? & Hl & _) ];
  try lia;
  match goal with
  | H : _ !! _ = Some _ |- _ =>
      first [ apply Hu in H; lia | apply Hb in H; lia | apply Hbb in H; lia ]
  end.

Lemma INSERT_INTO_users_keys first last :
  preserves keys_in_sequence (INSERT_INTO_users first last).
Proof. keys_stmt. Qed.

Lemma UPDATE_users_keys first last userId :
  preserves keys_in_sequence (UPDATE_users first last userId).
Proof. keys_stmt. Qed.

Lemma DELETE_FROM_users_keys userId :
  preserves keys_in_sequence (DELETE_FROM_users userId).
Proof. keys_stmt. Qed.

Lemma INSERT_INTO_books_keys t q :
  preserves keys_in_sequence (INSERT_INTO_books t q).
Proof. keys_stmt. Qed.

Lemma UPDATE_books_keys t q bookId :
  preserves keys_in_sequence (UPDATE_books t q bookId).
Proof. keys_stmt. Qed.

Lemma DELETE_FROM_books_keys bookId :
  preserves keys_in_sequence (DELETE_FROM_books bookId).
Proof. keys_stmt. Qed.

Lemma UPDATE_books_SET_quantity_keys delta bookId :
  preserves keys_in_sequence (UPDATE_books_SET_quantity delta bookId).
Proof. keys_stmt. Qed.

Lemma INSERT_INTO_book_borrows_keys bookId userId :
  preserves keys_in_sequence (INSERT_INTO_book_borrows bookId userId).
Proof. keys_stmt. Qed.

Lemma UPDATE_book_borrows_SET_return_date_keys bookId userId :
  preserves keys_in_sequence (UPDATE_book_borrows_SET_return_date bookId userId).
Proof. keys_stmt. Qed.

(** Splits a method into its statements, which keep the keys. *)
Ltac keys_step :=
  first
    [ preserves_step
    | apply INSERT_INTO_users_keys | apply UPDATE_users_keys
    | apply DELETE_FROM_users_keys | apply INSERT_INTO_books_keys
    | apply UPDATE_books_keys | apply DELETE_FROM_books_keys
    | apply UPDATE_books_SET_quantity_keys
    | apply INSERT_INTO_book_borrows_keys
    | apply UPDATE_book_borrows_SET_return_date_keys ].

Ltac unfold_methods :=
  unfold CreateUser, GetUser, GetAllUsers, UpdateUser, DeleteUser,
    CreateBook, GetBook, GetAllBooks, UpdateBook, DeleteBook,
    GetAvailableBooks, AllBorrowedBooks, BorrowBook, ReturnBook,
    UPDATE_books_SET_quantity_minus_1, UPDATE_books_SET_quantity_plus_1.

Lemma after_keys c db : keys_in_sequence db → keys_in_sequence (after c db).
Proof.
  revert db. destruct c; simpl; intros db Hk;
    match goal with
    | |- keys_in_sequence (?m db).2 =>
        revert db Hk; change (preserves keys_in_sequence m)
    end;
    unfold_methods; repeat keys_step.
Qed.

(** A statement that does not write to [users] keeps what holds of the
    users. *)
Ltac frame_stmt :=
  let db := fresh "db" in
  let HP := fresh "HP" in
  intros db HP; stmt_unfold; repeat (case_match; simpl); exact HP.

Lemma INSERT_INTO_users_names first last :
  preserves names_fit (INSERT_INTO_users first last).
Proof.
  intros db Hfit. unfold INSERT_INTO_users. simpl.
  destruct (varchar 100 first) as [f|] eqn:Hf; [|done].
  destruct (varchar 100 last) as [l|] eqn:Hl; [|done].
  destruct (users db !! _); [done|]. simpl.
  apply varchar_length in Hf, Hl. unfold names_fit. simpl.
  intros i r [[<- <-]|[_ Hr]]%lookup_insert_Some; [done|]. by apply (Hfit i).
Qed.

Lemma UPDATE_users_names first last userId :
  preserves names_fit (UPDATE_users first last userId).
Proof.
  intros db Hfit. unfold UPDATE_users.
  destruct (varchar 100 first) as [f|] eqn:Hf; [|done].
  destruct (varchar 100 last) as [l|] eqn:Hl; [|done]. simpl.
  apply varchar_length in Hf, Hl. unfold names_fit. simpl.
  intros i r [[<- (old & _ & ->)]|[_ Hr]]%lookup_alter_Some; [done|].
  by apply (Hfit i).
Qed.

Lemma DELETE_FROM_users_names userId :
  preserves names_fit (DELETE_FROM_users userId).
Proof.
  intros db Hfit. unfold DELETE_FROM_users. destruct (_ && _); [done|].
  unfold names_fit. simpl.
  intros i r [_ Hr]%lookup_delete_Some. by apply (Hfit i).
Qed.

Ltac names_step :=
  first
    [ preserves_step
    | apply INSERT_INTO_users_names | apply UPDATE_users_names
    | apply DELETE_FROM_users_names | frame_stmt ].

Lemma after_names_fit c db : names_fit db → names_fit (after c db).
Proof.
  revert db. destruct c; simpl; intros db Hk;
    match goal with
    | |- names_fit (?m db).2 => revert db Hk; change (preserves names_fit m)
    end;
    unfold_methods; repeat names_step.
Qed.

Lemma reachable_keys db : reachable db → keys_in_sequence db ∧ names_fit db.
Proof.
  induction 1 as [|c db _ [IHk IHn]].
  - apply (bool_decide_unpack _). by vm_compute.
  - split; [by apply after_keys|by apply after_names_fit].
Qed.

(** X19. In every store the service brings about from the new database:
    the keys of the three tables are values their sequences handed out, from
    1 on; names and titles fit their columns; no quantity is above the
    largest [INT]; every borrow row refers to a user and to a book of the
    tables; no two borrow rows agree on user, book and a return date; every
    borrow row has its borrow date; and every date is before the clock. *)
Theorem reachable_integrity db :
  reachable db →
  keys_in_sequence db ∧ names_fit db ∧ titles_fit db ∧ quantity_int4 db ∧
  references db ∧ unique_borrow (book_borrows db) ∧ borrow_dates_set db ∧
  dates_in_past db.
Proof.
  intros Hreach. destruct (reachable_keys db Hreach) as [Hk Hn].
  destruct (reachable_store_inv db Hreach). by split_and!.
Qed.

Lemma reachable_integrity_witness :
  keys_in_sequence library_borrowed ∧ names_fit library_borrowed ∧
  titles_fit library_borrowed ∧ quantity_int4 library_borrowed ∧
  references library_borrowed ∧ unique_borrow (book_borrows library_borrowed) ∧
  borrow_dates_set library_borrowed ∧ dates_in_past library_borrowed.
Proof.
  apply (reachable_integrity library_borrowed).
  unfold library_borrowed, library. repeat apply reachable_after.
  apply reachable_new.
Defined.

(** ** Names and titles stay unique *)

Lemma names_unique_insert db id first last :
  names_unique db → ¬ name_taken db first last →
  names_unique
    (set_users <[id := {| first_name := first; last_name := last |}]> db).
Proof.
  intros Huniq Hfree. unfold names_unique. simpl.
  intros i r1 [[<- <-]|[Hi Hl1]]%lookup_insert_Some
    j r2 [[<- <-]|[Hj Hl2]]%lookup_insert_Some; simpl; try done.
  - intros Hf Hl. destruct Hfree. by exists j, r2.
  - intros Hf Hl. destruct Hfree. by exists i, r1.
  - by apply (Huniq i r1 Hl1 j r2 Hl2).
Qed.

Lemma DELETE_FROM_users_unique userId :
  preserves names_unique (DELETE_FROM_users userId).
Proof.
  intros db Huniq. unfold DELETE_FROM_users. destruct (_ && _); [done|].
  unfold names_unique. simpl.
  intros i r1 [_ Hl1]%lookup_delete_Some j r2 [_ Hl2]%lookup_delete_Some.
  by apply (Huniq i r1 Hl1 j r2 Hl2).
Qed.

Lemma CreateUser_unique newUser :
  fits (CallCreateUser newUser) → preserves names_unique (CreateUser newUser).
Proof.
  intros [Hf Hl] db Huniq. rewrite CreateUser_eq. cbv zeta.
  destruct (bool_decide (name_taken db _ _)) eqn:Htaken; [done|].
  apply bool_decide_eq_false in Htaken. rewrite after_or_return.
  unfold INSERT_INTO_users. simpl. rewrite !varchar_fits by done.
  destruct (users db !! _); [done|]. simpl.
  by apply (names_unique_insert db).
Qed.

Lemma UpdateUser_unique updateUser userId :
  fits (CallUpdateUser updateUser userId) →
  preserves names_unique (UpdateUser updateUser userId).
Proof.
  intros [Hf Hl] db Huniq. rewrite UpdateUser_eq. cbv zeta.
  destruct (bool_decide (is_Some _)) eqn:Hsome; [|done].
  apply bool_decide_eq_true in Hsome as [old Hold].
  destruct (bool_decide (name_taken db _ _)) eqn:Htaken; [done|].
  apply bool_decide_eq_false in Htaken.
  rewrite !varchar_fits by done. simpl. unfold set_users.
  erewrite alter_const by done. by apply (names_unique_insert db).
Qed.

Ltac names_unique_step :=
  first [ preserves_step | apply DELETE_FROM_users_unique | frame_stmt ].

Lemma after_names_unique c db :
  fits c → names_unique db → names_unique (after c db).
Proof.
  intros Hfits. revert db. destruct c; simpl; intros db Hk;
    match goal with
    | |- names_unique (?m db).2 =>
        revert db Hk; change (preserves names_unique m)
    end;
    [by apply CreateUser_unique| | |by apply UpdateUser_unique|..];
    unfold_methods; repeat names_unique_step.
Qed.

Lemma titles_unique_insert db id t q :
  titles_unique db →
  (∀ j r, books db !! j = Some r → title r = t → j = id) →
  titles_unique (set_books <[id := {| title := t; quantity := q |}]> db).
Proof.
  intros Huniq Hfree. unfold titles_unique. simpl.
  intros i r1 [[<- <-]|[Hi Hl1]]%lookup_insert_Some
    j r2 [[<- <-]|[Hj Hl2]]%lookup_insert_Some; simpl; try done.
  - intros Ht. symmetry. by apply (Hfree j r2).
  - intros Ht. by apply (Hfree i r1).
  - by apply (Huniq i r1 Hl1 j r2 Hl2).
Qed.

Lemma DELETE_FROM_books_unique bookId :
  preserves titles_unique (DELETE_FROM_books bookId).
Proof.
  intros db Huniq. unfold DELETE_FROM_books. destruct (_ && _); [done|].
  unfold titles_unique. simpl.
  intros i r1 [_ Hl1]%lookup_delete_Some j r2 [_ Hl2]%lookup_delete_Some.
  by apply (Huniq i r1 Hl1 j r2 Hl2).
Qed.

Lemma UPDATE_books_SET_quantity_unique delta bookId :
  preserves titles_unique (UPDATE_books_SET_quantity delta bookId).
Proof.
  intros db Huniq. unfold UPDATE_books_SET_quantity.
  destruct (books db !! bookId) as [r|] eqn:Hbook; [|done]. simpl.
  destruct (int4 _); [|done]. simpl. destruct (0 <=? _); [|done]. simpl.
  apply titles_unique_insert; [done|].
  intros j r' Hl Ht. by apply (Huniq j r' Hl bookId r Hbook).
Qed.

Lemma CreateBook_unique newBook :
  fits (CallCreateBook newBook) → preserves titles_unique (CreateBook newBook).
Proof.
  intros Hfit db Huniq. rewrite CreateBook_eq.
  destruct (bool_decide (title_taken db _)) eqn:Htaken; [done|].
  apply bool_decide_eq_false in Htaken. rewrite after_or_return.
  unfold INSERT_INTO_books. destruct (int4 _); [|done]. simpl.
  rewrite varchar_fits by done. destruct (0 <=? _); [|done]. simpl.
  destruct (books db !! _); [done|]. simpl.
  apply (titles_unique_insert (nextval_books db).2); [done|].
  intros j r Hl Ht. destruct Htaken. by exists j, r.
Qed.

Lemma UpdateBook_unique bookId updatedBook :
  fits (CallUpdateBook bookId updatedBook) →
  preserves titles_unique (UpdateBook bookId updatedBook).
Proof.
  intros Hfit db Huniq. rewrite UpdateBook_eq. cbv zeta.
  destruct (bool_decide (is_Some _)); [|done].
  destruct (bool_decide (_ <$> _ = _)) eqn:Hown; simpl.
  - apply bool_decide_eq_true in Hown. rewrite after_or_return.
    unfold UPDATE_books. destruct (int4 _); [|done]. simpl.
    rewrite varchar_fits by done.
    destruct (books db !! bookId) as [old|] eqn:Hbook; [|done].
    destruct (0 <=? _); [|done]. simpl.
    apply titles_unique_insert; [done|]. intros j r Hl Ht.
    apply (Huniq j r Hl bookId old Hbook). simpl in Hown. congruence.
  - destruct (bool_decide (title_taken db _)) eqn:Htaken; [done|].
    apply bool_decide_eq_false in Htaken. rewrite after_or_return.
    unfold UPDATE_books. destruct (int4 _); [|done]. simpl.
    rewrite varchar_fits by done.
    destruct (books db !! bookId) as [old|] eqn:Hbook; [|done].
    destruct (0 <=? _); [|done]. simpl.
    apply titles_unique_insert; [done|]. intros j r Hl Ht.
    destruct Htaken. by exists j, r.
Qed.

Ltac titles_unique_step :=
  first
    [ preserves_step | apply DELETE_FROM_books_unique
    | apply UPDATE_books_SET_quantity_unique | frame_stmt ].

Lemma after_titles_unique c db :
  fits c → titles_unique db → titles_unique (after c db).
Proof.
  intros Hfits. revert db. destruct c; simpl; intros db Hk;
    match goal with
    | |- titles_unique (?m db).2 =>
        revert db Hk; change (preserves titles_unique m)
    end;
    [| | | | | |by apply CreateBook_unique| | |by apply UpdateBook_unique|..];
    unfold_methods; repeat titles_unique_step.
Qed.

(** X20. The tables declare no name or title unique; the checks of the
    service keep them so, for calls whose names have at most 100 characters
    and whose titles at most 255: when no two users have the same first and
    last name and no two books the same title, that is still so after any
    sequence of such calls. *)
Theorem names_and_titles_stay_unique cs db :
  Forall fits cs → names_unique db → titles_unique db →
  names_unique (run cs db) ∧ titles_unique (run cs db).
Proof.
  intros Hfits. revert db.
  induction Hfits as [|c cs Hc _ IH]; intros db Hn Ht; [done|].
  simpl. apply IH; [by apply after_names_unique|by apply after_titles_unique].
Qed.

Lemma names_and_titles_stay_unique_witness :
  names_unique
    (run [CallCreateUser tine; CallCreateBook fellowship; CallCreateUser tine;
          CallUpdateBook 1 two_towers; CallBorrowBook 1 1]
       CreateTablesIfNotExist) ∧
  titles_unique
    (run [CallCreateUser tine; CallCreateBook fellowship; CallCreateUser tine;
          CallUpdateBook 1 two_towers; CallBorrowBook 1 1]
       CreateTablesIfNotExist).
Proof.
  apply (names_and_titles_stay_unique
           [CallCreateUser tine; CallCreateBook fellowship; CallCreateUser tine;
            CallUpdateBook 1 two_towers; CallBorrowBook 1 1]
           CreateTablesIfNotExist).
  - apply (bool_decide_unpack _). by vm_compute.
  - apply (bool_decide_unpack _). by vm_compute.
  - apply (bool_decide_unpack _). by vm_compute.
Defined.

(** ** A name with a space after its hundredth character *)

Lemma length_append_space s :
  String.length (s +:+ " ") = S (String.length s).
Proof. induction s as [|c s IH]; simpl; [done|]. by rewrite IH. Qed.

Lemma substring_append_space_tail s :
  String.substring (String.length s) 1 (s +:+ " ") = " ".
Proof. induction s as [|c s IH]; simpl; [done|]. by rewrite IH. Qed.

Lemma substring_append_space_head s :
  String.substring 0 (String.length s) (s +:+ " ") = s.
Proof. induction s as [|c s IH]; simpl; [done|]. by rewrite IH. Qed.

Lemma varchar_space n s :
  String.length s = n → varchar n (s +:+ " ") = Some s.
Proof.
  intros <-. unfold varchar. rewrite length_append_space.
  assert ((S (String.length s) <=? String.length s)%nat = false) as ->
    by (apply Nat.leb_gt; lia).
  replace (S (String.length s) - String.length s)%nat with 1%nat by lia.
  by rewrite substring_append_space_tail, substring_append_space_head.
Qed.

(** X21. Without the bound on the names that fails. In a store with a user
    whose first name has exactly 100 characters, [CreateUser] with that
    first name followed by a space, and the same last name, returns no
    error: the check looks for the name with the space, the column cuts the
    space off, and two users have the same first and last name. *)
Theorem CreateUser_trailing_space db i r newId :
  keys_in_sequence db → names_fit db →
  users db !! i = Some r →
  String.length (first_name r) = 100%nat →
  let newUser := {| user.ID := newId; user.FirstName := first_name r +:+ " ";
                    user.LastName := last_name r |} in
  let id := users_id_seq db + 1 in
  (CreateUser newUser db).1 = inr () ∧
  users (after (CallCreateUser newUser) db) !! id = Some r ∧
  users (after (CallCreateUser newUser) db) !! i = Some r ∧
  i ≠ id ∧
  ¬ names_unique (after (CallCreateUser newUser) db).
Proof.
  intros Hkeys Hfit Hi Hlen newUser id.
  pose proof (users_fresh db Hkeys) as Hfresh. fold id in Hfresh.
  assert (i ≠ id) as Hne by (intros ->; congruence).
  assert (CreateUser newUser db =
          (inr (), set_users <[id := r]> (nextval_users db).2)) as Hcreate.
  { rewrite CreateUser_eq. cbv zeta. simpl.
    rewrite bool_decide_eq_false_2.
    2:{ intros (j & r' & Hj & Hf & _). destruct (Hfit j r' Hj) as [Hle _].
        rewrite Hf, length_append_space in Hle. lia. }
    unfold or_return, INSERT_INTO_users. simpl.
    rewrite varchar_space by done.
    rewrite varchar_fits by (by destruct (Hfit i r Hi)).
    fold id. rewrite Hfresh. by destruct r. }
  simpl. rewrite Hcreate. simpl. split; [done|].
  split; [by rewrite lookup_insert_eq|].
  assert (<[id := r]> (users db) !! i = Some r) as Hi'
    by by rewrite lookup_insert_ne.
  split; [done|]. split; [done|].
  intros Huniq. apply Hne.
  apply (Huniq i r Hi' id r); [|done..]. simpl. by rewrite lookup_insert_eq.
Qed.

Lemma CreateUser_trailing_space_witness :
  (CreateUser {| user.ID := 0; user.FirstName := name_100 +:+ " ";
                 user.LastName := "Kokalj" |} full_name_library).1 = inr () ∧
  users (after (CallCreateUser
                  {| user.ID := 0; user.FirstName := name_100 +:+ " ";
                     user.LastName := "Kokalj" |}) full_name_library) !! 2 =
    Some {| first_name := name_100; last_name := "Kokalj" |} ∧
  users (after (CallCreateUser
                  {| user.ID := 0; user.FirstName := name_100 +:+ " ";
                     user.LastName := "Kokalj" |}) full_name_library) !! 1 =
    Some {| first_name := name_100; last_name := "Kokalj" |} ∧
  1 ≠ 2 ∧
  ¬ names_unique (after (CallCreateUser
                           {| user.ID := 0; user.FirstName := name_100 +:+ " ";
                              user.LastName := "Kokalj" |}) full_name_library).
Proof.
  apply (CreateUser_trailing_space full_name_library 1
           {| first_name := name_100; last_name := "Kokalj" |} 0).
  - apply (bool_decide_unpack _). by vm_compute.
  - apply (bool_decide_unpack _). by vm_compute.
  - reflexivity.
  - reflexivity.
Defined.

(** ** The borrow table is a history *)

Lemma INSERT_INTO_book_borrows_kept i r bookId userId :
  preserves (kept i r) (INSERT_INTO_book_borrows bookId userId).
Proof.
  intros db (r' & Hl & Hrest). unfold INSERT_INTO_book_borrows. simpl.
  destruct (negb _); [by exists r'|].
  destruct (book_borrows db !! (book_borrows_id_seq db + 1)) eqn:Hid; simpl;
    [by exists r'|].
  exists r'. simpl. split; [|done]. rewrite lookup_insert_ne; [done|].
  congruence.
Qed.

Lemma UPDATE_book_borrows_SET_return_date_kept i r bookId userId :
  preserves (kept i r) (UPDATE_book_borrows_SET_return_date bookId userId).
Proof.
  intros db (r' & Hl & Hu & Hb & Hd & Hret).
  unfold UPDATE_book_borrows_SET_return_date. simpl.
  destruct (bool_decide (unique_borrow _)); [|by exists r']. simpl.
  eexists. simpl. rewrite lookup_fmap, Hl. simpl. split; [done|].
  destruct (not_returned_by bookId userId r') eqn:Hnot; [|done].
  simpl. split_and!; try done. intros Hsome. specialize (Hret Hsome). subst r'.
  apply not_returned_by_active in Hnot as (_ & _ & Hnone).
  rewrite Hnone in Hsome. by destruct Hsome.
Qed.

Ltac kept_step :=
  first
    [ preserves_step | apply INSERT_INTO_book_borrows_kept
    | apply UPDATE_book_borrows_SET_return_date_kept | frame_stmt ].

Lemma after_kept i r c db : kept i r db → kept i r (after c db).
Proof.
  revert db. destruct c; simpl; intros db Hk;
    match goal with
    | |- kept i r (?m db).2 => revert db Hk; change (preserves (kept i r) m)
    end;
    unfold_methods; repeat kept_step.
Qed.

Lemma run_kept i r cs db : kept i r db → kept i r (run cs db).
Proof.
  revert db. induction cs as [|c cs IH]; intros db Hk; [done|].
  simpl. by apply IH, after_kept.
Qed.

Lemma run_store_inv cs db : store_inv db → store_inv (run cs db).
Proof.
  revert db. induction cs as [|c cs IH]; intros db Hinv; [done|].
  simpl. by apply IH, after_store_inv.
Qed.

(** X22. No call removes a borrow row or changes its user, its book or its
    borrow date, and a row that has a return date is never changed: a row of
    a store state is still in the table after any sequence of calls. So the
    user and the book of a borrow row, returned or not, are never deleted. *)
Theorem borrow_rows_are_kept cs db i r :
  store_inv db →
  book_borrows db !! i = Some r →
  kept i r (run cs db) ∧
  is_Some (users (run cs db) !! user_id r) ∧
  is_Some (books (run cs db) !! book_id r).
Proof.
  intros Hinv Hl.
  assert (kept i r (run cs db)) as Hkept.
  { apply run_kept. by exists r. }
  split; [done|]. destruct Hkept as (r' & Hl' & Hu & Hb & _).
  destruct (inv_references _ (run_store_inv cs db Hinv) i r' Hl') as [? ?].
  by rewrite <- Hu, <- Hb.
Qed.

Lemma borrow_rows_are_kept_witness :
  kept 1 {| user_id := 1; book_id := 1; borrow_date := Some 0;
            return_date := None |}
    (run [CallReturnBook 1 1; CallDeleteUser 1; CallDeleteBook 1]
       library_borrowed) ∧
  is_Some (users (run [CallReturnBook 1 1; CallDeleteUser 1; CallDeleteBook 1]
                    library_borrowed) !! 1) ∧
  is_Some (books (run [CallReturnBook 1 1; CallDeleteUser 1; CallDeleteBook 1]
                    library_borrowed) !! 1).
Proof.
  apply (borrow_rows_are_kept
           [CallReturnBook 1 1; CallDeleteUser 1; CallDeleteBook 1]
           library_borrowed 1
           {| user_id := 1; book_id := 1; borrow_date := Some 0;
              return_date := None |}).
  - apply (bool_decide_unpack _). by vm_compute.
  - reflexivity.
Defined.

(** ** Copies *)

Lemma lent_insert_out db db' bookId id r :
  book_borrows db' = <[id := r]> (book_borrows db) →
  book_borrows db !! id = None → out bookId (id, r) →
  lent db' bookId = lent db bookId + 1.
Proof.
  intros Heq Hfresh Hout. unfold lent. rewrite Heq.
  rewrite map_filter_insert_True by done.
  rewrite map_size_insert_None by (by apply map_lookup_filter_None_2; left).
  lia.
Qed.

Lemma lent_insert_other db db' bookId id r :
  book_borrows db' = <[id := r]> (book_borrows db) →
  (∀ r', book_borrows db !! id = Some r' → ¬ out bookId (id, r')) →
  ¬ out bookId (id, r) →
  lent db' bookId = lent db bookId.
Proof.
  intros Heq Hold Hout. unfold lent. rewrite Heq.
  by rewrite map_filter_insert_not'.
Qed.

Lemma lent_insert_back db db' bookId id r r' :
  book_borrows db' = <[id := r']> (book_borrows db) →
  book_borrows db !! id = Some r → out bookId (id, r) →
  ¬ out bookId (id, r') →
  lent db' bookId = lent db bookId - 1.
Proof.
  intros Heq Hl Hout Hback. unfold lent. rewrite Heq.
  rewrite map_filter_insert_False by done. rewrite map_filter_delete.
  rewrite map_size_delete_Some by (by eexists; apply map_lookup_filter_Some_2).
  assert (size (filter (out bookId) (book_borrows db)) ≠ 0%nat).
  { apply (map_size_ne_0_lookup_2 _ id). eexists.
    by apply map_lookup_filter_Some_2. }
  lia.
Qed.

Lemma copies_ext db db' bookId :
  books db' !! bookId = books db !! bookId →
  book_borrows db' = book_borrows db →
  copies db' bookId = copies db bookId.
Proof. intros Hb Hbb. unfold copies, lent. by rewrite Hb, Hbb. Qed.

(** The methods of the user service and the methods that read leave the
    books and the borrow rows alone. *)
Lemma after_keeps_books c db :
  match c with
  | CallCreateBook _ | CallUpdateBook _ _ | CallDeleteBook _
  | CallBorrowBook _ _ | CallReturnBook _ _ => True
  | _ => books (after c db) = books db ∧
         book_borrows (after c db) = book_borrows db
  end.
Proof.
  destruct c; simpl; try done;
    match goal with
    | |- books (?m db).2 = _ ∧ _ =>
        cut (preserves (λ d, books d = books db ∧
                             book_borrows d = book_borrows db) m);
        [intros Hm; exact (Hm db (conj eq_refl eq_refl))|]
    end;
    unfold_methods; repeat first [preserves_step | frame_stmt].
Qed.

(** X23. The copies of a book, those in stock and those lent out, are
    conserved: in a store state, a call leaves their number as it is, unless
    it is an [UpdateBook] or a [DeleteBook] of that book, or a [ReturnBook]
    at the largest [INT]. A borrow moves one copy from the stock to the
    borrow rows and a return moves it back. *)
Theorem copies_are_conserved c db bookId n :
  store_inv db →
  copies db bookId = Some n →
  (∀ b, c ≠ CallUpdateBook bookId b) →
  c ≠ CallDeleteBook bookId →
  ¬ return_at_max c db →
  copies (after c db) bookId = Some n.
Proof.
  intros Hinv Hn Hupd Hdel Hmax. rewrite <- Hn.
  assert (is_Some (books db !! bookId)) as [b Hb].
  { unfold copies in Hn. destruct (books db !! bookId); [by eexists|done]. }
  pose proof (after_keeps_books c db) as Hkeeps.
  destruct c; simpl in *;
    try (apply copies_ext; [by rewrite (proj1 Hkeeps)|by apply Hkeeps]).
  - (* CreateBook *)
    rewrite CreateBook_eq.
    destruct (bool_decide (title_taken db _)); [done|].
    rewrite after_or_return. unfold INSERT_INTO_books.
    destruct (int4 _); [|done]. simpl. destruct (varchar 255 _); [|done].
    destruct (0 <=? _); [|done]. simpl.
    destruct (books db !! (books_id_seq db + 1)) eqn:Hid;
      [by apply copies_ext|]. simpl.
    apply copies_ext; [|done]. simpl. rewrite lookup_insert_ne; [done|].
    congruence.
  - (* UpdateBook *)
    assert (bookId0 ≠ bookId) as Hne by (intros ->; by apply (Hupd updatedBook)).
    rewrite UpdateBook_eq. cbv zeta.
    destruct (bool_decide (is_Some _)); [|done].
    destruct (_ && _); [done|].
    rewrite after_or_return. unfold UPDATE_books.
    destruct (int4 _); [|done]. simpl. destruct (varchar 255 _); [|done].
    destruct (books db !! bookId0); [|done].
    destruct (0 <=? _); [|done]. simpl.
    apply copies_ext; [|done]. simpl. by rewrite lookup_insert_ne.
  - (* DeleteBook *)
    assert (bookId0 ≠ bookId) as Hne by congruence.
    rewrite DeleteBook_eq. destruct (_ && _); [done|]. simpl.
    apply copies_ext; [|done]. simpl. by rewrite lookup_delete_ne.
  - (* BorrowBook *)
    destruct (books db !! bookId0) as [[t q]|] eqn:Hbook.
    2:{ rewrite BorrowBook_eq. cbv zeta. by rewrite Hbook. }
    destruct (decide (q ≤ 0)) as [Hq|Hq].
    { rewrite BorrowBook_eq. cbv zeta. rewrite Hbook.
      by rewrite bool_decide_eq_true_2. }
    destruct (decide (is_Some (users db !! userId))) as [Hu|Hu].
    2:{ rewrite BorrowBook_eq. cbv zeta. rewrite Hbook.
        rewrite bool_decide_eq_false_2 by done.
        by rewrite bool_decide_eq_false_2. }
    destruct (decide (∃ i r, book_borrows db !! i = Some r ∧
                             borrowed_by bookId0 userId r = true)) as [Hrow|Hrow].
    { rewrite BorrowBook_eq. cbv zeta. rewrite Hbook.
      rewrite bool_decide_eq_false_2 by done.
      rewrite bool_decide_eq_true_2 by done.
      by rewrite bool_decide_eq_true_2. }
    apply no_row_borrowed_by in Hrow; [|by apply inv_borrow_dates].
    rewrite (BorrowBook_ok db bookId0 userId t q) by (done || lia). simpl.
    assert (book_borrows db !! (book_borrows_id_seq db + 1) = None) as Hfresh.
    { destruct (book_borrows db !! _) as [r|] eqn:Hl; [|done].
      apply (inv_ids db Hinv) in Hl. lia. }
    unfold copies. simpl. destruct (decide (bookId0 = bookId)) as [->|Hne].
    + rewrite lookup_insert_eq, Hbook. simpl. f_equal.
      erewrite (lent_insert_out db); [lia|done|done|done].
    + rewrite lookup_insert_ne by done.
      erewrite lent_insert_other; [done|simpl; reflexivity| |].
      * by rewrite Hfresh.
      * by intros [? _].
  - (* ReturnBook *)
    destruct (decide (∃ i r, book_borrows db !! i = Some r ∧
                             borrowed_by bookId0 userId r = true))
      as [(i & r & Hl & [Hact _]%borrowed_by_active)|Hrow].
    2:{ rewrite ReturnBook_eq. by rewrite bool_decide_eq_false_2. }
    destruct (inv_references db Hinv i r Hl) as [_ [[t q] Hbook]].
    pose proof Hact as (Hbk & _ & Hret). rewrite Hbk in Hbook.
    pose proof (inv_int4 db Hinv bookId0 _ Hbook) as Hle. simpl in Hle.
    rewrite Hbook in Hmax. simpl in Hmax.
    assert (q < INT_MAX) as Hq
      by (destruct (decide (q = INT_MAX)) as [->|]; [done|lia]).
    rewrite (ReturnBook_ok db bookId0 userId i r t q) by done. simpl.
    unfold copies. simpl. destruct (decide (bookId0 = bookId)) as [->|Hne].
    + rewrite lookup_insert_eq, Hbook. simpl. f_equal.
      erewrite (lent_insert_back db); [lia|done|done|done|].
      by intros [_ ?].
    + rewrite lookup_insert_ne by done.
      erewrite lent_insert_other; [done|simpl; reflexivity| |].
      * intros r' Hl' [Hb' _]. simpl in Hb'. congruence.
      * intros [Hb' _]. simpl in Hb'. congruence.
Qed.

Lemma copies_are_conserved_witness :
  copies (after (CallBorrowBook 1 1) library) 1 = Some 5.
Proof.
  apply (copies_are_conserved (CallBorrowBook 1 1) library 1 5).
  - apply (bool_decide_unpack _). by vm_compute.
  - by vm_compute.
  - done.
  - done.
  - apply (bool_decide_unpack _). by vm_compute.
Defined.

(** ** Dates, and returning twice *)

Lemma INSERT_INTO_book_borrows_later bookId userId :
  preserves returned_later (INSERT_INTO_book_borrows bookId userId).
Proof.
  intros db Hlater. unfold INSERT_INTO_book_borrows. simpl.
  destruct (negb _); [done|].
  destruct (book_borrows db !! (book_borrows_id_seq db + 1)); [done|].
  unfold returned_later. simpl.
  intros i r [[<- <-]|[_ Hl]]%lookup_insert_Some; [done|]. by apply (Hlater i).
Qed.

Lemma UPDATE_book_borrows_SET_return_date_later bookId userId db :
  dates_in_past db → returned_later db →
  returned_later (UPDATE_book_borrows_SET_return_date bookId userId db).2.
Proof.
  intros Hpast Hlater. unfold UPDATE_book_borrows_SET_return_date. simpl.
  destruct (bool_decide (unique_borrow _)); [|done].
  unfold returned_later. simpl. intros i r. rewrite lookup_fmap.
  destruct (book_borrows db !! i) as [r0|] eqn:Hl; [|done]. simpl.
  intros [= <-] b t. destruct (not_returned_by bookId userId r0); simpl.
  - intros Hb [= <-]. apply (Hpast i r0 b Hl). by left.
  - by apply (Hlater i r0 Hl).
Qed.

Ltac later_step :=
  first
    [ preserves_step | apply INSERT_INTO_book_borrows_later | frame_stmt ].

Lemma after_returned_later c db :
  store_inv db → returned_later db → returned_later (after c db).
Proof.
  intros Hinv. revert db Hinv.
  destruct c; simpl; intros db Hinv Hlater;
    try (match goal with
         | |- returned_later (?m db).2 =>
             clear Hinv; revert db Hlater; change (preserves returned_later m)
         end;
         unfold_methods; repeat later_step; fail).
  rewrite ReturnBook_eq. destruct (bool_decide (∃ i r, _)); [|done].
  unfold ReturnBook_writes, bind, or_return.
  pose proof (UPDATE_book_borrows_SET_return_date_later bookId userId db
                (inv_dates db Hinv) Hlater) as Hupd.
  destruct (UPDATE_book_borrows_SET_return_date bookId userId db)
    as [[err|[]] db1]; [done|]. simpl in Hupd.
  assert (preserves returned_later (UPDATE_books_SET_quantity_plus_1 bookId))
    as Hq by (unfold UPDATE_books_SET_quantity_plus_1; frame_stmt).
  specialize (Hq db1 Hupd).
  by destruct (UPDATE_books_SET_quantity_plus_1 bookId db1) as [[err|[]] db2].
Qed.

(** X27. In every store the service brings about from the new database, a
    borrow row that has a return date was returned after it was borrowed:
    the return date is later than the borrow date. *)
Theorem returned_after_borrowed db : reachable db → returned_later db.
Proof.
  intros Hreach.
  assert (store_inv db ∧ returned_later db) as [_ Hlater]; [|done].
  induction Hreach as [|c db _ [IHinv IHlater]].
  - split; [apply new_store_inv|done].
  - split; [by apply after_store_inv|by apply after_returned_later].
Qed.

Lemma returned_after_borrowed_witness :
  returned_later (after (CallReturnBook 1 1) library_borrowed).
Proof.
  apply (returned_after_borrowed (after (CallReturnBook 1 1) library_borrowed)).
  apply reachable_after. unfold library_borrowed, library.
  repeat apply reachable_after. apply reachable_new.
Defined.

(** X28. A borrow is returned once: on any store, when [ReturnBook]
    returns no error, a second [ReturnBook] of the same pair on the store it
    left returns "Book is not borrowed" and changes nothing. *)
Theorem ReturnBook_twice db db' bookId userId :
  ReturnBook bookId userId db = (inr (), db') →
  ReturnBook bookId userId db' =
  (inl (New "bookService - ReturnBook" "Book is not borrowed" None), db').
Proof.
  rewrite ReturnBook_eq. destruct (bool_decide (∃ i r, _)); [|done].
  unfold ReturnBook_writes, bind, or_return,
    UPDATE_book_borrows_SET_return_date. simpl.
  destruct (bool_decide (unique_borrow _)); [|done].
  unfold UPDATE_books_SET_quantity_plus_1, UPDATE_books_SET_quantity. simpl.
  set (table := _ <$> book_borrows db). intros Hret.
  assert (book_borrows db' = table) as Htable.
  { destruct (books db !! bookId) as [[t q]|]; simpl in Hret.
    - destruct (int4 (q + 1)); [|done]. destruct (0 <=? q + 1); [|done].
      simpl in Hret. by injection Hret as <-.
    - by injection Hret as <-. }
  rewrite ReturnBook_eq. rewrite bool_decide_eq_false_2; [done|].
  intros (i & r & Hl & [Hact _]%borrowed_by_active).
  rewrite Htable in Hl. unfold table in Hl. rewrite lookup_fmap in Hl.
  destruct (book_borrows db !! i) as [r0|]; [|done]. simpl in Hl.
  injection Hl as <-.
  destruct (not_returned_by bookId userId r0) eqn:Hnot.
  - by destruct Hact as (_ & _ & ?).
  - apply not_returned_by_active in Hact. congruence.
Qed.

Lemma ReturnBook_twice_witness :
  ReturnBook 1 1 (after (CallReturnBook 1 1) library_borrowed) =
  (inl (New "bookService - ReturnBook" "Book is not borrowed" None),
   after (CallReturnBook 1 1) library_borrowed).
Proof.
  apply (ReturnBook_twice library_borrowed
           (after (CallReturnBook 1 1) library_borrowed) 1 1).
  by vm_compute.
Defined.

(** ** The handlers *)

(** X24. The two handlers that get a row by id answer an id that the table
    does not have with different statuses: [GetUser] with 400, [GetBook]
    with 500. The text is the error of the service with the name of the
    handler at the end of its stack, added by the [er.Wrap] whose result the
    handler drops; the message of pgx is there twice, as message and as
    cause. *)
Theorem Get_of_a_missing_id db id :
  (users db !! id = None →
   api.GetUser (inr id) db =
   ({| api.Status := 400;
       api.Body := api.SendString
         "[userService - GetUser, handler - GetUser]: no rows in result set: no rows in result set" |},
    db)) ∧
  (books db !! id = None →
   api.GetBook (inr id) db =
   ({| api.Status := 500;
       api.Body := api.SendString
         "[bookService - GetBook handler - GetBook]: no rows in result set: no rows in result set" |},
    db)).
Proof.
  unfold api.GetUser, api.GetBook. rewrite GetUser_eq, GetBook_eq.
  split; by intros ->.
Qed.

Lemma ValidateBook_nil b :
  validate.ValidateBook b = [] → book.Title b ≠ "" ∧ book.Quantity b ≠ 0.
Proof.
  unfold validate.ValidateBook, validate.required_string, validate.required_int.
  by do 2 case_bool_decide.
Qed.

Lemma INSERT_INTO_books_in_stock t q :
  q ≠ 0 → preserves in_stock (INSERT_INTO_books t q).
Proof.
  intros Hq db Hin. unfold INSERT_INTO_books.
  destruct (int4 q); [|done]. simpl. destruct (varchar 255 t); [|done].
  destruct (0 <=? q) eqn:H0; [|done]. simpl. apply Z.leb_le in H0.
  destruct (books db !! _) as [old|]; [done|]. unfold in_stock. simpl.
  intros i b [[<- <-]|[_ Hl]]%lookup_insert_Some; [simpl; lia|].
  by apply (Hin i).
Qed.

Lemma UPDATE_books_in_stock t q bookId :
  q ≠ 0 → preserves in_stock (UPDATE_books t q bookId).
Proof.
  intros Hq db Hin. unfold UPDATE_books.
  destruct (int4 q); [|done]. simpl. destruct (varchar 255 t); [|done].
  destruct (books db !! bookId) as [old|]; [|done].
  destruct (0 <=? q) eqn:H0; [|done]. simpl. apply Z.leb_le in H0.
  unfold in_stock. simpl.
  intros i b [[<- <-]|[_ Hl]]%lookup_insert_Some; [simpl; lia|].
  by apply (Hin i).
Qed.

Lemma DELETE_FROM_books_in_stock bookId :
  preserves in_stock (DELETE_FROM_books bookId).
Proof.
  intros db Hin. unfold DELETE_FROM_books. destruct (_ && _); [done|].
  unfold in_stock. simpl. intros i b [_ Hl]%lookup_delete_Some.
  by apply (Hin i).
Qed.

Lemma UPDATE_books_SET_quantity_plus_1_in_stock bookId :
  preserves in_stock (UPDATE_books_SET_quantity 1 bookId).
Proof.
  intros db Hin. unfold UPDATE_books_SET_quantity.
  destruct (books db !! bookId) as [r|] eqn:Hbook; [|done]. simpl.
  destruct (int4 _); [|done]. simpl. destruct (0 <=? _); [|done]. simpl.
  unfold in_stock. simpl. apply Hin in Hbook.
  intros i b [[<- <-]|[_ Hl]]%lookup_insert_Some; [simpl; lia|].
  by apply (Hin i).
Qed.

Ltac in_stock_step :=
  first
    [ preserves_step | apply DELETE_FROM_books_in_stock
    | apply UPDATE_books_SET_quantity_plus_1_in_stock | frame_stmt ].

(** Every call but a borrow keeps the books in stock, when a book it writes
    has a quantity other than 0. *)
Lemma after_in_stock c db :
  match c with
  | CallBorrowBook _ _ => False
  | CallCreateBook b | CallUpdateBook _ b => book.Quantity b ≠ 0
  | _ => True
  end →
  in_stock db → in_stock (after c db).
Proof.
  intros Hc. revert db. destruct c; simpl; [..|done|]; intros db Hin;
    match goal with
    | |- in_stock (?m db).2 => revert db Hin; change (preserves in_stock m)
    end;
    unfold_methods; repeat in_stock_step;
    first [by apply INSERT_INTO_books_in_stock|by apply UPDATE_books_in_stock].
Qed.

Ltac unfold_handlers :=
  unfold api.route, api.CreateUser, api.GetUser, api.GetAllUsers,
    api.UpdateUser, api.DeleteUser, api.CreateBook, api.GetBook,
    api.GetAllBooks, api.UpdateBook, api.DeleteBook, api.GetAvailableBooks,
    api.AllBorrowedBooks, api.BorrowBook, api.ReturnBook.

(** The store after a request is the store after the call it made. *)
Ltac after_call c :=
  match goal with
  | Hcall : _ = (_, ?d), Hin : in_stock ?db |- in_stock ?d =>
      let H := fresh in
      assert (in_stock (after c db)) as H
        by (apply after_in_stock; [simpl|exact Hin]; try done);
      simpl in H; rewrite Hcall in H; exact H
  end.

(** X25. Through the handlers a quantity gets to 0 by borrowing only:
    when every book has a copy in stock, it has after any request that is
    not a borrow. A book of quantity 0 is refused by the validation of the
    handler, which takes 0 for a missing field, and a negative one by the
    check of the column. *)
Theorem quantity_0_only_by_borrowing r db :
  in_stock db →
  (∀ unmarshalled, r ≠ api.POST_book_borrow unmarshalled) →
  in_stock (api.route r db).2.
Proof.
  intros Hin Hr. destruct r; unfold_handlers; repeat case_match; simpl;
    subst; try done.
  all: try match goal with
       | H : validate.ValidateBook _ = [] |- _ =>
           apply ValidateBook_nil in H as [_ ?]
       end.
  all: try match goal with
       | H : service.CreateUser ?u _ = _ |- _ => after_call (CallCreateUser u)
       | H : service.GetUser ?i _ = _ |- _ => after_call (CallGetUser i)
       | H : service.GetAllUsers _ = _ |- _ => after_call CallGetAllUsers
       | H : service.UpdateUser ?u ?i _ = _ |- _ => after_call (CallUpdateUser u i)
       | H : service.DeleteUser ?i _ = _ |- _ => after_call (CallDeleteUser i)
       | H : service.CreateBook ?b _ = _ |- _ => after_call (CallCreateBook b)
       | H : service.GetBook ?i _ = _ |- _ => after_call (CallGetBook i)
       | H : service.GetAllBooks _ = _ |- _ => after_call CallGetAllBooks
       | H : service.UpdateBook ?i ?b _ = _ |- _ => after_call (CallUpdateBook i b)
       | H : service.DeleteBook ?i _ = _ |- _ => after_call (CallDeleteBook i)
       | H : service.GetAvailableBooks _ = _ |- _ => after_call CallGetAvailableBooks
       | H : service.AllBorrowedBooks _ = _ |- _ => after_call CallAllBorrowedBooks
       | H : service.ReturnBook ?b ?u _ = _ |- _ => after_call (CallReturnBook b u)
       end.
  all: by edestruct Hr.
Qed.

Lemma quantity_0_only_by_borrowing_witness :
  in_stock (api.route (api.POST_book (inr two_towers)) library).2.
Proof.
  apply (quantity_0_only_by_borrowing (api.POST_book (inr two_towers)) library).
  - apply (bool_decide_unpack _). by vm_compute.
  - done.
Defined.

Lemma service_error_body status f c db err :
  outcome c db = Some err →
  ∃ stack msg cause,
    outcome c db = Some (AppError (stack ++ [funcName c])%list msg cause) ∧
    api.Body (api.service_error status f err) =
    api.SendString (Error (AppError (stack ++ [funcName c; f])%list msg cause)).
Proof.
  intros Hout. destruct (outcome_AppError c db err Hout)
    as (stack & msg & cause & ->).
  exists stack, msg, cause. split; [done|].
  unfold api.service_error, api.UnwrapError, api.Wrap_dropped, Wrap. simpl.
  by rewrite <- app_assoc.
Qed.

(** Names the call a handler made and reads its error off the response. *)
Ltac reports c :=
  lazymatch goal with
  | Hcall : _ ?db = (inl ?err, ?d)
    |- context [api.service_error ?status ?f ?err] =>
      let Hout := fresh in
      assert (outcome c db = Some err) as Hout
        by (simpl; unfold returned; by rewrite Hcall);
      let Hafter := fresh in
      assert (d = after c db) as Hafter by (simpl; by rewrite Hcall);
      destruct (service_error_body status f c db err Hout)
        as (stack & msg & cause & ? & ?);
      exists c, stack, msg, cause; split_and!; [done|exact Hafter|done]
  end.

(** X26. A response with status 500 reports an error of the service: the
    handler made a call that returned an application error, the store is
    the one that call left, and the text is that error with the name of the
    handler after the name of the method at the end of its stack. *)
Theorem error_response_reports_service_error r db :
  api.Status (api.route r db).1 = 500 →
  ∃ c stack msg cause,
    outcome c db = Some (AppError (stack ++ [funcName c])%list msg cause) ∧
    (api.route r db).2 = after c db ∧
    api.Body (api.route r db).1 =
    api.SendString
      (Error (AppError (stack ++ [funcName c; api.funcName r])%list msg cause)).
Proof.
  destruct r; unfold_handlers; repeat case_match; subst;
    cbn [fst snd api.Status api.bad_request]; try done;
    try (unfold api.service_error at 1; cbn [api.Status]; done);
    intros _.
  all: lazymatch goal with
       | H : service.CreateUser ?u _ = _ |- _ => reports (CallCreateUser u)
       | H : service.UpdateUser ?u ?i _ = _ |- _ => reports (CallUpdateUser u i)
       | H : service.DeleteUser ?i _ = _ |- _ => reports (CallDeleteUser i)
       | H : service.CreateBook ?b _ = _ |- _ => reports (CallCreateBook b)
       | H : service.GetBook ?i _ = _ |- _ => reports (CallGetBook i)
       | H : service.GetAllBooks _ = _ |- _ => reports CallGetAllBooks
       | H : service.UpdateBook ?i ?b _ = _ |- _ => reports (CallUpdateBook i b)
       | H : service.DeleteBook ?i _ = _ |- _ => reports (CallDeleteBook i)
       | H : service.GetAvailableBooks _ = _ |- _ => reports CallGetAvailableBooks
       | H : service.AllBorrowedBooks _ = _ |- _ => reports CallAllBorrowedBooks
       | H : service.BorrowBook ?b ?u _ = _ |- _ => reports (CallBorrowBook b u)
       | H : service.ReturnBook ?b ?u _ = _ |- _ => reports (CallReturnBook b u)
       end.
Qed.

Lemma error_response_reports_service_error_witness :
  ∃ c stack msg cause,
    outcome c library_borrowed =
      Some (AppError (stack ++ [funcName c])%list msg cause) ∧
    (api.route (api.DELETE_user (inr 1)) library_borrowed).2 =
      after c library_borrowed ∧
    api.Body (api.route (api.DELETE_user (inr 1)) library_borrowed).1 =
    api.SendString
      (Error (AppError
                (stack ++ [funcName c; api.funcName (api.DELETE_user (inr 1))])%list
                msg cause)).
Proof.
  apply (error_response_reports_service_error (api.DELETE_user (inr 1))
           library_borrowed).
  reflexivity.
Defined.
